(** * PaySentry: policy engine, spend ledger, disputes, recovery and glob
      matching, embedded from the TypeScript/JavaScript sources.

    Conventions of the embedding.
    - JavaScript strings are sequences of code units; here they are
      [string], i.e. sequences of 8-bit code units.  Of JavaScript's four
      line terminators, LF and CR lie in this alphabet.
    - Amounts and millisecond clocks are JavaScript numbers; they are
      modelled by [Z] (exact arithmetic, e.g. minor currency units).
    - [Map] objects that are only read and written by key are [gmap]s;
      a [Map] that is iterated keeps its insertion order in a list.
    - Objects mutated in place are threaded through explicit state. *)

From Stdlib Require Import ZArith Ascii String List Bool Lia DecimalString Sorted.
From stdpp Require Import gmap strings list fin_maps.
Import ListNotations.

Local Open Scope string_scope.
Local Open Scope Z_scope.

(** JavaScript truthiness of the values the sources test with [if (x)]. *)
Definition truthy_str (s : string) : bool :=
  match s with EmptyString => false | String _ _ => true end.

Definition str_cons_app (c : ascii) (s t : string) :
  String.append (String c s) t = String c (String.append s t) := eq_refl.

Definition str_nil_app (t : string) : String.append "" t = t := eq_refl.

(* ===================================================================== *)
(** ** packages/core glob.js: [matchesGlob]                               *)
(* ===================================================================== *)
Module Glob.

(** The [case] labels of the [switch] that get a backslash in front. *)
Definition isRegexSpecial (c : ascii) : bool :=
  existsb (Ascii.eqb c)
    ["."; "+"; "^"; "$"; "{"; "}"; "("; ")"; "|"; "["; "]"; "\"]%char.

(** One iteration of the [for] loop: the text appended to [regexStr]. *)
Definition escapeChar (c : ascii) : string :=
  if Ascii.eqb c "*" then ".*"
  else if Ascii.eqb c "?" then "."
  else if isRegexSpecial c then String "\" (String c "")
  else String c "".

Fixpoint regexBody (pattern : string) : string :=
  match pattern with
  | EmptyString => ""
  | String c rest => String.append (escapeChar c) (regexBody rest)
  end.

(** [let regexStr = '^'; for (...) regexStr += ...; regexStr += '$'] *)
Definition regexStr (pattern : string) : string :=
  String "^" (String.append (regexBody pattern) "$").

(** *** The fragment of [RegExp] the builder can emit

    Pattern source is read as a sequence of terms: the assertions [^] and
    [$], the atom [.], the atom [.] under the [*] quantifier, an identity
    escape [\c] of a syntax character, and a pattern character.  Any other
    use of a syntax character is outside the fragment; the reader answers
    [None] there, which stands for the [catch] branch of the source. *)
Inductive term : Type :=
  | TBegin
  | TEnd
  | TAny
  | TAnyStar
  | TLit (c : ascii).

Definition isSyntaxChar (c : ascii) : bool :=
  existsb (Ascii.eqb c)
    ["^"; "$"; "\"; "."; "*"; "+"; "?"; "("; ")"; "["; "]"; "{"; "}"; "|"]%char.

Fixpoint RegExp (src : string) : option (list term) :=
  match src with
  | EmptyString => Some []
  | String c rest =>
      if Ascii.eqb c "\" then
        match rest with
        | String e rest' =>
            if isSyntaxChar e then cons (TLit e) <$> RegExp rest' else None
        | EmptyString => None
        end
      else if Ascii.eqb c "." then
        match rest with
        | String q rest' =>
            if Ascii.eqb q "*" then cons TAnyStar <$> RegExp rest'
            else cons TAny <$> RegExp rest
        | EmptyString => Some [TAny]
        end
      else if Ascii.eqb c "^" then cons TBegin <$> RegExp rest
      else if Ascii.eqb c "$" then cons TEnd <$> RegExp rest
      else if isSyntaxChar c then None
      else cons (TLit c) <$> RegExp rest
  end.

(** Without the [s] flag the atom [.] matches every code unit except a
    line terminator. *)
Definition isLineTerminator (c : ascii) : bool :=
  Ascii.eqb c "010" || Ascii.eqb c "013".

(** Backtracking matcher.  [atStart] tells whether the current position is
    index 0 of the input (there is no [m] flag); a match may end anywhere. *)
Fixpoint matchTerms (ts : list term) (atStart : bool) (s : string) : bool :=
  match ts with
  | [] => true
  | TBegin :: ts' => atStart && matchTerms ts' atStart s
  | TEnd :: ts' =>
      match s with
      | EmptyString => matchTerms ts' atStart s
      | String _ _ => false
      end
  | TAny :: ts' =>
      match s with
      | String c s' => negb (isLineTerminator c) && matchTerms ts' false s'
      | EmptyString => false
      end
  | TLit a :: ts' =>
      match s with
      | String c s' => Ascii.eqb a c && matchTerms ts' false s'
      | EmptyString => false
      end
  | TAnyStar :: ts' =>
      (fix star (atS : bool) (r : string) {struct r} : bool :=
         match r with
         | String c r' =>
             (negb (isLineTerminator c) && star false r')
             || matchTerms ts' atS r
         | EmptyString => matchTerms ts' atS r
         end) atStart s
  end.

(** [RegExp.prototype.test] without flags: a match may start anywhere. *)
Fixpoint searchFrom (ts : list term) (atStart : bool) (s : string) : bool :=
  matchTerms ts atStart s
  || match s with
     | String _ s' => searchFrom ts false s'
     | EmptyString => false
     end.

Definition test (re : list term) (value : string) : bool :=
  searchFrom re true value.

Definition matchesGlob (value pattern : string) : bool :=
  if String.eqb pattern value then true
  else if String.eqb pattern "*" then true
  else match RegExp (regexStr pattern) with
       | Some re => test re value
       | None => String.eqb pattern value
       end.

(** The reading of the documentation: [*] any run of characters, [?]
    exactly one character, anything else itself. *)
Inductive globMatches : string -> string -> Prop :=
  | gm_nil : globMatches "" ""
  | gm_star_skip : forall v p,
      globMatches v p -> globMatches v (String "*" p)
  | gm_star_eat : forall c v p,
      globMatches v (String "*" p) -> globMatches (String c v) (String "*" p)
  | gm_quest : forall c v p,
      globMatches v p -> globMatches (String c v) (String "?" p)
  | gm_lit : forall c v p,
      c <> "*"%char -> c <> "?"%char ->
      globMatches v p -> globMatches (String c v) (String c p).

Fixpoint noLineTerminator (s : string) : bool :=
  match s with
  | EmptyString => true
  | String c s' => negb (isLineTerminator c) && noLineTerminator s'
  end.

(** The term a glob character stands for. *)
Definition termOf (c : ascii) : term :=
  if Ascii.eqb c "*" then TAnyStar
  else if Ascii.eqb c "?" then TAny
  else TLit c.

Definition termsOf (pattern : string) : list term :=
  map termOf (list_ascii_of_string pattern).

Definition startsWithStar (s : string) : bool :=
  match s with
  | String c _ => Ascii.eqb c "*"
  | EmptyString => false
  end.

(** The matcher on a pattern's terms, as a relation: [*] and [?] consume
    code units other than line terminators. *)
Inductive regexGlob : string -> string -> Prop :=
  | rg_nil : regexGlob "" ""
  | rg_star_skip : forall v p,
      regexGlob v p -> regexGlob v (String "*" p)
  | rg_star_eat : forall c v p,
      isLineTerminator c = false ->
      regexGlob v (String "*" p) -> regexGlob (String c v) (String "*" p)
  | rg_quest : forall c v p,
      isLineTerminator c = false ->
      regexGlob v p -> regexGlob (String c v) (String "?" p)
  | rg_lit : forall c v p,
      c <> "*"%char -> c <> "?"%char ->
      regexGlob v p -> regexGlob (String c v) (String c p).

End Glob.

(* ===================================================================== *)
(** ** The built-in [Date]                                                 *)
(* ===================================================================== *)
(** A [Date] is its time value: milliseconds since 1970-01-01T00:00:00Z.
    The calendar fields are those of the proleptic Gregorian calendar, as
    ECMA-262 prescribes.  Local time is UTC shifted by the host's offset
    [tz], in minutes east of Greenwich, taken constant. *)
Module JSDate.

Definition msPerDay : Z := 86400000.
Definition msPerHour : Z := 3600000.
Definition msPerMinute : Z := 60000.

Definition Day (t : Z) : Z := t / msPerDay.
Definition TimeWithinDay (t : Z) : Z := t mod msPerDay.
Definition WeekDay (t : Z) : Z := (Day t + 4) mod 7.

(** Year, month (1..12) and day of month (1..31) of a day number. *)
Definition civilFromDays (days : Z) : Z * Z * Z :=
  let z := days + 719468 in
  let era := z / 146097 in
  let doe := z - era * 146097 in
  let yoe := (doe - doe / 1460 + doe / 36524 - doe / 146096) / 365 in
  let doy := doe - (365 * yoe + yoe / 4 - yoe / 100) in
  let mp := (5 * doy + 2) / 153 in
  let d := doy - (153 * mp + 2) / 5 + 1 in
  let m := if mp <? 10 then mp + 3 else mp - 9 in
  let y := yoe + era * 400 in
  (if m <=? 2 then y + 1 else y, m, d).

(** The inverse direction, ECMA-262's [MakeDay] on in-range fields. *)
Definition daysFromCivil (y m d : Z) : Z :=
  let y' := if m <=? 2 then y - 1 else y in
  let era := y' / 400 in
  let yoe := y' - era * 400 in
  let mp := if 2 <? m then m - 3 else m + 9 in
  let doy := (153 * mp + 2) / 5 + d - 1 in
  let doe := yoe * 365 + yoe / 4 - yoe / 100 + doy in
  era * 146097 + doe - 719468.

Definition digit (n : Z) : ascii := ascii_of_nat (48 + Z.to_nat (n mod 10)).

Definition pad2 (n : Z) (k : string) : string :=
  String (digit (n / 10)) (String (digit n) k).
Definition pad3 (n : Z) (k : string) : string :=
  String (digit (n / 100)) (pad2 n k).
Definition pad4 (n : Z) (k : string) : string :=
  String (digit (n / 1000)) (pad3 n k).
Definition pad6 (n : Z) (k : string) : string :=
  String (digit (n / 100000)) (String (digit (n / 10000)) (pad4 n k)).

(** [YYYY], or the expanded [+YYYYYY] / [-YYYYYY] outside 0..9999. *)
Definition yearStr (y : Z) (k : string) : string :=
  if (0 <=? y) && (y <=? 9999) then pad4 y k
  else if y <? 0 then String "-" (pad6 (- y) k)
  else String "+" (pad6 y k).

(** [Date.prototype.toISOString], for a valid time value. *)
Definition toISOString (t : Z) : string :=
  let '(y, m, d) := civilFromDays (Day t) in
  let r := TimeWithinDay t in
  yearStr y
    (String "-" (pad2 m (String "-" (pad2 d (String "T"
      (pad2 (r / msPerHour) (String ":"
        (pad2 (r mod msPerHour / msPerMinute) (String ":"
          (pad2 (r mod msPerMinute / 1000) (String "."
            (pad3 (r mod 1000) "Z")))))))))))).

(** The texts the window keys are documented to be, from the calendar
    fields of a day number or time value. *)
Definition isoDate (days : Z) : string :=
  let '(y, m, d) := civilFromDays days in
  pad4 y (String "-" (pad2 m (String "-" (pad2 d "")))).

Definition isoMonth (days : Z) : string :=
  let '(y, m, _) := civilFromDays days in
  pad4 y (String "-" (pad2 m "")).

Definition isoHour (t : Z) : string :=
  let '(y, m, d) := civilFromDays (Day t) in
  pad4 y (String "-" (pad2 m (String "-" (pad2 d (String "T"
    (pad2 (TimeWithinDay t / msPerHour) "")))))).

Definition yearMonth (days : Z) : Z * Z :=
  let '(y, m, _) := civilFromDays days in (y, m).

(** The day number of the Monday that starts the ISO week of a day. *)
Definition weekStart (days : Z) : Z := days - (days + 3) mod 7.

(** Time values from 0001-01-01T00:00:00.000Z to
    9999-12-31T23:59:59.999Z: the year prints with four digits. *)
Definition fourDigitYear (t : Z) : Prop :=
  -62135596800000 <= t <= 253402300799999.

(** [s.slice(0, n)] *)
Definition slice0 (n : nat) (s : string) : string := substring 0 n s.

Section Local.
Variable tz : Z.

Definition localTime (t : Z) : Z := t + tz * msPerMinute.

(** [d.getDay()]: day of the week in local time, Sunday = 0. *)
Definition getDay (t : Z) : Z := WeekDay (localTime t).

(** [d.setDate(d.getDate() + k)]: the local calendar day moves by [k]
    days (month overflow included), the local time of day stays. *)
Definition addLocalDays (t k : Z) : Z :=
  localTime t + k * msPerDay - tz * msPerMinute.
End Local.

End JSDate.

(* ===================================================================== *)
(** ** packages/core types                                                 *)
(* ===================================================================== *)
Inductive JsValue : Type :=
  | JUndefined
  | JStr (s : string)
  | JNum (n : Z)
  | JBool (b : bool).

Definition JsValue_eqb (a b : JsValue) : bool :=
  match a, b with
  | JUndefined, JUndefined => true
  | JStr s, JStr s' => String.eqb s s'
  | JNum n, JNum n' => n =? n'
  | JBool x, JBool y => Bool.eqb x y
  | _, _ => false
  end.

(** A [Record<string, unknown>]: reading a missing key gives [undefined]. *)
Definition JsRecord : Type := list (string * JsValue).

Fixpoint jsGet (o : JsRecord) (key : string) : JsValue :=
  match o with
  | [] => JUndefined
  | (k, v) :: o' => if String.eqb k key then v else jsGet o' key
  end.

Definition jsOptStr (o : option string) : JsValue :=
  match o with Some s => JStr s | None => JUndefined end.

(** Template-literal printing of an integral number. *)
Definition showZ (z : Z) : string := NilZero.string_of_int (Z.to_int z).

(** [n.toFixed(2)] of an integral number. *)
Definition toFixed2 (z : Z) : string := String.append (showZ z) ".00".

Fixpoint concat_str (l : list string) : string :=
  match l with
  | [] => ""
  | s :: l' => String.append s (concat_str l')
  end.

(** The one-character string holding a double quote. *)
Definition dquote : string := String "034"%char EmptyString.

(** [parts.join(sep)] *)
Fixpoint join (sep : string) (parts : list string) : string :=
  match parts with
  | [] => ""
  | [s] => s
  | s :: rest => String.append s (String.append sep (join sep rest))
  end.

(** [arr.includes(x)] and [arr.some(p)] on string arrays. *)
Definition includes (arr : list string) (x : string) : bool :=
  existsb (String.eqb x) arr.

Inductive PaymentProtocol : Type := x402 | acp | ap2 | stripe | custom.

Definition PaymentProtocol_eqb (a b : PaymentProtocol) : bool :=
  match a, b with
  | x402, x402 | acp, acp | ap2, ap2 | stripe, stripe | custom, custom => true
  | _, _ => false
  end.

Inductive TransactionStatus : Type :=
  | tx_pending | tx_approved | tx_rejected | tx_executing
  | tx_completed | tx_failed | tx_disputed | tx_refunded.

(** [createdAt] is held as the time value [new Date(tx.createdAt)]
    denotes; an absent [service] is [None]. *)
Record AgentTransaction : Type := mkTx {
  tx_id : string;
  tx_agentId : string;
  tx_recipient : string;
  tx_amount : Z;
  tx_currency : string;
  tx_purpose : string;
  tx_protocol : PaymentProtocol;
  tx_status : TransactionStatus;
  tx_service : option string;
  tx_createdAt : Z;
  tx_metadata : JsRecord
}.

Inductive TimeWindow : Type :=
  | per_transaction | hourly | daily | weekly | monthly.

Definition showWindow (w : TimeWindow) : string :=
  match w with
  | per_transaction => "per_transaction"
  | hourly => "hourly"
  | daily => "daily"
  | weekly => "weekly"
  | monthly => "monthly"
  end.

Inductive PolicyAction : Type := allow | deny | require_approval | flag.

Definition showAction (a : PolicyAction) : string :=
  match a with
  | allow => "allow"
  | deny => "deny"
  | require_approval => "require_approval"
  | flag => "flag"
  end.

(** Optional arrays are only ever tested through [?.length]; an absent
    array and an empty one behave alike and both are [[]]. *)
Record PolicyCondition : Type := mkCond {
  cond_agents : list string;
  cond_recipients : list string;
  cond_services : list string;
  cond_protocols : list PaymentProtocol;
  cond_minAmount : option Z;
  cond_maxAmount : option Z;
  cond_currencies : list string;
  cond_metadata : option JsRecord
}.

Record PolicyRule : Type := mkRule {
  rule_id : string;
  rule_name : string;
  rule_enabled : bool;
  rule_priority : Z;
  rule_conditions : PolicyCondition;
  rule_action : PolicyAction
}.

Record BudgetLimit : Type := mkBudget {
  bud_window : TimeWindow;
  bud_maxAmount : Z;
  bud_currency : option string;
  bud_agentIds : list string;
  bud_serviceIds : list string
}.

Record SpendPolicy : Type := mkPolicy {
  pol_id : string;
  pol_name : string;
  pol_rules : list PolicyRule;
  pol_budgets : list BudgetLimit;
  pol_cooldownMs : option Z;
  pol_enabled : bool
}.

Record PolicyEvaluation : Type := mkEval {
  ev_allowed : bool;
  ev_action : PolicyAction;
  ev_triggeredRule : option PolicyRule;
  ev_reason : string;
  ev_details : JsRecord
}.

(** [Array.prototype.sort] is stable: elements that compare equal keep
    their order.  [cmp a b] is the number the comparator returns; the
    array is built from the right, each element entering in front of the
    first one it does not compare greater than. *)
Fixpoint insertCmp {A : Type} (cmp : A -> A -> Z) (x : A) (l : list A)
  : list A :=
  match l with
  | [] => [x]
  | y :: l' => if cmp x y <=? 0 then x :: y :: l' else y :: insertCmp cmp x l'
  end.

Fixpoint sortCmp {A : Type} (cmp : A -> A -> Z) (l : list A) : list A :=
  match l with
  | [] => []
  | x :: l' => insertCmp cmp x (sortCmp cmp l')
  end.

Definition keyLe {A : Type} (key : A -> Z) (a b : A) : Prop := key a <= key b.

(** The first element of [x :: l] whose key is least. *)
Fixpoint firstLeast {A : Type} (key : A -> Z) (x : A) (l : list A) : A :=
  match l with
  | [] => x
  | y :: l' =>
      let m := firstLeast key y l' in
      if key x <=? key m then x else m
  end.

(** [a.localeCompare(b)] on ISO timestamps: code-unit order. *)
Definition localeCompare (a b : string) : Z :=
  match String.compare a b with
  | Lt => -1
  | Eq => 0
  | Gt => 1
  end.

(** [s.trim()] over the white space of the 8-bit alphabet. *)
Definition isWhiteSpace (c : ascii) : bool :=
  existsb (Ascii.eqb c) ["009"; "010"; "011"; "012"; "013"; " "; "160"]%char.

Fixpoint trimStart (s : string) : string :=
  match s with
  | EmptyString => ""
  | String c s' => if isWhiteSpace c then trimStart s' else s
  end.

Fixpoint trimEnd (s : string) : string :=
  match s with
  | EmptyString => ""
  | String c s' =>
      match trimEnd s' with
      | EmptyString => if isWhiteSpace c then "" else String c ""
      | r => String c r
      end
  end.

Definition trim (s : string) : string := trimEnd (trimStart s).

(** [Map.prototype.set] on a map that is iterated: an existing key keeps
    its place, a new key goes last. *)
Fixpoint mapSet {V : Type} (k : string) (v : V) (m : list (string * V))
  : list (string * V) :=
  match m with
  | [] => [(k, v)]
  | (k', v') :: m' =>
      if String.eqb k' k then (k, v) :: m' else (k', v') :: mapSet k v m'
  end.

Fixpoint mapGet {V : Type} (k : string) (m : list (string * V)) : option V :=
  match m with
  | [] => None
  | (k', v) :: m' => if String.eqb k' k then Some v else mapGet k m'
  end.

Definition mapHas {V : Type} (k : string) (m : list (string * V)) : bool :=
  existsb (fun kv => String.eqb (fst kv) k) m.

Definition mapDelete {V : Type} (k : string) (m : list (string * V))
  : list (string * V) :=
  List.filter (fun kv => negb (String.eqb (fst kv) k)) m.

(* ===================================================================== *)
(** ** packages/control policy.js: [PolicyEngine]                          *)
(* ===================================================================== *)
Module PolicyEngine.

Record SpendBucket : Type := mkBucket {
  bucket_key : string;
  bucket_amount : Z;
  bucket_count : Z
}.

Record State : Type := mkState {
  policies : list (string * SpendPolicy);
  spendBuckets : gmap string SpendBucket;
  lastTransactionTime : gmap string Z
}.

Definition init : State := mkState [] ∅ ∅.

Definition loadPolicy (st : State) (policy : SpendPolicy) : State :=
  mkState (mapSet (pol_id policy) policy (policies st))
          (spendBuckets st) (lastTransactionTime st).

Definition removePolicy (st : State) (policyId : string) : bool * State :=
  (mapHas policyId (policies st),
   mkState (mapDelete policyId (policies st))
           (spendBuckets st) (lastTransactionTime st)).

Definition getPolicies (st : State) : list SpendPolicy :=
  map snd (policies st).


Definition optTruthy (o : option string) : bool :=
  match o with Some s => truthy_str s | None => false end.

Definition nonEmpty {A : Type} (l : list A) : bool :=
  match l with [] => false | _ :: _ => true end.

(** The three [continue] guards shared by [evaluateBudgets] and
    [recordTransaction]: [true] when the budget is skipped. *)
Definition budgetSkipped (budget : BudgetLimit) (tx : AgentTransaction) : bool :=
  match bud_currency budget with
  | Some c => truthy_str c && negb (String.eqb c (tx_currency tx))
  | None => false
  end
  || (nonEmpty (bud_agentIds budget)
      && negb (includes (bud_agentIds budget) (tx_agentId tx)))
  || (nonEmpty (bud_serviceIds budget)
      && match tx_service tx with
         | Some s => negb (truthy_str s) || negb (includes (bud_serviceIds budget) s)
         | None => true
         end).

(** The filters of a budget pass: no currency filter or that currency;
    no agent scope or an agent in it; no service scope or a service in
    it. *)
Definition budgetMatches (budget : BudgetLimit) (tx : AgentTransaction) : Prop :=
  match bud_currency budget with
  | Some c => c = "" \/ c = tx_currency tx
  | None => True
  end
  /\ (bud_agentIds budget = [] \/ In (tx_agentId tx) (bud_agentIds budget))
  /\ (bud_serviceIds budget = []
      \/ exists s, tx_service tx = Some s /\ s <> ""
                   /\ In s (bud_serviceIds budget)).

Definition getBudgetScope (budget : BudgetLimit) : string :=
  let parts :=
    ((if nonEmpty (bud_agentIds budget)
      then [String.append "agents:" (join "," (bud_agentIds budget))] else [])
     ++ (if nonEmpty (bud_serviceIds budget)
         then [String.append "services:" (join "," (bud_serviceIds budget))] else [])
     ++ (match bud_currency budget with
         | Some c => if truthy_str c then [String.append "currency:" c] else []
         | None => []
         end))%list in
  if nonEmpty parts then join "|" parts else "global".

Definition actionSeverity (a : PolicyAction) : Z :=
  match a with
  | deny => 0
  | require_approval => 1
  | flag => 2
  | allow => 3
  end.

(** [results.sort(...)[0]] on the non-empty array [r :: rs]. *)
Definition getMostRestrictive (r : PolicyEvaluation) (rs : list PolicyEvaluation)
  : PolicyEvaluation :=
  hd r (sortCmp (fun a b => actionSeverity (ev_action a)
                              - actionSeverity (ev_action b)) (r :: rs)).

Definition someGlob (value : string) (patterns : list string) : bool :=
  existsb (fun pattern => Glob.matchesGlob value pattern) patterns.

Definition matchesConditions (tx : AgentTransaction) (rule : PolicyRule) : bool :=
  let cond := rule_conditions rule in
  if nonEmpty (cond_agents cond)
     && negb (someGlob (tx_agentId tx) (cond_agents cond)) then false
  else if nonEmpty (cond_recipients cond)
     && negb (someGlob (tx_recipient tx) (cond_recipients cond)) then false
  else if nonEmpty (cond_services cond)
     && match tx_service tx with
        | Some s => negb (truthy_str s)
                    || negb (existsb (fun s' => String.eqb s' s) (cond_services cond))
        | None => true
        end then false
  else if nonEmpty (cond_protocols cond)
     && negb (existsb (fun p => PaymentProtocol_eqb p (tx_protocol tx))
                (cond_protocols cond)) then false
  else if match cond_minAmount cond with
          | Some lo => tx_amount tx <? lo
          | None => false
          end then false
  else if match cond_maxAmount cond with
          | Some hi => tx_amount tx >? hi
          | None => false
          end then false
  else if nonEmpty (cond_currencies cond)
     && negb (existsb (fun c => String.eqb c (tx_currency tx))
                (cond_currencies cond)) then false
  else match cond_metadata cond with
       | Some entries =>
           forallb (fun kv => JsValue_eqb (jsGet (tx_metadata tx) (fst kv)) (snd kv))
             entries
       | None => true
       end.

Definition ruleMatched (policy : SpendPolicy) (rule : PolicyRule)
  : PolicyEvaluation :=
  {| ev_allowed :=
       match rule_action rule with allow | flag => true | _ => false end;
     ev_action := rule_action rule;
     ev_triggeredRule := Some rule;
     ev_reason :=
       concat_str ["Rule "; dquote; rule_name rule; dquote; " matched: action=";
                   showAction (rule_action rule)];
     ev_details :=
       [("policyId", JStr (pol_id policy));
        ("policyName", JStr (pol_name policy));
        ("ruleId", JStr (rule_id rule));
        ("ruleName", JStr (rule_name rule));
        ("ruleAction", JStr (showAction (rule_action rule)))] |}.

Definition noRuleMatched (policy : SpendPolicy) : PolicyEvaluation :=
  {| ev_allowed := true;
     ev_action := allow;
     ev_triggeredRule := None;
     ev_reason :=
       concat_str ["No rules matched in policy "; dquote; pol_name policy;
                   dquote; " — allowing by default"];
     ev_details :=
       [("policyId", JStr (pol_id policy));
        ("policyName", JStr (pol_name policy))] |}.

Definition evaluateRules (tx : AgentTransaction) (policy : SpendPolicy)
  : PolicyEvaluation :=
  let sortedRules :=
    sortCmp (fun a b => rule_priority a - rule_priority b)
      (List.filter (fun r => rule_enabled r) (pol_rules policy)) in
  match find (matchesConditions tx) sortedRules with
  | Some rule => ruleMatched policy rule
  | None => noRuleMatched policy
  end.

Definition cooldownDenied (policy : SpendPolicy) (cooldownMs elapsed : Z)
  : PolicyEvaluation :=
  let remainingMs := cooldownMs - elapsed in
  {| ev_allowed := false;
     ev_action := deny;
     ev_triggeredRule := None;
     ev_reason :=
       concat_str ["Cooldown active: "; showZ remainingMs;
                   "ms remaining (minimum "; showZ cooldownMs;
                   "ms between transactions)"];
     ev_details :=
       [("policyId", JStr (pol_id policy));
        ("policyName", JStr (pol_name policy));
        ("elapsed", JNum elapsed);
        ("required", JNum cooldownMs);
        ("remainingMs", JNum remainingMs)] |}.

Definition budgetDenied (policy : SpendPolicy) (budget : BudgetLimit)
  (tx : AgentTransaction) (currentAmount projectedAmount : Z)
  : PolicyEvaluation :=
  {| ev_allowed := false;
     ev_action := deny;
     ev_triggeredRule := None;
     ev_reason :=
       trim (concat_str
         [showWindow (bud_window budget); " budget exceeded: $";
          toFixed2 projectedAmount; " would exceed limit of $";
          showZ (bud_maxAmount budget); " ";
          match bud_currency budget with Some c => c | None => "" end]);
     ev_details :=
       [("policyId", JStr (pol_id policy));
        ("policyName", JStr (pol_name policy));
        ("budgetWindow", JStr (showWindow (bud_window budget)));
        ("currentSpend", JNum currentAmount);
        ("transactionAmount", JNum (tx_amount tx));
        ("projectedSpend", JNum projectedAmount);
        ("limit", JNum (bud_maxAmount budget));
        ("currency", jsOptStr (bud_currency budget))] |}.

Definition noPolicies : PolicyEvaluation :=
  {| ev_allowed := true;
     ev_action := allow;
     ev_triggeredRule := None;
     ev_reason := "No policies loaded — allowing by default";
     ev_details := [] |}.

Definition amountOf (buckets : gmap string SpendBucket) (key : string) : Z :=
  match buckets !! key with
  | Some b => bucket_amount b
  | None => 0
  end.

Definition countOf (buckets : gmap string SpendBucket) (key : string) : Z :=
  match buckets !! key with
  | Some b => bucket_count b
  | None => 0
  end.

(** Calls that change the set of loaded policies. *)
Inductive PolicyCall : Type :=
  | CallLoad (policy : SpendPolicy)
  | CallRemove (policyId : string).

Definition performCall (st : State) (c : PolicyCall) : State :=
  match c with
  | CallLoad policy => loadPolicy st policy
  | CallRemove policyId => snd (removePolicy st policyId)
  end.

(** The engine's policies are stored under their own ids, ids distinct. *)
Definition policiesKeyed (st : State) : Prop :=
  NoDup (map fst (policies st))
  /\ (forall k p, In (k, p) (policies st) -> k = pol_id p).

(** The first enabled rule, in priority order, whose conditions match. *)
Definition firstMatch (tx : AgentTransaction) (rules : list PolicyRule)
  : option PolicyRule :=
  match List.filter (fun r => rule_enabled r && matchesConditions tx r) rules with
  | [] => None
  | r :: rest => Some (firstLeast rule_priority r rest)
  end.

Section Host.
(** [tz]: the host's time-zone offset; [now]: the reading of
    [Date.now()] during the call. *)
Variable tz : Z.

Definition getWindowKey (window : TimeWindow) (date : Z) : string :=
  match window with
  | per_transaction => JSDate.toISOString date
  | hourly => JSDate.slice0 13 (JSDate.toISOString date)
  | daily => JSDate.slice0 10 (JSDate.toISOString date)
  | weekly =>
      let day := JSDate.getDay tz date in
      let mondayOffset := if day =? 0 then -6 else 1 - day in
      let d := JSDate.addLocalDays tz date mondayOffset in
      JSDate.slice0 10 (JSDate.toISOString d)
  | monthly => JSDate.slice0 7 (JSDate.toISOString date)
  end.

Definition getBudgetBucketKey (policyId : string) (budget : BudgetLimit)
  (tx : AgentTransaction) : string :=
  let windowKey := getWindowKey (bud_window budget) (tx_createdAt tx) in
  let scope := getBudgetScope budget in
  concat_str [policyId; ":"; scope; ":"; showWindow (bud_window budget);
              ":"; windowKey].


Fixpoint evaluateBudgetsFrom (st : State) (tx : AgentTransaction)
  (policy : SpendPolicy) (budgets : list BudgetLimit)
  : option PolicyEvaluation :=
  match budgets with
  | [] => None
  | budget :: rest =>
      if budgetSkipped budget tx then evaluateBudgetsFrom st tx policy rest
      else
        let bucketKey := getBudgetBucketKey (pol_id policy) budget tx in
        let currentAmount := amountOf (spendBuckets st) bucketKey in
        let projectedAmount := currentAmount + tx_amount tx in
        if projectedAmount >? bud_maxAmount budget
        then Some (budgetDenied policy budget tx currentAmount projectedAmount)
        else evaluateBudgetsFrom st tx policy rest
  end.

Definition evaluateBudgets (st : State) (tx : AgentTransaction)
  (policy : SpendPolicy) : option PolicyEvaluation :=
  evaluateBudgetsFrom st tx policy (pol_budgets policy).

Definition evaluateCooldown (now : Z) (st : State) (tx : AgentTransaction)
  (policy : SpendPolicy) : option PolicyEvaluation :=
  match pol_cooldownMs policy with
  | None => None
  | Some cooldownMs =>
      if cooldownMs =? 0 then None
      else match lastTransactionTime st !! tx_agentId tx with
           | None => None
           | Some lastTime =>
               let elapsed := now - lastTime in
               if elapsed <? cooldownMs
               then Some (cooldownDenied policy cooldownMs elapsed)
               else None
           end
  end.

(** The body of the [for] loop of [evaluate] for one policy: what it
    pushes on [results], if anything. *)
Definition evaluatePolicy (now : Z) (st : State) (tx : AgentTransaction)
  (policy : SpendPolicy) : option PolicyEvaluation :=
  if negb (pol_enabled policy) then None
  else match evaluateBudgets st tx policy with
       | Some budgetResult => Some budgetResult
       | None =>
           match evaluateCooldown now st tx policy with
           | Some cooldownResult => Some cooldownResult
           | None => Some (evaluateRules tx policy)
           end
       end.

(** The decision [evaluate] collects for an enabled policy. *)
Definition policyDecision (now : Z) (st : State) (tx : AgentTransaction)
  (policy : SpendPolicy) : PolicyEvaluation :=
  match evaluateBudgets st tx policy with
  | Some budgetResult => budgetResult
  | None =>
      match evaluateCooldown now st tx policy with
      | Some cooldownResult => cooldownResult
      | None => evaluateRules tx policy
      end
  end.

(** [projected = currentBucket.amount + tx.amount] for a budget. *)
Definition projectedAmount (st : State) (tx : AgentTransaction)
  (policy : SpendPolicy) (budget : BudgetLimit) : Z :=
  amountOf (spendBuckets st) (getBudgetBucketKey (pol_id policy) budget tx)
  + tx_amount tx.

(** How many (enabled policy, matching budget) pairs address the bucket
    [key] for the transaction. *)
Definition budgetHits (policyId : string) (tx : AgentTransaction)
  (budgets : list BudgetLimit) (key : string) : nat :=
  length (List.filter (fun b => negb (budgetSkipped b tx)
                           && String.eqb (getBudgetBucketKey policyId b tx) key)
            budgets).

Fixpoint bucketHits (tx : AgentTransaction) (ps : list SpendPolicy)
  (key : string) : nat :=
  match ps with
  | [] => O
  | p :: ps' =>
      ((if pol_enabled p then budgetHits (pol_id p) tx (pol_budgets p) key else O)
       + bucketHits tx ps' key)%nat
  end.

Fixpoint collectResults (now : Z) (st : State) (tx : AgentTransaction)
  (ps : list SpendPolicy) : list PolicyEvaluation :=
  match ps with
  | [] => []
  | policy :: rest =>
      match evaluatePolicy now st tx policy with
      | Some r => r :: collectResults now st tx rest
      | None => collectResults now st tx rest
      end
  end.

Definition evaluate (now : Z) (st : State) (tx : AgentTransaction)
  : PolicyEvaluation :=
  match collectResults now st tx (getPolicies st) with
  | [] => noPolicies
  | r :: rs => getMostRestrictive r rs
  end.

Fixpoint recordBudgets (policyId : string) (tx : AgentTransaction)
  (budgets : list BudgetLimit) (buckets : gmap string SpendBucket)
  : gmap string SpendBucket :=
  match budgets with
  | [] => buckets
  | budget :: rest =>
      if budgetSkipped budget tx then recordBudgets policyId tx rest buckets
      else
        let bucketKey := getBudgetBucketKey policyId budget tx in
        let bucket :=
          match buckets !! bucketKey with
          | Some b => b
          | None => mkBucket bucketKey 0 0
          end in
        recordBudgets policyId tx rest
          (<[bucketKey :=
               mkBucket (bucket_key bucket)
                        (bucket_amount bucket + tx_amount tx)
                        (bucket_count bucket + 1)]> buckets)
  end.

Fixpoint recordPolicies (now : Z) (tx : AgentTransaction)
  (ps : list SpendPolicy) (st : State) : State :=
  match ps with
  | [] => st
  | policy :: rest =>
      if negb (pol_enabled policy) then recordPolicies now tx rest st
      else
        recordPolicies now tx rest
          (mkState (policies st)
             (recordBudgets (pol_id policy) tx (pol_budgets policy)
                (spendBuckets st))
             (<[tx_agentId tx := now]> (lastTransactionTime st)))
  end.

Definition recordTransaction (now : Z) (st : State) (tx : AgentTransaction)
  : State :=
  recordPolicies now tx (getPolicies st) st.

End Host.

End PolicyEngine.

(* ===================================================================== *)
(** ** packages/observe tracker.ts: [SpendTracker]                         *)
(* ===================================================================== *)
Module SpendTracker.

Record State : Type := mkState {
  transactions : gmap string AgentTransaction;
  byAgent : gmap string (gset string);
  byService : gmap string (gset string);
  byRecipient : gmap string (gset string);
  chronological : list string
}.

Definition init : State := mkState ∅ ∅ ∅ ∅ [].

(** The ids an index holds under a key ([∅] when the key is absent). *)
Definition idsAt (index : gmap string (gset string)) (key : string)
  : gset string :=
  default ∅ (index !! key).

Definition addToIndex (index : gmap string (gset string))
  (key txId : string) : gmap string (gset string) :=
  <[key := idsAt index key ∪ {[txId]}]> index.

Definition record (st : State) (tx : AgentTransaction) : State :=
  let isUpdate := bool_decide (is_Some (transactions st !! tx_id tx)) in
  let transactions' := <[tx_id tx := tx]> (transactions st) in
  if negb isUpdate then
    mkState transactions'
      (addToIndex (byAgent st) (tx_agentId tx) (tx_id tx))
      (match tx_service tx with
       | Some s => if truthy_str s
                   then addToIndex (byService st) s (tx_id tx)
                   else byService st
       | None => byService st
       end)
      (addToIndex (byRecipient st) (tx_recipient tx) (tx_id tx))
      (chronological st ++ [tx_id tx])%list
  else
    mkState transactions' (byAgent st) (byService st) (byRecipient st)
      (chronological st).

Definition get (st : State) (id : string) : option AgentTransaction :=
  transactions st !! id.

Definition size (st : State) : nat := base.size (transactions st).

(** The tracker after [record] was called on each transaction in turn. *)
Definition replay (txs : list AgentTransaction) : State :=
  fold_left record txs init.

(** The transaction of the first, and of the last, call with a given id. *)
Definition firstRecorded (txs : list AgentTransaction) (id : string)
  : option AgentTransaction :=
  find (fun t => String.eqb (tx_id t) id) txs.

Definition lastRecorded (txs : list AgentTransaction) (id : string)
  : option AgentTransaction :=
  find (fun t => String.eqb (tx_id t) id) (rev txs).

(** Re-recordings of an id keep agent, recipient and service. *)
Definition fieldsStable (txs : list AgentTransaction) : Prop :=
  forall t t', In t txs -> In t' txs -> tx_id t = tx_id t' ->
    tx_agentId t = tx_agentId t' /\ tx_recipient t = tx_recipient t'
    /\ tx_service t = tx_service t'.

End SpendTracker.

(** The outcome of a call that may [throw]; the state a call leaves
    behind is returned beside it in either case. *)
Inductive Completion (A : Type) : Type :=
  | Return (a : A)
  | Throw (message : string).
Arguments Return {A} a.
Arguments Throw {A} message.

(* ===================================================================== *)
(** ** packages/protect provenance.ts: [TransactionProvenance]             *)
(* ===================================================================== *)
Module TransactionProvenance.

Inductive Stage : Type :=
  | intent | policy_check | approval | execution | settlement | dispute.

Inductive Outcome : Type := pass | fail | pending.

Record ProvenanceRecord : Type := mkRecord {
  pr_transactionId : string;
  pr_stage : Stage;
  pr_timestamp : string;
  pr_action : string;
  pr_outcome : Outcome;
  pr_details : JsRecord
}.

Record State : Type := mkState {
  chains : gmap string (list ProvenanceRecord)
}.

Definition getChain (st : State) (txId : string) : list ProvenanceRecord :=
  default [] (chains st !! txId).

Definition addRecord (st : State) (txId : string) (record : ProvenanceRecord)
  : ProvenanceRecord * State :=
  (record, mkState (<[txId := (getChain st txId ++ [record])%list]> (chains st))).

Definition recordDispute (now : string) (st : State) (txId : string)
  (details : JsRecord) : ProvenanceRecord * State :=
  addRecord st txId
    {| pr_transactionId := txId;
       pr_stage := dispute;
       pr_timestamp := now;
       pr_action := "Dispute filed against transaction";
       pr_outcome := pending;
       pr_details := details |}.

(** [recordPolicyCheck], [recordApproval], [recordExecution] and
    [recordSettlement] differ in the stage and the two action texts. *)
Definition recordStage (stage : Stage) (passed failed : string) (now : string)
  (st : State) (txId : string) (outcome : Outcome) (details : JsRecord)
  : ProvenanceRecord * State :=
  addRecord st txId
    {| pr_transactionId := txId;
       pr_stage := stage;
       pr_timestamp := now;
       pr_action := match outcome with pass => passed | _ => failed end;
       pr_outcome := outcome;
       pr_details := details |}.

Definition recordPolicyCheck : string -> State -> string -> Outcome -> JsRecord
                               -> ProvenanceRecord * State :=
  recordStage policy_check "Policy check passed" "Policy check failed".

Definition recordApproval : string -> State -> string -> Outcome -> JsRecord
                            -> ProvenanceRecord * State :=
  recordStage approval "Transaction approved" "Transaction rejected".

Definition recordExecution : string -> State -> string -> Outcome -> JsRecord
                             -> ProvenanceRecord * State :=
  recordStage execution "Payment executed successfully" "Payment execution failed".

Definition recordSettlement : string -> State -> string -> Outcome -> JsRecord
                              -> ProvenanceRecord * State :=
  recordStage settlement "Payment settled and confirmed" "Settlement failed".

Definition showProtocol (p : PaymentProtocol) : string :=
  match p with
  | x402 => "x402"
  | acp => "acp"
  | ap2 => "ap2"
  | stripe => "stripe"
  | custom => "custom"
  end.

(** [recordIntent]; in [{agentId: ..., ...details}] a key of [details]
    overrides the listed one, as a lookup in [details ++ listed] does. *)
Definition recordIntent (now : string) (st : State) (tx : AgentTransaction)
  (details : JsRecord) : ProvenanceRecord * State :=
  addRecord st (tx_id tx)
    {| pr_transactionId := tx_id tx;
       pr_stage := intent;
       pr_timestamp := now;
       pr_action :=
         concat_str ["Agent "; tx_agentId tx; " intends to pay ";
                     showZ (tx_amount tx); " "; tx_currency tx; " to ";
                     tx_recipient tx];
       pr_outcome := pass;
       pr_details :=
         (details
          ++ [("agentId", JStr (tx_agentId tx));
              ("recipient", JStr (tx_recipient tx));
              ("amount", JNum (tx_amount tx));
              ("currency", JStr (tx_currency tx));
              ("purpose", JStr (tx_purpose tx));
              ("protocol", JStr (showProtocol (tx_protocol tx)))])%list |}.

Definition Stage_eqb (a b : Stage) : bool :=
  match a, b with
  | intent, intent | policy_check, policy_check | approval, approval
  | execution, execution | settlement, settlement | dispute, dispute => true
  | _, _ => false
  end.

Definition hasStage (chain : list ProvenanceRecord) (s : Stage) : bool :=
  existsb (fun r => Stage_eqb (pr_stage r) s) chain.

Definition isComplete (st : State) (txId : string) : bool :=
  match chains st !! txId with
  | None => false
  | Some chain =>
      match chain with
      | [] => false
      | _ :: _ =>
          hasStage chain intent
          && (hasStage chain settlement || hasStage chain dispute)
      end
  end.

Definition empty : State := mkState ∅.

Definition getLastStage (st : State) (txId : string) : option ProvenanceRecord :=
  match chains st !! txId with
  | None => None
  | Some chain => last chain
  end.

(** The recording calls. *)
Inductive Call : Type :=
  | CallIntent (now : string) (tx : AgentTransaction) (details : JsRecord)
  | CallPolicyCheck (now txId : string) (outcome : Outcome) (details : JsRecord)
  | CallApproval (now txId : string) (outcome : Outcome) (details : JsRecord)
  | CallExecution (now txId : string) (outcome : Outcome) (details : JsRecord)
  | CallSettlement (now txId : string) (outcome : Outcome) (details : JsRecord)
  | CallDispute (now txId : string) (details : JsRecord).

Definition call (st : State) (c : Call) : ProvenanceRecord * State :=
  match c with
  | CallIntent now tx d => recordIntent now st tx d
  | CallPolicyCheck now txId o d => recordPolicyCheck now st txId o d
  | CallApproval now txId o d => recordApproval now st txId o d
  | CallExecution now txId o d => recordExecution now st txId o d
  | CallSettlement now txId o d => recordSettlement now st txId o d
  | CallDispute now txId d => recordDispute now st txId d
  end.

Definition perform (st : State) (c : Call) : State := snd (call st c).

(** The record a call returns (it does not depend on the log). *)
Definition returned (c : Call) : ProvenanceRecord :=
  fst (call empty c).

Definition callStage (c : Call) : Stage :=
  match c with
  | CallIntent _ _ _ => intent
  | CallPolicyCheck _ _ _ _ => policy_check
  | CallApproval _ _ _ _ => approval
  | CallExecution _ _ _ _ => execution
  | CallSettlement _ _ _ _ => settlement
  | CallDispute _ _ _ => dispute
  end.

Definition callTx (c : Call) : string :=
  match c with
  | CallIntent _ tx _ => tx_id tx
  | CallPolicyCheck _ txId _ _ | CallApproval _ txId _ _
  | CallExecution _ txId _ _ | CallSettlement _ txId _ _
  | CallDispute _ txId _ => txId
  end.

End TransactionProvenance.

(* ===================================================================== *)
(** ** packages/protect disputes.ts: [DisputeManager]                      *)
(* ===================================================================== *)
Module DisputeManager.

Inductive DisputeStatus : Type :=
  | open | investigating
  | resolved_refunded | resolved_denied | resolved_partial
  | escalated.

Definition DisputeStatus_eqb (a b : DisputeStatus) : bool :=
  match a, b with
  | open, open | investigating, investigating
  | resolved_refunded, resolved_refunded | resolved_denied, resolved_denied
  | resolved_partial, resolved_partial | escalated, escalated => true
  | _, _ => false
  end.

Definition showStatus (s : DisputeStatus) : string :=
  match s with
  | open => "open"
  | investigating => "investigating"
  | resolved_refunded => "resolved_refunded"
  | resolved_denied => "resolved_denied"
  | resolved_partial => "resolved_partial"
  | escalated => "escalated"
  end.

Inductive LiabilityAttribution : Type :=
  | agent | service_provider | protocol | user | undetermined.

Definition Liability_eqb (a b : LiabilityAttribution) : bool :=
  match a, b with
  | agent, agent | service_provider, service_provider | protocol, protocol
  | user, user | undetermined, undetermined => true
  | _, _ => false
  end.

Inductive EvidenceType : Type :=
  | transaction_log | agent_trace | provenance_record
  | user_statement | system_log.

(** [data: unknown].  The evidence [file] builds holds the provenance
    chain array itself, not a copy: [ChainOf txId] is that reference. *)
Inductive EvidenceData : Type :=
  | ChainOf (txId : string)
  | Data (v : JsValue).

Record DisputeEvidence : Type := mkEvidence {
  evd_type : EvidenceType;
  evd_description : string;
  evd_data : EvidenceData;
  evd_addedAt : string
}.

Record DisputeCase : Type := mkDispute {
  dsp_id : string;
  dsp_transactionId : string;
  dsp_agentId : string;
  dsp_reason : string;
  dsp_status : DisputeStatus;
  dsp_liability : LiabilityAttribution;
  dsp_requestedAmount : Z;
  dsp_resolvedAmount : option Z;
  dsp_createdAt : string;
  dsp_updatedAt : string;
  dsp_resolvedAt : option string;
  dsp_evidence : list DisputeEvidence
}.

Record FileDisputeInput : Type := mkInput {
  in_transactionId : string;
  in_agentId : string;
  in_reason : string;
  in_requestedAmount : Z;
  in_evidence : option (list DisputeEvidence)
}.

Record DisputeFilter : Type := mkFilter {
  f_status : option DisputeStatus;
  f_agentId : option string;
  f_transactionId : option string;
  f_liability : option LiabilityAttribution;
  f_limit : option Z
}.

(** A call a listener received: which listener, the dispute as it then
    was, and the previous status. *)
Record Notification : Type := mkNote {
  note_listener : nat;
  note_dispute : DisputeCase;
  note_previousStatus : DisputeStatus
}.

(** [disputes] is iterated by [query], so it keeps insertion order; a
    per-agent [Set] is iterated by [getByAgent], so it is a
    duplicate-free list in insertion order.  [notified] logs the calls
    made to the listeners. *)
Record State : Type := mkState {
  disputes : list (string * DisputeCase);
  byTransaction : gmap string string;
  byAgent : gmap string (list string);
  listeners : list nat;
  provenance : option TransactionProvenance.State;
  notified : list Notification
}.

Definition init (prov : option TransactionProvenance.State) : State :=
  mkState [] ∅ ∅ [] prov [].

Definition isClosed (status : DisputeStatus) : bool :=
  match status with
  | resolved_refunded | resolved_denied | resolved_partial => true
  | _ => false
  end.

(** [set.add(x)] *)
Definition setAdd (x : string) (s : list string) : list string :=
  if includes s x then s else (s ++ [x])%list.

Definition get (st : State) (disputeId : string) : option DisputeCase :=
  mapGet disputeId (disputes st).

Definition setDisputes (st : State) (ds : list (string * DisputeCase)) : State :=
  mkState ds (byTransaction st) (byAgent st) (listeners st)
          (provenance st) (notified st).

Definition notifyListeners (st : State) (d : DisputeCase)
  (previousStatus : DisputeStatus) : State :=
  mkState (disputes st) (byTransaction st) (byAgent st) (listeners st)
          (provenance st)
          (notified st ++ map (fun l => mkNote l d previousStatus) (listeners st))%list.

(** [file]; [newId] is what [generateDisputeId()] returns and [now] the
    reading of [new Date().toISOString()]. *)
Definition file (newId now : string) (input : FileDisputeInput) (st : State)
  : Completion DisputeCase * State :=
  let blocked :=
    match byTransaction st !! in_transactionId input with
    | Some existing =>
        if truthy_str existing then
          match get st existing with
          | Some existingCase =>
              if negb (isClosed (dsp_status existingCase))
              then Some existing else None
          | None => None
          end
        else None
    | None => None
    end in
  match blocked with
  | Some existing =>
      (Throw (concat_str ["Active dispute "; existing;
                          " already exists for transaction ";
                          in_transactionId input]), st)
  | None =>
      let fromProvenance :=
        match provenance st with
        | Some prov =>
            let chain :=
              TransactionProvenance.getChain prov (in_transactionId input) in
            if (0 <? Z.of_nat (length chain))
            then [mkEvidence transaction_log
                    (concat_str ["Transaction provenance chain (";
                                 showZ (Z.of_nat (length chain)); " records)"])
                    (ChainOf (in_transactionId input)) now]
            else []
        | None => []
        end in
      let evidence :=
        (fromProvenance
         ++ match in_evidence input with Some e => e | None => [] end)%list in
      let dispute :=
        {| dsp_id := newId;
           dsp_transactionId := in_transactionId input;
           dsp_agentId := in_agentId input;
           dsp_reason := in_reason input;
           dsp_status := open;
           dsp_liability := undetermined;
           dsp_requestedAmount := in_requestedAmount input;
           dsp_resolvedAmount := None;
           dsp_createdAt := now;
           dsp_updatedAt := now;
           dsp_resolvedAt := None;
           dsp_evidence := evidence |} in
      let prov' :=
        match provenance st with
        | Some prov =>
            Some (snd (TransactionProvenance.recordDispute now prov
                         (in_transactionId input)
                         [("disputeId", JStr newId);
                          ("reason", JStr (in_reason input));
                          ("requestedAmount", JNum (in_requestedAmount input))]))
        | None => None
        end in
      (Return dispute,
       mkState (mapSet newId dispute (disputes st))
               (<[in_transactionId input := newId]> (byTransaction st))
               (<[in_agentId input :=
                    setAdd newId (default [] (byAgent st !! in_agentId input))]>
                  (byAgent st))
               (listeners st) prov' (notified st))
  end.

Definition addEvidence (now : string) (disputeId : string)
  (evidence : DisputeEvidence) (st : State) : Completion unit * State :=
  match get st disputeId with
  | None => (Throw (concat_str ["Dispute "; disputeId; " not found"]), st)
  | Some dispute =>
      if isClosed (dsp_status dispute)
      then (Throw (concat_str ["Cannot add evidence to closed dispute ";
                               disputeId]), st)
      else
        let dispute' :=
          {| dsp_id := dsp_id dispute;
             dsp_transactionId := dsp_transactionId dispute;
             dsp_agentId := dsp_agentId dispute;
             dsp_reason := dsp_reason dispute;
             dsp_status := dsp_status dispute;
             dsp_liability := dsp_liability dispute;
             dsp_requestedAmount := dsp_requestedAmount dispute;
             dsp_resolvedAmount := dsp_resolvedAmount dispute;
             dsp_createdAt := dsp_createdAt dispute;
             dsp_updatedAt := now;
             dsp_resolvedAt := dsp_resolvedAt dispute;
             dsp_evidence := (dsp_evidence dispute ++ [evidence])%list |} in
        (Return tt, setDisputes st (mapSet disputeId dispute' (disputes st)))
  end.

Definition updateStatus (now : string) (disputeId : string)
  (newStatus : DisputeStatus) (st : State) : Completion unit * State :=
  match get st disputeId with
  | None => (Throw (concat_str ["Dispute "; disputeId; " not found"]), st)
  | Some dispute =>
      let previousStatus := dsp_status dispute in
      let dispute' :=
        {| dsp_id := dsp_id dispute;
           dsp_transactionId := dsp_transactionId dispute;
           dsp_agentId := dsp_agentId dispute;
           dsp_reason := dsp_reason dispute;
           dsp_status := newStatus;
           dsp_liability := dsp_liability dispute;
           dsp_requestedAmount := dsp_requestedAmount dispute;
           dsp_resolvedAmount := dsp_resolvedAmount dispute;
           dsp_createdAt := dsp_createdAt dispute;
           dsp_updatedAt := now;
           dsp_resolvedAt := dsp_resolvedAt dispute;
           dsp_evidence := dsp_evidence dispute |} in
      (Return tt,
       notifyListeners
         (setDisputes st (mapSet disputeId dispute' (disputes st)))
         dispute' previousStatus)
  end.

Definition resolve (now : string) (disputeId : string)
  (status : DisputeStatus) (liability : LiabilityAttribution)
  (resolvedAmount : option Z) (st : State) : Completion DisputeCase * State :=
  match get st disputeId with
  | None => (Throw (concat_str ["Dispute "; disputeId; " not found"]), st)
  | Some dispute =>
      let previousStatus := dsp_status dispute in
      let dispute' :=
        {| dsp_id := dsp_id dispute;
           dsp_transactionId := dsp_transactionId dispute;
           dsp_agentId := dsp_agentId dispute;
           dsp_reason := dsp_reason dispute;
           dsp_status := status;
           dsp_liability := liability;
           dsp_requestedAmount := dsp_requestedAmount dispute;
           dsp_resolvedAmount := resolvedAmount;
           dsp_createdAt := dsp_createdAt dispute;
           dsp_updatedAt := now;
           dsp_resolvedAt := Some now;
           dsp_evidence := dsp_evidence dispute |} in
      (Return dispute',
       notifyListeners
         (setDisputes st (mapSet disputeId dispute' (disputes st)))
         dispute' previousStatus)
  end.

Definition getByTransaction (st : State) (txId : string) : option DisputeCase :=
  match byTransaction st !! txId with
  | Some disputeId => if truthy_str disputeId then get st disputeId else None
  | None => None
  end.


(** [results.slice(0, n)] for an integral [n]. *)
Definition sliceTo {A : Type} (n : Z) (l : list A) : list A :=
  if 0 <=? n then firstn (Z.to_nat n) l
  else firstn (length l - Z.to_nat (- n)) l.

Definition query (st : State) (filter : DisputeFilter) : list DisputeCase :=
  let results := map snd (disputes st) in
  let results :=
    match f_status filter with
    | Some s => List.filter (fun d => DisputeStatus_eqb (dsp_status d) s) results
    | None => results
    end in
  let results :=
    match f_agentId filter with
    | Some a => if truthy_str a
                then List.filter (fun d => String.eqb (dsp_agentId d) a) results
                else results
    | None => results
    end in
  let results :=
    match f_transactionId filter with
    | Some t => if truthy_str t
                then List.filter (fun d => String.eqb (dsp_transactionId d) t) results
                else results
    | None => results
    end in
  let results :=
    match f_liability filter with
    | Some l => List.filter (fun d => Liability_eqb (dsp_liability d) l) results
    | None => results
    end in
  let results :=
    sortCmp (fun a b => localeCompare (dsp_createdAt b) (dsp_createdAt a)) results in
  match f_limit filter with
  | Some n => if n =? 0 then results else sliceTo n results
  | None => results
  end.




(** The filter conditions of [query], on one dispute. *)
Definition passesFilter (filter : DisputeFilter) (d : DisputeCase) : Prop :=
  (forall s, f_status filter = Some s -> dsp_status d = s)
  /\ (forall a, f_agentId filter = Some a -> a <> "" -> dsp_agentId d = a)
  /\ (forall t, f_transactionId filter = Some t -> t <> "" ->
                dsp_transactionId d = t)
  /\ (forall l, f_liability filter = Some l -> dsp_liability d = l).

End DisputeManager.

(* ===================================================================== *)
(** ** packages/protect recovery.js: [RecoveryEngine]                      *)
(* ===================================================================== *)
Module RecoveryEngine.

Inductive RecoveryType : Type :=
  | full_refund | partial_refund | chargeback | credit.

Inductive RecoveryStatus : Type :=
  | pending | processing | completed | failed | cancelled.

Definition RecoveryStatus_eqb (a b : RecoveryStatus) : bool :=
  match a, b with
  | pending, pending | processing, processing | completed, completed
  | failed, failed | cancelled, cancelled => true
  | _, _ => false
  end.

Definition showStatus (s : RecoveryStatus) : string :=
  match s with
  | pending => "pending"
  | processing => "processing"
  | completed => "completed"
  | failed => "failed"
  | cancelled => "cancelled"
  end.

Record RecoveryAction : Type := mkAction {
  rcv_id : string;
  rcv_disputeId : string;
  rcv_transactionId : string;
  rcv_agentId : string;
  rcv_type : RecoveryType;
  rcv_amount : Z;
  rcv_currency : string;
  rcv_status : RecoveryStatus;
  rcv_createdAt : string;
  rcv_updatedAt : string;
  rcv_refundTxId : option string;
  rcv_completedAt : option string;
  rcv_error : option string
}.

(** The settled [executor(action)] promise: fulfilled with a result
    object, or rejected with an error (its message). *)
Inductive ExecutorOutcome : Type :=
  | Fulfilled (success : bool) (refundTxId : option string) (error : option string)
  | Rejected (message : string).

(** What a run does to the outside: executor calls, with the attempt
    number and whether the result reported success, and sleeps, each
    tagged with the id of the action being retried. *)
Inductive Event : Type :=
  | EvExecute (actionId : string) (attempt : Z) (success : bool)
  | EvSleep (actionId : string) (ms : Z).

Record State : Type := mkState {
  actions : gmap string RecoveryAction;
  byDispute : gmap string string;
  queue : list string;
  maxRetries : Z;
  retryDelayMs : Z
}.

(** [options.maxRetries ?? 3], [options.retryDelayMs ?? 5000] *)
Definition init (optMaxRetries optRetryDelayMs : option Z) : State :=
  mkState ∅ ∅ [] (default 3 optMaxRetries) (default 5000 optRetryDelayMs).

Definition setStatus (a : RecoveryAction) (s : RecoveryStatus) (now : string)
  : RecoveryAction :=
  mkAction (rcv_id a) (rcv_disputeId a) (rcv_transactionId a) (rcv_agentId a)
    (rcv_type a) (rcv_amount a) (rcv_currency a) s (rcv_createdAt a) now
    (rcv_refundTxId a) (rcv_completedAt a) (rcv_error a).

Definition setError (a : RecoveryAction) (e : string) : RecoveryAction :=
  mkAction (rcv_id a) (rcv_disputeId a) (rcv_transactionId a) (rcv_agentId a)
    (rcv_type a) (rcv_amount a) (rcv_currency a) (rcv_status a)
    (rcv_createdAt a) (rcv_updatedAt a)
    (rcv_refundTxId a) (rcv_completedAt a) (Some e).

Definition setCompleted (a : RecoveryAction) (refundTxId : option string)
  (now : string) : RecoveryAction :=
  mkAction (rcv_id a) (rcv_disputeId a) (rcv_transactionId a) (rcv_agentId a)
    (rcv_type a) (rcv_amount a) (rcv_currency a) completed
    (rcv_createdAt a) now refundTxId (Some now) (rcv_error a).

Definition get (st : State) (recoveryId : string) : option RecoveryAction :=
  actions st !! recoveryId.

Definition initiate (newId now : string) (dm : DisputeManager.State)
  (disputeId : string) (st : State) : Completion RecoveryAction * State :=
  match DisputeManager.get dm disputeId with
  | None => (Throw (concat_str ["Dispute "; disputeId; " not found"]), st)
  | Some dispute =>
      match DisputeManager.dsp_status dispute with
      | DisputeManager.resolved_refunded | DisputeManager.resolved_partial =>
          let active :=
            match byDispute st !! disputeId with
            | Some existingId =>
                if truthy_str existingId then
                  match actions st !! existingId with
                  | Some existing =>
                      match rcv_status existing with
                      | failed | cancelled => None
                      | _ => Some existingId
                      end
                  | None => None
                  end
                else None
            | None => None
            end in
          match active with
          | Some existingId =>
              (Throw (concat_str ["Active recovery "; existingId;
                                  " already exists for dispute "; disputeId]), st)
          | None =>
              let amount :=
                default (DisputeManager.dsp_requestedAmount dispute)
                        (DisputeManager.dsp_resolvedAmount dispute) in
              let recoveryType :=
                match DisputeManager.dsp_status dispute with
                | DisputeManager.resolved_partial => partial_refund
                | _ => full_refund
                end in
              let action :=
                {| rcv_id := newId;
                   rcv_disputeId := disputeId;
                   rcv_transactionId := DisputeManager.dsp_transactionId dispute;
                   rcv_agentId := DisputeManager.dsp_agentId dispute;
                   rcv_type := recoveryType;
                   rcv_amount := amount;
                   rcv_currency := "USDC";
                   rcv_status := pending;
                   rcv_createdAt := now;
                   rcv_updatedAt := now;
                   rcv_refundTxId := None;
                   rcv_completedAt := None;
                   rcv_error := None |} in
              (Return action,
               mkState (<[newId := action]> (actions st))
                       (<[disputeId := newId]> (byDispute st))
                       (queue st ++ [newId])%list
                       (maxRetries st) (retryDelayMs st))
          end
      | _ =>
          (Throw (concat_str
                    ["Cannot initiate recovery for dispute "; disputeId;
                     " with status "; dquote;
                     DisputeManager.showStatus (DisputeManager.dsp_status dispute);
                     dquote; ". ";
                     "Dispute must be resolved with refund or partial refund."]),
           st)
      end
  end.

Definition cancel (now : string) (recoveryId : string) (st : State)
  : Completion RecoveryAction * State :=
  match actions st !! recoveryId with
  | None => (Throw (concat_str ["Recovery action "; recoveryId; " not found"]), st)
  | Some action =>
      match rcv_status action with
      | pending =>
          let action' := setStatus action cancelled now in
          (Return action',
           mkState (<[recoveryId := action']> (actions st)) (byDispute st)
                   (queue st) (maxRetries st) (retryDelayMs st))
      | _ =>
          (Throw (concat_str ["Cannot cancel recovery "; recoveryId;
                              " with status "; dquote;
                              showStatus (rcv_status action); dquote]), st)
      end
  end.

Definition eventId (e : Event) : string :=
  match e with
  | EvExecute actionId _ _ => actionId
  | EvSleep actionId _ => actionId
  end.

(** The events that belong to one action, and how many of them are
    executor calls. *)
Definition eventsOf (actionId : string) (trace : list Event) : list Event :=
  List.filter (fun e => String.eqb (eventId e) actionId) trace.





(** Every action is stored under its own id. *)
Definition keyedById (st : State) : Prop :=
  forall k a, actions st !! k = Some a -> rcv_id a = k.

(** The shape [initiate] and [cancel] keep: actions stored under their
    own ids, and a queue of distinct ids of stored actions. *)
Definition wellFormed (st : State) : Prop :=
  keyedById st
  /\ NoDup (queue st)
  /\ (forall id, In id (queue st) -> is_Some (actions st !! id)).

Definition getByDispute (st : State) (disputeId : string)
  : option RecoveryAction :=
  match byDispute st !! disputeId with
  | Some recoveryId =>
      if truthy_str recoveryId then actions st !! recoveryId else None
  | None => None
  end.

(** The queued ids [processQueue] does not skip. *)
Definition processable (st : State) (actionId : string) : bool :=
  match actions st !! actionId with
  | Some action => negb (RecoveryStatus_eqb (rcv_status action) cancelled)
  | None => false
  end.

Section Collaborators.
(** The outside world the engine runs against: the refund [executor],
    the wall clock read by [new Date().toISOString()], and what a
    [sleep(ms)] does to it. *)
Variable World : Type.
Variable executor : RecoveryAction -> World -> ExecutorOutcome * World.
Variable clock : World -> string.
Variable sleep : Z -> World -> World.

Record Run : Type := mkRun {
  run_action : RecoveryAction;
  run_world : World;
  run_trace : list Event
}.

(** The [for (let attempt = 1; attempt <= maxRetries; attempt++)] loop
    from the iteration numbered [attempt] on; [remaining] counts the
    iterations left, [maxRetries - attempt + 1].  The last component
    tells whether the loop left through [return action]. *)
Fixpoint retryLoop (maxR delay : Z) (remaining : nat) (attempt : Z)
  (action : RecoveryAction) (w : World) : Run * bool :=
  match remaining with
  | O => (mkRun action w [], false)
  | S remaining' =>
      let '(outcome, w1) := executor action w in
      match outcome with
      | Fulfilled true refundTxId _ =>
          (mkRun (setCompleted action refundTxId (clock w1)) w1
                 [EvExecute (rcv_id action) attempt true], true)
      | _ =>
          let action1 :=
            match outcome with
            | Fulfilled _ _ error =>
                setError action
                  (default "Refund execution returned failure" error)
            | Rejected message => setError action message
            end in
          let w2 := if attempt <? maxR then sleep (delay * attempt) w1 else w1 in
          let waits :=
            if attempt <? maxR
            then [EvSleep (rcv_id action) (delay * attempt)] else [] in
          let '(r, returned) :=
            retryLoop maxR delay remaining' (attempt + 1) action1 w2 in
          (mkRun (run_action r) (run_world r)
                 (EvExecute (rcv_id action) attempt false
                  :: waits ++ run_trace r)%list,
           returned)
      end
  end.

Definition executeWithRetry (st : State) (action : RecoveryAction) (w : World)
  : Run :=
  let action0 := setStatus action processing (clock w) in
  let '(r, returned) :=
    retryLoop (maxRetries st) (retryDelayMs st)
              (Z.to_nat (maxRetries st)) 1 action0 w in
  if returned then r
  else mkRun (setStatus (run_action r) failed (clock (run_world r)))
             (run_world r) (run_trace r).

Record QueueRun : Type := mkQueueRun {
  qr_processed : list RecoveryAction;
  qr_state : State;
  qr_world : World;
  qr_trace : list Event
}.

(** [while (this.queue.length > 0) { const actionId = this.queue.shift(); ... }] *)
Fixpoint drain (q : list string) (st : State) (w : World) : QueueRun :=
  match q with
  | [] => mkQueueRun [] (mkState (actions st) (byDispute st) []
                                 (maxRetries st) (retryDelayMs st)) w []
  | actionId :: rest =>
      match actions st !! actionId with
      | None => drain rest st w
      | Some action =>
          if RecoveryStatus_eqb (rcv_status action) cancelled
          then drain rest st w
          else
            let r := executeWithRetry st action w in
            let st' :=
              mkState (<[actionId := run_action r]> (actions st))
                      (byDispute st) rest (maxRetries st) (retryDelayMs st) in
            let q' := drain rest st' (run_world r) in
            mkQueueRun (run_action r :: qr_processed q') (qr_state q')
                       (qr_world q') (run_trace r ++ qr_trace q')%list
      end
  end.

Definition processQueue (st : State) (w : World) : QueueRun :=
  drain (queue st) st w.

End Collaborators.

End RecoveryEngine.

(* ===================================================================== *)
(** ** Sample data used by the closed examples                             *)
(* ===================================================================== *)
Module Samples.

Definition tx (id agent : string) (amount : Z) (createdAt : Z) : AgentTransaction :=
  mkTx id agent "merchant" amount "USDC" "test" x402 tx_pending None createdAt [].

(** A policy whose only content is a daily budget of 100. *)
Definition capPolicy : SpendPolicy :=
  mkPolicy "p" "cap" [] [mkBudget daily 100 None [] []] None true.

(** A policy whose only content is a cooldown of one minute. *)
Definition coolPolicy : SpendPolicy :=
  mkPolicy "c" "cool" [] [] (Some 60000) true.

Definition capEngine : PolicyEngine.State :=
  PolicyEngine.loadPolicy PolicyEngine.init capPolicy.

(** The cooldown engine after one transaction recorded at time 0. *)
Definition coolEngine : PolicyEngine.State :=
  PolicyEngine.recordTransaction 0 0
    (PolicyEngine.loadPolicy PolicyEngine.init coolPolicy)
    (tx "tx0" "agent-1" 5 0).

Definition disputeInput : DisputeManager.FileDisputeInput :=
  DisputeManager.mkInput "tx-1" "agent-1" "service not delivered" 25 None.

(** A manager with one dispute, filed for [tx-1] and then resolved. *)
Definition filedOnce : DisputeManager.State :=
  snd (DisputeManager.file "dsp_1" "2026-01-01T00:00:00.000Z" disputeInput
         (DisputeManager.init None)).

Definition resolvedOnce : DisputeManager.State :=
  snd (DisputeManager.resolve "2026-01-02T00:00:00.000Z" "dsp_1"
         DisputeManager.resolved_denied DisputeManager.service_provider None
         filedOnce).

(** The same dispute resolved with a full refund. *)
Definition refundedOnce : DisputeManager.State :=
  snd (DisputeManager.resolve "2026-01-02T00:00:00.000Z" "dsp_1"
         DisputeManager.resolved_refunded DisputeManager.service_provider
         (Some 25) filedOnce).

Definition statement : DisputeManager.DisputeEvidence :=
  DisputeManager.mkEvidence DisputeManager.user_statement "received 404"
    (DisputeManager.Data (JNum 404)) "2026-01-03T00:00:00.000Z".


(** A refund executor that fails twice and then succeeds; the world is
    the number of calls made so far. *)
Definition flakyExecutor (a : RecoveryEngine.RecoveryAction) (calls : nat)
  : RecoveryEngine.ExecutorOutcome * nat :=
  (if (2 <=? calls)%nat
   then RecoveryEngine.Fulfilled true (Some "refund-1") None
   else RecoveryEngine.Fulfilled false None (Some "gateway down"),
   S calls).

(** A refund executor that always rejects. *)
Definition deadExecutor (a : RecoveryEngine.RecoveryAction) (calls : nat)
  : RecoveryEngine.ExecutorOutcome * nat :=
  (RecoveryEngine.Rejected "timeout", S calls).

Definition sampleClock (calls : nat) : string := "2026-01-05T00:00:00.000Z".

Definition sampleSleep (ms : Z) (calls : nat) : nat := calls.

Definition pendingAction (id : string) : RecoveryEngine.RecoveryAction :=
  RecoveryEngine.mkAction id "dsp_1" "tx-1" "agent-1" RecoveryEngine.full_refund
    25 "USDC" RecoveryEngine.pending "2026-01-04T00:00:00.000Z"
    "2026-01-04T00:00:00.000Z" None None None.

(** An engine with the default settings and two queued actions. *)
Definition queuedEngine : RecoveryEngine.State :=
  RecoveryEngine.mkState
    (<["rcv_1" := pendingAction "rcv_1"]>
       (<["rcv_2" := pendingAction "rcv_2"]> ∅))
    ∅ ["rcv_1"; "rcv_2"] 3 5000.

(** The same engine configured with [maxRetries: 0]. *)
Definition noRetryEngine : RecoveryEngine.State :=
  RecoveryEngine.mkState
    (<["rcv_1" := pendingAction "rcv_1"]>
       (<["rcv_2" := pendingAction "rcv_2"]> ∅))
    ∅ ["rcv_1"; "rcv_2"] 0 5000.

End Samples.

(* ===================================================================== *)
(** * Properties of [matchesGlob]                                          *)
(* ===================================================================== *)
Section GlobFacts.
Import Glob.

Ltac ascii_cases c :=
  let b0 := fresh in let b1 := fresh in let b2 := fresh in let b3 := fresh in
  let b4 := fresh in let b5 := fresh in let b6 := fresh in let b7 := fresh in
  destruct c as [b0 b1 b2 b3 b4 b5 b6 b7];
  destruct b0, b1, b2, b3, b4, b5, b6, b7.

Lemma str_app_assoc (a b c : string) :
  String.append (String.append a b) c = String.append a (String.append b c).
Proof.
  induction a as [|x a IH]; [reflexivity|].
  rewrite !str_cons_app, IH. reflexivity.
Qed.

Lemma isSyntaxChar_split (c : ascii) :
  isSyntaxChar c = Ascii.eqb c "*" || Ascii.eqb c "?" || isRegexSpecial c.
Proof. ascii_cases c; reflexivity. Qed.

Lemma escapeChar_head (c : ascii) (k : string) :
  startsWithStar (String.append (escapeChar c) k) = false.
Proof. ascii_cases c; reflexivity. Qed.

Lemma regexBody_head (p k : string) :
  startsWithStar k = false ->
  startsWithStar (String.append (regexBody p) k) = false.
Proof.
  destruct p as [|c p]; [trivial|]; intros _.
  cbn [regexBody]. rewrite str_app_assoc. apply escapeChar_head.
Qed.

(** One character of the pattern, read back from the text it emitted. *)
Lemma RegExp_escapeChar (c : ascii) (k : string) :
  startsWithStar k = false ->
  RegExp (String.append (escapeChar c) k) = cons (termOf c) <$> RegExp k.
Proof.
  intros Hk. unfold escapeChar, termOf.
  destruct (Ascii.eqb c "*") eqn:Hstar.
  { reflexivity. }
  destruct (Ascii.eqb c "?") eqn:Hq.
  { change (String.append "." k) with (String "." k).
    cbn [RegExp]. change (Ascii.eqb "." "\") with false.
    change (Ascii.eqb "." ".") with true. cbv iota.
    destruct k as [|q k']; [reflexivity|].
    cbn in Hk. rewrite Hk. reflexivity. }
  destruct (isRegexSpecial c) eqn:Hsp.
  { change (String.append (String "\" (String c "")) k)
      with (String "\" (String c k)).
    cbn [RegExp]. change (Ascii.eqb "\" "\") with true. cbv iota.
    rewrite isSyntaxChar_split, Hsp, orb_true_r. reflexivity. }
  change (String.append (String c "") k) with (String c k).
  assert (Hsyn : isSyntaxChar c = false)
    by (rewrite isSyntaxChar_split, Hstar, Hq, Hsp; reflexivity).
  revert Hstar Hq Hsp Hsyn. cbn [RegExp].
  ascii_cases c; cbn; intros; try discriminate; reflexivity.
Qed.

Lemma RegExp_regexBody (p k : string) :
  startsWithStar k = false ->
  RegExp (String.append (regexBody p) k)
  = app (termsOf p) <$> RegExp k.
Proof.
  intros Hk. induction p as [|c p IH].
  - cbn [regexBody]. rewrite str_nil_app. destruct (RegExp k); reflexivity.
  - cbn [regexBody]. rewrite str_app_assoc.
    rewrite RegExp_escapeChar by (apply regexBody_head; exact Hk).
    rewrite IH. unfold termsOf. cbn [list_ascii_of_string map].
    destruct (RegExp k); reflexivity.
Qed.

(** The constructor never throws on the text [matchesGlob] builds: the
    [catch] branch is dead. *)
Lemma RegExp_regexStr (p : string) :
  RegExp (regexStr p) = Some (TBegin :: termsOf p ++ [TEnd]).
Proof.
  unfold regexStr. cbn [RegExp].
  change (Ascii.eqb "^" "\") with false.
  change (Ascii.eqb "^" ".") with false.
  change (Ascii.eqb "^" "^") with true. cbv iota.
  rewrite RegExp_regexBody by reflexivity. reflexivity.
Qed.

Lemma matchTerms_star (ts : list term) (b : bool) (s : string) :
  matchTerms (TAnyStar :: ts) b s
  = match s with
    | String c r =>
        (negb (isLineTerminator c) && matchTerms (TAnyStar :: ts) false r)
        || matchTerms ts b s
    | EmptyString => matchTerms ts b s
    end.
Proof. destruct s; reflexivity. Qed.

Lemma matchTerms_regexGlob (p v : string) (b : bool) :
  matchTerms (termsOf p ++ [TEnd]) b v = true <-> regexGlob v p.
Proof.
  revert v b. induction p as [|c p IH]; intros v b.
  - cbn. destruct v; split; intros H; try discriminate; try constructor.
    inversion H.
  - unfold termsOf. cbn [list_ascii_of_string map app]. fold (termsOf p).
    unfold termOf.
    destruct (Ascii.eqb_spec c "*") as [->|Hstar].
    { revert b. induction v as [|x v IHv]; intros b.
      - rewrite matchTerms_star, IH. split; intros H.
        + constructor; exact H.
        + inversion H; subst; assumption.
      - rewrite matchTerms_star, orb_true_iff, andb_true_iff, negb_true_iff.
        rewrite IHv, IH. split.
        + intros [[Hx H]|H]; [apply rg_star_eat|apply rg_star_skip]; assumption.
        + intros H. inversion H; subst; auto. congruence. }
    destruct (Ascii.eqb_spec c "?") as [->|Hq].
    { cbn [matchTerms]. destruct v as [|x v].
      - split; intros H; [discriminate|inversion H; congruence].
      - rewrite andb_true_iff, negb_true_iff, IH. split.
        + intros [Hx H]. constructor; assumption.
        + intros H. inversion H; subst; auto; congruence. }
    cbn [matchTerms]. destruct v as [|x v].
    + split; intros H; [discriminate|inversion H; congruence].
    + rewrite andb_true_iff, IH. split.
      * intros [Hx H]. apply Ascii.eqb_eq in Hx. subst x.
        constructor; assumption.
      * intros H. inversion H; subst; try congruence.
        split; [apply Ascii.eqb_refl|assumption].
Qed.

(** A pattern anchored by [^] can only match from index 0. *)
Lemma test_anchored (ts : list term) (v : string) :
  test (TBegin :: ts) v = matchTerms ts true v.
Proof.
  unfold test. destruct v as [|c v]; cbn [searchFrom matchTerms andb].
  - apply orb_false_r.
  - assert (H : forall s, searchFrom (TBegin :: ts) false s = false).
    { induction s as [|x s IHs]; cbn [searchFrom matchTerms andb orb];
        [reflexivity | exact IHs]. }
    rewrite H. apply orb_false_r.
Qed.

Lemma regexGlob_globMatches (v p : string) :
  regexGlob v p -> globMatches v p.
Proof. induction 1; constructor; assumption. Qed.

Lemma globMatches_regexGlob (v p : string) :
  noLineTerminator v = true -> globMatches v p -> regexGlob v p.
Proof.
  intros Hv H. induction H; cbn [noLineTerminator] in Hv;
    try (apply andb_true_iff in Hv as [Hc Hv]; apply negb_true_iff in Hc).
  - apply rg_nil.
  - apply rg_star_skip; auto.
  - apply rg_star_eat; auto.
  - apply rg_quest; auto.
  - apply rg_lit; auto.
Qed.

Lemma globMatches_refl (s : string) : globMatches s s.
Proof.
  induction s as [|c s IH]; [constructor|].
  destruct (Ascii.eqb_spec c "*") as [->|Hstar].
  { apply gm_star_eat, gm_star_skip, IH. }
  destruct (Ascii.eqb_spec c "?") as [->|Hq].
  { apply gm_quest, IH. }
  apply gm_lit; assumption.
Qed.

Lemma globMatches_star (s : string) : globMatches s "*".
Proof.
  induction s; [apply gm_star_skip; constructor | apply gm_star_eat; assumption].
Qed.

(** [matchesGlob] in terms of the matcher's relation: the two fast paths,
    or a match of the whole value. *)
Lemma matchesGlob_spec (value pattern : string) :
  matchesGlob value pattern = true
  <-> pattern = value \/ pattern = "*" \/ regexGlob value pattern.
Proof.
  unfold matchesGlob.
  destruct (String.eqb_spec pattern value) as [->|Hne]; [tauto|].
  destruct (String.eqb_spec pattern "*") as [->|Hns]; [tauto|].
  rewrite RegExp_regexStr, test_anchored, matchTerms_regexGlob. tauto.
Qed.

(** On values free of line terminators [matchesGlob] decides the
    documented glob relation. *)
Lemma matchesGlob_documented (value pattern : string) :
  noLineTerminator value = true ->
  (matchesGlob value pattern = true <-> globMatches value pattern).
Proof.
  intros Hv. rewrite matchesGlob_spec. split.
  - intros [->|[->|H]].
    + apply globMatches_refl.
    + apply globMatches_star.
    + apply regexGlob_globMatches, H.
  - intros H. right; right. apply globMatches_regexGlob; assumption.
Qed.

Lemma matchesGlob_self (s : string) : matchesGlob s s = true.
Proof. unfold matchesGlob. rewrite String.eqb_refl. reflexivity. Qed.

Lemma matchesGlob_any (s : string) : matchesGlob s "*" = true.
Proof.
  unfold matchesGlob. destruct (String.eqb "*" s); reflexivity.
Qed.

(** C9.  [?] is documented to stand for exactly one character, yet the
    value made of the single character LINE FEED does not match the
    pattern [?]: the emitted [.] excludes line terminators. *)
Theorem matchesGlob_question_mark_line_feed :
  matchesGlob (String "010" "") "?" = false
  /\ globMatches (String "010" "") "?".
Proof.
  split; [reflexivity|]. apply gm_quest, gm_nil.
Qed.

(** The same slip under [*]: a run holding a line feed is not matched,
    although the fast path accepts the very same value for ["*"]. *)
Lemma matchesGlob_star_line_feed :
  matchesGlob (String "a" (String "010" "b")) "a*" = false
  /\ matchesGlob (String "a" (String "010" "b")) "*" = true.
Proof. split; reflexivity. Qed.

End GlobFacts.

(** The cases of the package's own test file. *)
Example matchesGlob_tests :
  Glob.matchesGlob "api.openai.com" "*.openai.com" = true
  /\ Glob.matchesGlob "openai.com" "*.openai.com" = false
  /\ Glob.matchesGlob "agent-" "agent-*" = true
  /\ Glob.matchesGlob "a1" "a?" = true
  /\ Glob.matchesGlob "abc" "a?" = false
  /\ Glob.matchesGlob "fooXbar" "foo.bar" = false
  /\ Glob.matchesGlob "(test)" "(test)" = true
  /\ Glob.regexStr "a?*.b" = "^a..*\.b$".
Proof. repeat split. Qed.

(* ===================================================================== *)
(** * Properties of the window keys                                       *)
(* ===================================================================== *)
Section WindowKeyFacts.
Import JSDate.

(** The calendar conversion is inverted by [daysFromCivil]: distinct
    days have distinct dates. *)
Lemma civilFromDays_fields (days : Z) :
  forall y m d, civilFromDays days = (y, m, d) ->
  1 <= m <= 12 /\ 1 <= d <= 31 /\ daysFromCivil y m d = days.
Proof.
  intros y m d. unfold civilFromDays, daysFromCivil.
  set (z := days + 719468).
  set (era := z / 146097).
  set (doe := z - era * 146097).
  set (yoe := (doe - doe / 1460 + doe / 36524 - doe / 146096) / 365).
  set (doy := doe - (365 * yoe + yoe / 4 - yoe / 100)).
  set (mp := (5 * doy + 2) / 153).
  assert (Hdoe : 0 <= doe < 146097) by (subst doe era; Z.div_mod_to_equations; lia).
  assert (Hyoe : 0 <= yoe <= 399 /\ 0 <= doy <= 365)
    by (subst doy yoe; clearbody doe; clear -Hdoe; Z.div_mod_to_equations; lia).
  assert (Hmp : 0 <= mp <= 11)
    by (subst mp; clearbody doy; clear -Hyoe; Z.div_mod_to_equations; lia).
  assert (Hd : 1 <= doy - (153 * mp + 2) / 5 + 1 <= 31)
    by (subst mp; clearbody doy; clear -Hyoe; Z.div_mod_to_equations; lia).
  intros [= <- <- <-].
  destruct (Z.ltb_spec mp 10) as [Hlt|Hge].
  - replace (mp + 3 <=? 2) with false by (symmetry; apply Z.leb_gt; lia).
    replace (2 <? mp + 3) with true by (symmetry; apply Z.ltb_lt; lia).
    split; [lia|]. split; [exact Hd|].
    replace (mp + 3 - 3) with mp by lia.
    replace ((yoe + era * 400) / 400) with era
      by (clearbody yoe era; clear -Hyoe; Z.div_mod_to_equations; lia).
    replace (yoe + era * 400 - era * 400) with yoe by lia.
    subst doy doe z. clearbody era yoe mp. lia.
  - replace (mp - 9 <=? 2) with true by (symmetry; apply Z.leb_le; lia).
    replace (2 <? mp - 9) with false by (symmetry; apply Z.ltb_ge; lia).
    split; [lia|]. split; [exact Hd|].
    replace (mp - 9 + 9) with mp by lia.
    replace (yoe + era * 400 + 1 - 1) with (yoe + era * 400) by lia.
    replace ((yoe + era * 400) / 400) with era
      by (clearbody yoe era; clear -Hyoe; Z.div_mod_to_equations; lia).
    replace (yoe + era * 400 - era * 400) with yoe by lia.
    subst doy doe z. clearbody era yoe mp. lia.
Qed.

Lemma civilFromDays_inj (d1 d2 : Z) :
  civilFromDays d1 = civilFromDays d2 -> d1 = d2.
Proof.
  intros E.
  destruct (civilFromDays d1) as [[y m] d] eqn:E1.
  destruct (civilFromDays_fields d1 y m d E1) as (_ & _ & <-).
  symmetry in E.
  destruct (civilFromDays_fields d2 y m d E) as (_ & _ & <-). reflexivity.
Qed.

(** From 0001-01-01 to 9999-12-31 the year has four digits. *)
Lemma civilFromDays_year (days : Z) :
  -719162 <= days <= 2932896 ->
  forall y m d, civilFromDays days = (y, m, d) -> 0 <= y <= 9999.
Proof.
  intros Hr y m d. unfold civilFromDays.
  set (z := days + 719468).
  set (era := z / 146097).
  set (doe := z - era * 146097).
  set (yoe := (doe - doe / 1460 + doe / 36524 - doe / 146096) / 365).
  set (doy := doe - (365 * yoe + yoe / 4 - yoe / 100)).
  set (mp := (5 * doy + 2) / 153).
  assert (Hera : 0 <= era <= 24) by (subst era z; Z.div_mod_to_equations; lia).
  assert (Hdoe : 0 <= doe < 146097) by (subst doe era; Z.div_mod_to_equations; lia).
  assert (Hlast : era = 24 -> doe <= 146036) by (subst doe z; lia).
  assert (Hyoe : 0 <= yoe <= 399 /\ 0 <= doy <= 365)
    by (subst doy yoe; clearbody doe; clear -Hdoe; Z.div_mod_to_equations; lia).
  assert (Hmp : 0 <= mp <= 11)
    by (subst mp; clearbody doy; clear -Hyoe; Z.div_mod_to_equations; lia).
  assert (Hcarry : doe <= 146036 -> yoe = 399 -> mp < 10).
  { subst mp doy yoe. clearbody doe. clear -Hdoe. intros H1 H2.
    Z.div_mod_to_equations. lia. }
  intros [= <- _ _].
  destruct (Z.ltb_spec mp 10) as [Hlt|Hge].
  - replace (mp + 3 <=? 2) with false by (symmetry; apply Z.leb_gt; lia).
    clearbody yoe era. lia.
  - destruct (Z.leb_spec (mp - 9) 2); clearbody yoe era mp doe; lia.
Qed.

(** ** Fixed-width decimal fields determine the number *)

Lemma digit_inj (a b : Z) : digit a = digit b -> a mod 10 = b mod 10.
Proof.
  unfold digit. intros E. apply (f_equal nat_of_ascii) in E.
  rewrite !nat_ascii_embedding in E
    by (pose proof (Z.mod_pos_bound a 10); pose proof (Z.mod_pos_bound b 10); lia).
  pose proof (Z.mod_pos_bound a 10). pose proof (Z.mod_pos_bound b 10). lia.
Qed.

Lemma str_tail (c c' : ascii) (s s' : string) :
  String c s = String c' s' -> s = s'.
Proof. intros [= _ H]. exact H. Qed.

Lemma pad2_inj (a b : Z) (k k' : string) :
  0 <= a < 100 -> 0 <= b < 100 -> pad2 a k = pad2 b k' -> a = b /\ k = k'.
Proof.
  unfold pad2. intros Ha Hb [= E1 E0 Ek].
  apply digit_inj in E1, E0. split; [|exact Ek].
  clear Ek. Z.div_mod_to_equations. lia.
Qed.

Lemma pad3_inj (a b : Z) (k k' : string) :
  0 <= a < 1000 -> 0 <= b < 1000 -> pad3 a k = pad3 b k' -> a = b /\ k = k'.
Proof.
  unfold pad3, pad2. intros Ha Hb [= E2 E1 E0 Ek].
  apply digit_inj in E2, E1, E0. split; [|exact Ek].
  clear Ek. Z.div_mod_to_equations. lia.
Qed.

Lemma pad4_inj (a b : Z) (k k' : string) :
  0 <= a < 10000 -> 0 <= b < 10000 -> pad4 a k = pad4 b k' -> a = b /\ k = k'.
Proof.
  unfold pad4, pad3, pad2. intros Ha Hb [= E3 E2 E1 E0 Ek].
  apply digit_inj in E3, E2, E1, E0. split; [|exact Ek].
  clear Ek. Z.div_mod_to_equations. lia.
Qed.

Lemma fourDigitYear_Day (t : Z) :
  fourDigitYear t -> -719162 <= Day t <= 2932896.
Proof.
  unfold fourDigitYear, Day, msPerDay. intros H. Z.div_mod_to_equations. lia.
Qed.

Lemma yearStr_four (y : Z) (k : string) :
  0 <= y <= 9999 -> yearStr y k = pad4 y k.
Proof.
  intros H. unfold yearStr.
  destruct (Z.leb_spec 0 y); [|lia]. destruct (Z.leb_spec y 9999); [|lia].
  reflexivity.
Qed.

(** ** What each slice of the timestamp is *)

Lemma slice_daily (t : Z) :
  fourDigitYear t -> slice0 10 (toISOString t) = isoDate (Day t).
Proof.
  intros H. apply fourDigitYear_Day in H. unfold toISOString, isoDate.
  destruct (civilFromDays (Day t)) as [[y m] d] eqn:E.
  rewrite (yearStr_four y) by exact (civilFromDays_year _ H y m d E).
  reflexivity.
Qed.

Lemma slice_hourly (t : Z) :
  fourDigitYear t -> slice0 13 (toISOString t) = isoHour t.
Proof.
  intros H. apply fourDigitYear_Day in H. unfold toISOString, isoHour.
  destruct (civilFromDays (Day t)) as [[y m] d] eqn:E.
  rewrite (yearStr_four y) by exact (civilFromDays_year _ H y m d E).
  reflexivity.
Qed.

Lemma slice_monthly (t : Z) :
  fourDigitYear t -> slice0 7 (toISOString t) = isoMonth (Day t).
Proof.
  intros H. apply fourDigitYear_Day in H. unfold toISOString, isoMonth.
  destruct (civilFromDays (Day t)) as [[y m] d] eqn:E.
  rewrite (yearStr_four y) by exact (civilFromDays_year _ H y m d E).
  reflexivity.
Qed.

Lemma isoDate_inj (d1 d2 : Z) :
  -719162 <= d1 <= 2932896 -> -719162 <= d2 <= 2932896 ->
  isoDate d1 = isoDate d2 -> d1 = d2.
Proof.
  intros H1 H2. unfold isoDate. intros E. apply civilFromDays_inj.
  destruct (civilFromDays d1) as [[y1 m1] dd1] eqn:E1.
  destruct (civilFromDays d2) as [[y2 m2] dd2] eqn:E2.
  pose proof (civilFromDays_year _ H1 _ _ _ E1).
  pose proof (civilFromDays_year _ H2 _ _ _ E2).
  destruct (civilFromDays_fields _ _ _ _ E1) as (? & ? & _).
  destruct (civilFromDays_fields _ _ _ _ E2) as (? & ? & _).
  apply pad4_inj in E as [-> E]; [|lia|lia]. apply str_tail in E.
  apply pad2_inj in E as [-> E]; [|lia|lia]. apply str_tail in E.
  apply pad2_inj in E as [-> _]; [|lia|lia]. reflexivity.
Qed.

Lemma isoMonth_inj (d1 d2 : Z) :
  -719162 <= d1 <= 2932896 -> -719162 <= d2 <= 2932896 ->
  (isoMonth d1 = isoMonth d2 <-> yearMonth d1 = yearMonth d2).
Proof.
  intros H1 H2. unfold isoMonth, yearMonth.
  destruct (civilFromDays d1) as [[y1 m1] dd1] eqn:E1.
  destruct (civilFromDays d2) as [[y2 m2] dd2] eqn:E2.
  pose proof (civilFromDays_year _ H1 _ _ _ E1).
  pose proof (civilFromDays_year _ H2 _ _ _ E2).
  destruct (civilFromDays_fields _ _ _ _ E1) as (? & ? & _).
  destruct (civilFromDays_fields _ _ _ _ E2) as (? & ? & _).
  split.
  - intros E. apply pad4_inj in E as [-> E]; [|lia|lia]. apply str_tail in E.
    apply pad2_inj in E as [-> _]; [|lia|lia]. reflexivity.
  - intros [= -> ->]. reflexivity.
Qed.

Lemma hour_of_day (t : Z) :
  0 <= TimeWithinDay t / msPerHour < 24
  /\ t / msPerHour = Day t * 24 + TimeWithinDay t / msPerHour.
Proof.
  unfold TimeWithinDay, Day, msPerHour, msPerDay. Z.div_mod_to_equations. lia.
Qed.

Lemma isoHour_inj (t1 t2 : Z) :
  fourDigitYear t1 -> fourDigitYear t2 ->
  (isoHour t1 = isoHour t2 <-> t1 / msPerHour = t2 / msPerHour).
Proof.
  intros H1 H2. apply fourDigitYear_Day in H1, H2.
  destruct (hour_of_day t1) as [Hh1 Hq1]. destruct (hour_of_day t2) as [Hh2 Hq2].
  split.
  - intros E.
    assert (Ed : isoDate (Day t1) = isoDate (Day t2)
                 /\ TimeWithinDay t1 / msPerHour = TimeWithinDay t2 / msPerHour).
    { revert E. unfold isoHour, isoDate.
      destruct (civilFromDays (Day t1)) as [[y1 m1] dd1] eqn:E1.
      destruct (civilFromDays (Day t2)) as [[y2 m2] dd2] eqn:E2.
      pose proof (civilFromDays_year _ H1 _ _ _ E1).
      pose proof (civilFromDays_year _ H2 _ _ _ E2).
      destruct (civilFromDays_fields _ _ _ _ E1) as (? & ? & _).
      destruct (civilFromDays_fields _ _ _ _ E2) as (? & ? & _).
      intros E.
      apply pad4_inj in E as [-> E]; [|lia|lia]. apply str_tail in E.
      apply pad2_inj in E as [-> E]; [|lia|lia]. apply str_tail in E.
      apply pad2_inj in E as [-> E]; [|lia|lia]. apply str_tail in E.
      apply pad2_inj in E as [E _]; [|lia|lia]. split; [reflexivity|exact E]. }
    destruct Ed as [Ed Eh]. apply isoDate_inj in Ed; [|assumption|assumption].
    rewrite Hq1, Hq2, Ed, Eh. reflexivity.
  - intros E.
    assert (Day t1 = Day t2 /\
            TimeWithinDay t1 / msPerHour = TimeWithinDay t2 / msPerHour) as [Ed Eh]
      by (rewrite Hq1, Hq2 in E; lia).
    unfold isoHour. rewrite Ed, Eh. reflexivity.
Qed.

(** The whole timestamp determines the time value. *)
Lemma toISOString_inj (t1 t2 : Z) :
  fourDigitYear t1 -> fourDigitYear t2 ->
  toISOString t1 = toISOString t2 -> t1 = t2.
Proof.
  intros H1 H2 E. pose proof H1 as D1. pose proof H2 as D2.
  apply fourDigitYear_Day in D1, D2.
  assert (Ed : Day t1 = Day t2).
  { apply isoDate_inj; [assumption|assumption|].
    rewrite <- !slice_daily by assumption. rewrite E. reflexivity. }
  assert (Er : TimeWithinDay t1 = TimeWithinDay t2).
  { revert E. unfold toISOString. rewrite Ed.
    destruct (civilFromDays (Day t2)) as [[y m] d] eqn:E2.
    rewrite !(yearStr_four y) by exact (civilFromDays_year _ D2 y m d E2).
    pose proof (Z.mod_pos_bound t1 msPerDay eq_refl) as B1.
    pose proof (Z.mod_pos_bound t2 msPerDay eq_refl) as B2.
    fold (TimeWithinDay t1) in B1. fold (TimeWithinDay t2) in B2.
    destruct (civilFromDays_fields _ _ _ _ E2) as (Hm & Hd & _).
    pose proof (civilFromDays_year _ D2 y m d E2) as Hy.
    generalize dependent (TimeWithinDay t1). generalize dependent (TimeWithinDay t2).
    intros r2 B2 r1 B1 E. unfold msPerHour, msPerMinute, msPerDay in *.
    apply pad4_inj in E as [_ E]; [|lia|lia]. apply str_tail in E.
    apply pad2_inj in E as [_ E]; [|lia|lia]. apply str_tail in E.
    apply pad2_inj in E as [_ E]; [|lia|lia]. apply str_tail in E.
    apply pad2_inj in E as [Eh E];
      [|Z.div_mod_to_equations; lia|Z.div_mod_to_equations; lia].
    apply str_tail in E.
    apply pad2_inj in E as [Em E];
      [|Z.div_mod_to_equations; lia|Z.div_mod_to_equations; lia].
    apply str_tail in E.
    apply pad2_inj in E as [Es E];
      [|Z.div_mod_to_equations; lia|Z.div_mod_to_equations; lia].
    apply str_tail in E.
    apply pad3_inj in E as [Ems _];
      [|Z.div_mod_to_equations; lia|Z.div_mod_to_equations; lia].
    clear -Eh Em Es Ems B1 B2. Z.div_mod_to_equations. lia. }
  unfold Day, TimeWithinDay in Ed, Er.
  rewrite (Z.div_mod t1 msPerDay), (Z.div_mod t2 msPerDay) by discriminate.
  rewrite Ed, Er. reflexivity.
Qed.

Lemma weekStart_monday (days : Z) :
  (weekStart days + 4) mod 7 = 1
  /\ weekStart days <= days < weekStart days + 7
  /\ weekStart days = 7 * ((days + 3) / 7) - 3.
Proof. unfold weekStart. Z.div_mod_to_equations. lia. Qed.

(** On a host whose local time is UTC, the date [getWindowKey] rewinds
    to is the Monday of the ISO week. *)
Lemma weekly_rewind (t : Z) :
  let day := getDay 0 t in
  let mondayOffset := if day =? 0 then -6 else 1 - day in
  Day (addLocalDays 0 t mondayOffset) = weekStart (Day t)
  /\ (fourDigitYear t -> fourDigitYear (addLocalDays 0 t mondayOffset)).
Proof.
  cbv zeta. unfold getDay, addLocalDays, localTime, WeekDay, weekStart, Day,
    fourDigitYear, msPerMinute, msPerDay.
  replace (t + 0 * 60000) with t by lia.
  destruct (Z.eqb_spec ((t / 86400000 + 4) mod 7) 0) as [E|E].
  - split; [|intros H]; Z.div_mod_to_equations; lia.
  - split; [|intros H]; Z.div_mod_to_equations; lia.
Qed.

Lemma weekly_key_utc (t : Z) :
  fourDigitYear t ->
  PolicyEngine.getWindowKey 0 weekly t = isoDate (weekStart (Day t)).
Proof.
  intros H. unfold PolicyEngine.getWindowKey.
  destruct (weekly_rewind t) as [Hday Hrange]. cbv zeta in Hday, Hrange.
  rewrite slice_daily by exact (Hrange H). rewrite Hday. reflexivity.
Qed.

Lemma toISOString_length (t : Z) :
  fourDigitYear t -> String.length (toISOString t) = 24%nat.
Proof.
  intros H. apply fourDigitYear_Day in H. unfold toISOString.
  destruct (civilFromDays (Day t)) as [[y m] d] eqn:E.
  rewrite (yearStr_four y) by exact (civilFromDays_year _ H y m d E).
  reflexivity.
Qed.

(** C3, as the code has it.  For time values whose year has four
    digits: the per_transaction key is the whole 24-character ISO
    timestamp, so two instants share it only when they are equal; the
    hourly, daily and monthly keys are [YYYY-MM-DDTHH], [YYYY-MM-DD]
    and [YYYY-MM] of the UTC date; on a host whose local time is UTC
    the weekly key is the [YYYY-MM-DD] of the Monday of the ISO week.
    Two instants get the same key exactly when they lie in the same
    hour, day, ISO week or month. *)
Theorem getWindowKey_windows (t1 t2 : Z) :
  fourDigitYear t1 -> fourDigitYear t2 ->
  (forall tz,
     PolicyEngine.getWindowKey tz per_transaction t1 = toISOString t1
     /\ PolicyEngine.getWindowKey tz hourly t1 = isoHour t1
     /\ PolicyEngine.getWindowKey tz daily t1 = isoDate (Day t1)
     /\ PolicyEngine.getWindowKey tz monthly t1 = isoMonth (Day t1))
  /\ String.length (toISOString t1) = 24%nat
  /\ PolicyEngine.getWindowKey 0 weekly t1 = isoDate (weekStart (Day t1))
  /\ (weekStart (Day t1) + 4) mod 7 = 1
  /\ (forall tz,
        PolicyEngine.getWindowKey tz per_transaction t1
        = PolicyEngine.getWindowKey tz per_transaction t2 <-> t1 = t2)
  /\ (forall tz,
        PolicyEngine.getWindowKey tz hourly t1
        = PolicyEngine.getWindowKey tz hourly t2
        <-> t1 / msPerHour = t2 / msPerHour)
  /\ (forall tz,
        PolicyEngine.getWindowKey tz daily t1
        = PolicyEngine.getWindowKey tz daily t2 <-> Day t1 = Day t2)
  /\ (PolicyEngine.getWindowKey 0 weekly t1 = PolicyEngine.getWindowKey 0 weekly t2
      <-> (Day t1 + 3) / 7 = (Day t2 + 3) / 7)
  /\ (forall tz,
        PolicyEngine.getWindowKey tz monthly t1
        = PolicyEngine.getWindowKey tz monthly t2
        <-> yearMonth (Day t1) = yearMonth (Day t2)).
Proof.
  intros H1 H2. pose proof (fourDigitYear_Day _ H1) as D1.
  pose proof (fourDigitYear_Day _ H2) as D2.
  split; [|split; [|split; [|split; [|split; [|split; [|split; [|split]]]]]]].
  - intros tz. unfold PolicyEngine.getWindowKey.
    rewrite slice_hourly, slice_daily, slice_monthly by exact H1.
    repeat split.
  - exact (toISOString_length t1 H1).
  - exact (weekly_key_utc t1 H1).
  - exact (proj1 (weekStart_monday (Day t1))).
  - intros tz. unfold PolicyEngine.getWindowKey. split.
    + exact (toISOString_inj t1 t2 H1 H2).
    + intros ->. reflexivity.
  - intros tz. unfold PolicyEngine.getWindowKey.
    rewrite !slice_hourly by assumption. exact (isoHour_inj t1 t2 H1 H2).
  - intros tz. unfold PolicyEngine.getWindowKey.
    rewrite !slice_daily by assumption. split.
    + exact (isoDate_inj _ _ D1 D2).
    + intros ->. reflexivity.
  - rewrite !weekly_key_utc by assumption.
    destruct (weekStart_monday (Day t1)) as (_ & B1 & W1).
    destruct (weekStart_monday (Day t2)) as (_ & B2 & W2).
    split.
    + intros E. apply isoDate_inj in E.
      * lia.
      * unfold weekStart in *. clear -D1 B1. Z.div_mod_to_equations. lia.
      * unfold weekStart in *. clear -D2 B2. Z.div_mod_to_equations. lia.
    + intros E. rewrite W1, W2, E. reflexivity.
  - intros tz. unfold PolicyEngine.getWindowKey.
    rewrite !slice_monthly by assumption. exact (isoMonth_inj _ _ D1 D2).
Qed.

Lemma getWindowKey_windows_witness :
  PolicyEngine.getWindowKey 0 hourly 0
  = PolicyEngine.getWindowKey 0 hourly 3599999
  /\ PolicyEngine.getWindowKey 0 weekly 1704657600000
     = JSDate.isoDate (JSDate.weekStart (JSDate.Day 1704657600000)).
Proof.
  assert (H0 : fourDigitYear 0) by (unfold fourDigitYear; lia).
  assert (H1 : fourDigitYear 3599999) by (unfold fourDigitYear; lia).
  assert (H2 : fourDigitYear 1704657600000) by (unfold fourDigitYear; lia).
  split.
  - destruct (getWindowKey_windows 0 3599999 H0 H1)
      as (_ & _ & _ & _ & _ & Hh & _).
    apply (Hh 0). reflexivity.
  - destruct (getWindowKey_windows 1704657600000 0 H2 H0) as (_ & _ & Hw & _).
    exact Hw.
Defined.

(** C3, as stated, fails: the per_transaction key is not the empty
    string but the whole timestamp. *)
Lemma per_transaction_key_not_empty :
  PolicyEngine.getWindowKey 0 per_transaction 0 = "1970-01-01T00:00:00.000Z"
  /\ PolicyEngine.getWindowKey 0 per_transaction 0 <> "".
Proof. split; [reflexivity | discriminate]. Qed.

(** The weekly key reads the weekday in local time and prints the date
    in UTC.  Nine hours east of Greenwich, Sunday 2024-01-07T20:00Z is
    already Monday: nothing is rewound and the key is that Sunday. *)
Example weekly_key_east_of_greenwich :
  PolicyEngine.getWindowKey 540 weekly 1704657600000 = "2024-01-07"
  /\ JSDate.WeekDay 1704657600000 = 0
  /\ PolicyEngine.getWindowKey 0 weekly 1704657600000 = "2024-01-01".
Proof. repeat split. Qed.

Example toISOString_examples :
  toISOString 951782400123 = "2000-02-29T00:00:00.123Z"
  /\ toISOString (-1) = "1969-12-31T23:59:59.999Z"
  /\ toISOString 253402300799999 = "9999-12-31T23:59:59.999Z"
  /\ toISOString (-62135596800000) = "0001-01-01T00:00:00.000Z".
Proof. repeat split. Qed.

End WindowKeyFacts.

(* ===================================================================== *)
(** * Properties of the policy engine                                      *)
(* ===================================================================== *)
Section PolicyFacts.
Import PolicyEngine.

(** ** Stable sort: the head is the first least element *)

Lemma insertCmp_head {A : Type} (key : A -> Z) (x d : A) (l : list A) :
  hd d (insertCmp (fun a b => key a - key b) x l)
  = match l with
    | [] => x
    | y :: _ => if key x <=? key y then x else y
    end.
Proof.
  destruct l as [|y l]; [reflexivity|]. cbn [insertCmp].
  replace (key x - key y <=? 0) with (key x <=? key y)
    by (destruct (Z.leb_spec (key x) (key y)), (Z.leb_spec (key x - key y) 0); lia).
  destruct (key x <=? key y); reflexivity.
Qed.

Lemma insertCmp_nonempty {A : Type} (cmp : A -> A -> Z) (x : A) (l : list A) :
  insertCmp cmp x l <> [].
Proof. destruct l as [|y l]; cbn; [|destruct (cmp x y <=? 0)]; discriminate. Qed.

Lemma sortCmp_head {A : Type} (key : A -> Z) (x d : A) (l : list A) :
  hd d (sortCmp (fun a b => key a - key b) (x :: l)) = firstLeast key x l.
Proof.
  revert x d. induction l as [|y l IH]; intros x d; [reflexivity|].
  cbn [sortCmp firstLeast]. rewrite insertCmp_head.
  specialize (IH y x). cbn [sortCmp] in IH.
  destruct (insertCmp (fun a b => key a - key b) y
              (sortCmp (fun a b => key a - key b) l)) as [|m rest] eqn:E.
  { exfalso. exact (insertCmp_nonempty _ _ _ E). }
  cbn [hd] in IH. rewrite IH. reflexivity.
Qed.

(** [firstLeast] picks an element of the list that no element beats and
    that no earlier element ties. *)
Lemma firstLeast_split {A : Type} (key : A -> Z) (x : A) (l : list A) :
  exists pre post,
    x :: l = (pre ++ firstLeast key x l :: post)%list
    /\ (forall y, In y pre -> key (firstLeast key x l) < key y)
    /\ (forall y, In y post -> key (firstLeast key x l) <= key y).
Proof.
  revert x. induction l as [|y l IH]; intros x.
  - exists [], []. cbn. repeat split; intros ? [].
  - cbn [firstLeast]. destruct (IH y) as (pre & post & E & Hpre & Hpost).
    destruct (Z.leb_spec (key x) (key (firstLeast key y l))) as [Hle|Hgt].
    + exists [], (y :: l). cbn [app]. repeat split; [intros ? []|].
      intros z Hz. rewrite E in Hz. apply in_app_or in Hz as [Hz|[<-|Hz]].
      * specialize (Hpre z Hz). lia.
      * exact Hle.
      * specialize (Hpost z Hz). lia.
    + exists (x :: pre), post. rewrite E. cbn [app]. repeat split.
      * intros z [<-|Hz]; [lia | apply Hpre, Hz].
      * exact Hpost.
Qed.

Lemma getMostRestrictive_firstLeast (r : PolicyEvaluation) (rs : list PolicyEvaluation) :
  getMostRestrictive r rs
  = firstLeast (fun e => actionSeverity (ev_action e)) r rs.
Proof.
  unfold getMostRestrictive.
  exact (sortCmp_head (fun e => actionSeverity (ev_action e)) r r rs).
Qed.

(** What the loop of [evaluate] collects: one decision per enabled
    policy, in the order the policies were loaded. *)
Lemma collectResults_decisions (tz now : Z) (st : State) (tx : AgentTransaction)
  (ps : list SpendPolicy) :
  collectResults tz now st tx ps
  = map (policyDecision tz now st tx) (List.filter (fun p => pol_enabled p) ps).
Proof.
  induction ps as [|p ps IH]; [reflexivity|].
  cbn [collectResults List.filter]. unfold evaluatePolicy, policyDecision at 1.
  destruct (pol_enabled p); cbn [negb map]; [|exact IH].
  destruct (evaluateBudgets tz st tx p); [rewrite IH; reflexivity|].
  destruct (evaluateCooldown now st tx p); rewrite IH; reflexivity.
Qed.

Lemma actionSeverity_deny (a : PolicyAction) :
  actionSeverity a <= 0 -> a = deny.
Proof. destruct a; cbn; intros; (reflexivity || lia). Qed.

(** A denial among the collected decisions makes [evaluate] deny. *)
Lemma evaluate_deny_if_any (tz now : Z) (st : State) (tx : AgentTransaction)
  (d : PolicyEvaluation) :
  In d (collectResults tz now st tx (getPolicies st)) ->
  ev_action d = deny ->
  ev_action (evaluate tz now st tx) = deny.
Proof.
  intros Hin Hd. unfold evaluate.
  destruct (collectResults tz now st tx (getPolicies st)) as [|r rs]; [destruct Hin|].
  rewrite getMostRestrictive_firstLeast.
  destruct (firstLeast_split (fun e => actionSeverity (ev_action e)) r rs)
    as (pre & post & E & Hpre & Hpost).
  apply actionSeverity_deny.
  rewrite E in Hin. apply in_app_or in Hin as [Hin|[<-|Hin]].
  - specialize (Hpre d Hin). cbn in Hpre. rewrite Hd in Hpre. cbn in Hpre. lia.
  - rewrite Hd. cbn. lia.
  - specialize (Hpost d Hin). cbn in Hpost. rewrite Hd in Hpost. cbn in Hpost. lia.
Qed.

(** C5.  [evaluate] returns the default allow decision when the loop
    collected nothing, which is the case when no policy is loaded;
    otherwise it returns, among the decisions of the enabled policies,
    one of least severity rank (deny 0, require_approval 1, flag 2,
    allow 3): every decision before it ranks strictly higher and every
    decision after it ranks at least as high. *)
Theorem evaluate_most_restrictive (tz now : Z) (st : State) (tx : AgentTransaction) :
  let decisions :=
    map (policyDecision tz now st tx)
        (List.filter (fun p => pol_enabled p) (getPolicies st)) in
  let rank := fun e => actionSeverity (ev_action e) in
  ((decisions = [] /\ evaluate tz now st tx = noPolicies)
   \/ (exists pre post,
         decisions = (pre ++ evaluate tz now st tx :: post)%list
         /\ (forall e, In e pre -> rank (evaluate tz now st tx) < rank e)
         /\ (forall e, In e post -> rank (evaluate tz now st tx) <= rank e)))
  /\ (policies st = [] -> evaluate tz now st tx = noPolicies)
  /\ ev_action noPolicies = allow
  /\ ev_allowed noPolicies = true
  /\ ev_reason noPolicies = "No policies loaded — allowing by default"
  /\ (actionSeverity deny = 0 /\ actionSeverity require_approval = 1
      /\ actionSeverity flag = 2 /\ actionSeverity allow = 3).
Proof.
  cbv zeta. rewrite <- collectResults_decisions.
  split; [|split; [|repeat split]].
  - unfold evaluate.
    destruct (collectResults tz now st tx (getPolicies st)) as [|r rs] eqn:E.
    + left. split; reflexivity.
    + right. rewrite getMostRestrictive_firstLeast.
      exact (firstLeast_split (fun e => actionSeverity (ev_action e)) r rs).
  - intros Hnil. unfold evaluate, getPolicies. rewrite Hnil. reflexivity.
Qed.

(** ** Budget check *)

Lemma budgetSkipped_matches (budget : BudgetLimit) (tx : AgentTransaction) :
  budgetSkipped budget tx = false <-> budgetMatches budget tx.
Proof.
  unfold budgetSkipped, budgetMatches.
  rewrite !orb_false_iff. 
  assert (Hinc : forall l x, includes l x = true <-> In x l).
  { intros l x. unfold includes. rewrite existsb_exists. split.
    - intros (y & Hy & E). apply String.eqb_eq in E. subst; exact Hy.
    - intros H. exists x. split; [exact H | apply String.eqb_refl]. }
  split.
  - intros [[Hc Ha] Hs]. repeat split.
    + destruct (bud_currency budget) as [c|]; [|exact I].
      destruct c as [|a c]; [left; reflexivity|right].
      cbn [truthy_str andb] in Hc. apply negb_false_iff, String.eqb_eq in Hc.
      exact Hc.
    + destruct (bud_agentIds budget) as [|a l]; [left; reflexivity|right].
      cbn [nonEmpty andb] in Ha. apply negb_false_iff in Ha.
      apply Hinc, Ha.
    + destruct (bud_serviceIds budget) as [|a l]; [left; reflexivity|right].
      cbn [nonEmpty andb] in Hs. destruct (tx_service tx) as [s|]; [|discriminate].
      exists s. apply orb_false_iff in Hs as [Hs1 Hs2].
      apply negb_false_iff in Hs1, Hs2. repeat split; [|apply Hinc, Hs2].
      destruct s; [discriminate|discriminate].
  - intros (Hc & Ha & Hs). repeat split.
    + destruct (bud_currency budget) as [c|]; [|reflexivity].
      destruct Hc as [-> | ->]; [reflexivity|].
      rewrite String.eqb_refl. apply andb_false_r.
    + destruct Ha as [-> |Ha]; [reflexivity|].
      apply Hinc in Ha. rewrite Ha. apply andb_false_r.
    + destruct Hs as [-> |(s & Es & Hne & Hin)]; [reflexivity|].
      rewrite Es. apply Hinc in Hin. rewrite Hin.
      destruct s; [congruence|]. apply andb_false_r.
Qed.

Lemma evaluateBudgetsFrom_spec (tz : Z) (st : State) (tx : AgentTransaction)
  (policy : SpendPolicy) (budgets : list BudgetLimit) :
  match evaluateBudgetsFrom tz st tx policy budgets with
  | None =>
      forall b, In b budgets -> budgetMatches b tx ->
                projectedAmount tz st tx policy b <= bud_maxAmount b
  | Some d =>
      exists pre b post,
        budgets = (pre ++ b :: post)%list
        /\ (forall b', In b' pre -> budgetMatches b' tx ->
                       projectedAmount tz st tx policy b' <= bud_maxAmount b')
        /\ budgetMatches b tx
        /\ projectedAmount tz st tx policy b > bud_maxAmount b
        /\ d = budgetDenied policy b tx
                 (amountOf (spendBuckets st)
                    (getBudgetBucketKey tz (pol_id policy) b tx))
                 (projectedAmount tz st tx policy b)
  end.
Proof.
  induction budgets as [|b budgets IH]; cbn [evaluateBudgetsFrom].
  - intros b [].
  - assert (Hcons : forall d,
      (budgetMatches b tx -> projectedAmount tz st tx policy b <= bud_maxAmount b) ->
      (exists pre b0 post,
        budgets = (pre ++ b0 :: post)%list
        /\ (forall b', In b' pre -> budgetMatches b' tx ->
                       projectedAmount tz st tx policy b' <= bud_maxAmount b')
        /\ budgetMatches b0 tx
        /\ projectedAmount tz st tx policy b0 > bud_maxAmount b0
        /\ d = budgetDenied policy b0 tx
                 (amountOf (spendBuckets st)
                    (getBudgetBucketKey tz (pol_id policy) b0 tx))
                 (projectedAmount tz st tx policy b0)) ->
      exists pre b0 post,
        b :: budgets = (pre ++ b0 :: post)%list
        /\ (forall b', In b' pre -> budgetMatches b' tx ->
                       projectedAmount tz st tx policy b' <= bud_maxAmount b')
        /\ budgetMatches b0 tx
        /\ projectedAmount tz st tx policy b0 > bud_maxAmount b0
        /\ d = budgetDenied policy b0 tx
                 (amountOf (spendBuckets st)
                    (getBudgetBucketKey tz (pol_id policy) b0 tx))
                 (projectedAmount tz st tx policy b0)).
    { intros d Hb (pre & b0 & post & E & Hpre & Hm & Hgt & Hd).
      exists (b :: pre), b0, post. rewrite E.
      split; [reflexivity|]. split; [|split; [exact Hm|split; [exact Hgt|exact Hd]]].
      intros b' [<-|Hin] Hm'; [exact (Hb Hm') | exact (Hpre b' Hin Hm')]. }
    destruct (budgetSkipped b tx) eqn:Hskip.
    + assert (Hno : ~ budgetMatches b tx).
      { intros Hm. apply budgetSkipped_matches in Hm. congruence. }
      destruct (evaluateBudgetsFrom tz st tx policy budgets) as [d|].
      * apply Hcons; [intros Hm; contradiction | exact IH].
      * intros b' [<-|Hin] Hm'; [contradiction | auto].
    + apply budgetSkipped_matches in Hskip.
      fold (projectedAmount tz st tx policy b).
      destruct (Z.gtb_spec (projectedAmount tz st tx policy b) (bud_maxAmount b))
        as [Hgt|Hle].
      * exists [], b, budgets.
        split; [reflexivity|]. split; [intros ? []|].
        split; [exact Hskip|]. split; [lia|reflexivity].
      * destruct (evaluateBudgetsFrom tz st tx policy budgets) as [d|].
        -- apply Hcons; [intros _; lia | exact IH].
        -- intros b' [<-|Hin] Hm'; [lia | auto].
Qed.


(** ** Cooldown check *)

(** C7.  For a policy whose [cooldownMs] is set (truthy) and an agent
    with a recorded last-transaction time, the cooldown check denies,
    reporting [remainingMs = cooldownMs - elapsed], exactly when
    [elapsed = now - lastTxTime < cooldownMs]; at
    [elapsed = cooldownMs] it lets the transaction through to the
    rules.  When such a policy is loaded and enabled and its budget
    check passes, an active cooldown makes [evaluate] deny. *)
Theorem evaluateCooldown_exact (tz now : Z) (st : State) (tx : AgentTransaction)
  (policy : SpendPolicy) (cooldownMs lastTime : Z) :
  pol_cooldownMs policy = Some cooldownMs ->
  cooldownMs <> 0 ->
  lastTransactionTime st !! tx_agentId tx = Some lastTime ->
  let elapsed := now - lastTime in
  ((exists d, evaluateCooldown now st tx policy = Some d
              /\ ev_action d = deny /\ ev_allowed d = false
              /\ jsGet (ev_details d) "remainingMs" = JNum (cooldownMs - elapsed))
   <-> elapsed < cooldownMs)
  /\ (evaluateCooldown now st tx policy = None <-> cooldownMs <= elapsed)
  /\ (elapsed = cooldownMs -> evaluateCooldown now st tx policy = None)
  /\ (elapsed = cooldownMs -> pol_enabled policy = true ->
      evaluateBudgets tz st tx policy = None ->
      evaluatePolicy tz now st tx policy = Some (evaluateRules tx policy))
  /\ (elapsed < cooldownMs -> pol_enabled policy = true ->
      In policy (getPolicies st) ->
      evaluateBudgets tz st tx policy = None ->
      ev_action (evaluate tz now st tx) = deny).
Proof.
  intros Hc Hnz Hlast elapsed.
  assert (Hcd : evaluateCooldown now st tx policy
                = if elapsed <? cooldownMs
                  then Some (cooldownDenied policy cooldownMs elapsed) else None).
  { unfold evaluateCooldown. rewrite Hc, Hlast.
    destruct (Z.eqb_spec cooldownMs 0); [contradiction|reflexivity]. }
  rewrite Hcd.
  destruct (Z.ltb_spec elapsed cooldownMs) as [Hlt|Hge].
  - split; [|split; [|split; [|split]]].
    + split; [intros _; exact Hlt|]. intros _. eexists. repeat split.
    + split; [discriminate | lia].
    + lia.
    + lia.
    + intros _ Hen Hin Hbud.
      apply (evaluate_deny_if_any tz now st tx
               (cooldownDenied policy cooldownMs elapsed)); [|reflexivity].
      rewrite collectResults_decisions. apply in_map_iff. exists policy. split.
      * unfold policyDecision. rewrite Hbud, Hcd.
        destruct (Z.ltb_spec elapsed cooldownMs); [reflexivity|lia].
      * apply filter_In. split; assumption.
  - split; [|split; [|split; [|split]]].
    + split; [intros (d & Hd & _); discriminate | lia].
    + split; [intros _; exact Hge | reflexivity].
    + reflexivity.
    + intros _ Hen Hbud. unfold evaluatePolicy. rewrite Hen, Hbud, Hcd.
      destruct (Z.ltb_spec elapsed cooldownMs); [lia|reflexivity].
    + lia.
Qed.

(** ** Recording *)






Lemma evaluateCooldown_exact_witness :
  lastTransactionTime Samples.coolEngine !! "agent-1" = Some 0
  /\ evaluateCooldown 60000 Samples.coolEngine
       (Samples.tx "tx1" "agent-1" 5 60000) Samples.coolPolicy = None
  /\ ev_action (evaluate 0 59999 Samples.coolEngine
                  (Samples.tx "tx1" "agent-1" 5 59999)) = deny.
Proof.
  assert (Hl : lastTransactionTime Samples.coolEngine !! "agent-1" = Some 0)
    by (vm_compute; reflexivity).
  split; [exact Hl|]. split.
  - apply (evaluateCooldown_exact 0 60000 Samples.coolEngine
             (Samples.tx "tx1" "agent-1" 5 60000) Samples.coolPolicy 60000 0);
      [reflexivity | lia | exact Hl | reflexivity].
  - apply (evaluateCooldown_exact 0 59999 Samples.coolEngine
             (Samples.tx "tx1" "agent-1" 5 59999) Samples.coolPolicy 60000 0);
      [reflexivity | lia | exact Hl | lia | reflexivity
       | vm_compute; left; reflexivity | reflexivity].
Defined.

(** The scenarios of the documentation. *)
Example budget_exhaustion :
  let st := recordTransaction 0 0 Samples.capEngine (Samples.tx "a" "agent-1" 80 0) in
  ev_action (evaluate 0 0 st (Samples.tx "b" "agent-1" 30 0)) = deny
  /\ ev_reason (evaluate 0 0 st (Samples.tx "b" "agent-1" 30 0))
     = "daily budget exceeded: $110.00 would exceed limit of $100"
  /\ ev_action (evaluate 0 0 st (Samples.tx "b" "agent-1" 20 0)) = allow.
Proof. vm_compute. repeat split. Qed.

Example cooldown_scenario :
  ev_reason (evaluate 0 30000 Samples.coolEngine (Samples.tx "b" "agent-1" 5 30000))
  = "Cooldown active: 30000ms remaining (minimum 60000ms between transactions)".
Proof. vm_compute. reflexivity. Qed.

End PolicyFacts.

(* ===================================================================== *)
(** * Properties of the spend tracker                                     *)
(* ===================================================================== *)
Section TrackerFacts.
Import SpendTracker.

Lemma idsAt_addToIndex (index : gmap string (gset string)) (k x k' id : string) :
  id ∈ idsAt (addToIndex index k x) k'
  <-> id ∈ idsAt index k' \/ (k = k' /\ id = x).
Proof.
  unfold addToIndex, idsAt. destruct (decide (k = k')) as [->|Hne].
  - rewrite lookup_insert_eq. cbn.
    rewrite elem_of_union, elem_of_singleton. intuition congruence.
  - rewrite lookup_insert_ne by exact Hne. intuition congruence.
Qed.

Lemma replay_snoc (txs : list AgentTransaction) (t : AgentTransaction) :
  replay (txs ++ [t]) = record (replay txs) t.
Proof. unfold replay. rewrite fold_left_app. reflexivity. Qed.

Lemma firstRecorded_snoc (txs : list AgentTransaction) (t : AgentTransaction)
  (id : string) :
  firstRecorded (txs ++ [t]) id
  = match firstRecorded txs id with
    | Some x => Some x
    | None => if String.eqb (tx_id t) id then Some t else None
    end.
Proof.
  unfold firstRecorded. induction txs as [|x txs IH]; cbn [app find].
  - reflexivity.
  - destruct (String.eqb (tx_id x) id); [reflexivity | exact IH].
Qed.

Lemma lastRecorded_snoc (txs : list AgentTransaction) (t : AgentTransaction)
  (id : string) :
  lastRecorded (txs ++ [t]) id
  = if String.eqb (tx_id t) id then Some t else lastRecorded txs id.
Proof. unfold lastRecorded. rewrite rev_app_distr. reflexivity. Qed.

(** The primary map holds, for each id, the transaction of the last call. *)
Lemma replay_transactions (txs : list AgentTransaction) (id : string) :
  transactions (replay txs) !! id = lastRecorded txs id.
Proof.
  induction txs as [|t txs IH] using rev_ind; [reflexivity|].
  rewrite replay_snoc, lastRecorded_snoc.
  assert (E : transactions (record (replay txs) t)
              = <[tx_id t := t]> (transactions (replay txs))).
  { unfold record. destruct (negb _); reflexivity. }
  rewrite E. destruct (String.eqb_spec (tx_id t) id) as [->|Hne].
  - apply lookup_insert_eq.
  - rewrite lookup_insert_ne by exact Hne. exact IH.
Qed.

Lemma firstRecorded_is_Some (txs : list AgentTransaction) (id : string) :
  is_Some (firstRecorded txs id) <-> is_Some (lastRecorded txs id).
Proof.
  induction txs as [|t txs IH] using rev_ind; [reflexivity|].
  rewrite firstRecorded_snoc, lastRecorded_snoc.
  destruct (String.eqb (tx_id t) id).
  - destruct (firstRecorded txs id); split; intros _; eexists; reflexivity.
  - destruct (firstRecorded txs id) eqn:E.
    + rewrite <- IH. split; intros _; eexists; reflexivity.
    + exact IH.
Qed.

Lemma firstRecorded_id (txs : list AgentTransaction) (id : string)
  (t : AgentTransaction) :
  firstRecorded txs id = Some t -> tx_id t = id /\ In t txs.
Proof.
  unfold firstRecorded. intros H. apply find_some in H as [Hin E].
  apply String.eqb_eq in E. split; assumption.
Qed.

Lemma lastRecorded_id (txs : list AgentTransaction) (id : string)
  (t : AgentTransaction) :
  lastRecorded txs id = Some t -> tx_id t = id /\ In t txs.
Proof.
  unfold lastRecorded. intros H. apply find_some in H as [Hin E].
  apply String.eqb_eq in E. apply in_rev in Hin. split; assumption.
Qed.

(** What [record] does, split on whether the id was seen before. *)
Lemma record_new (st : State) (t : AgentTransaction) :
  transactions st !! tx_id t = None ->
  record st t
  = mkState (<[tx_id t := t]> (transactions st))
      (addToIndex (byAgent st) (tx_agentId t) (tx_id t))
      (match tx_service t with
       | Some s => if truthy_str s
                   then addToIndex (byService st) s (tx_id t)
                   else byService st
       | None => byService st
       end)
      (addToIndex (byRecipient st) (tx_recipient t) (tx_id t))
      (chronological st ++ [tx_id t]).
Proof.
  intros H. unfold record. rewrite bool_decide_eq_false_2; [reflexivity|].
  rewrite H. intros [x Hx]. discriminate.
Qed.

Lemma record_update (st : State) (t : AgentTransaction) :
  is_Some (transactions st !! tx_id t) ->
  record st t
  = mkState (<[tx_id t := t]> (transactions st))
      (byAgent st) (byService st) (byRecipient st) (chronological st).
Proof.
  intros H. unfold record. rewrite bool_decide_eq_true_2 by exact H. reflexivity.
Qed.

(** The invariant of the tracker, in terms of the calls made so far. *)
Lemma replay_invariant (txs : list AgentTransaction) :
  NoDup (chronological (replay txs))
  /\ (forall id, id ∈ chronological (replay txs)
                 <-> is_Some (firstRecorded txs id))
  /\ (forall key id, id ∈ idsAt (byAgent (replay txs)) key
        <-> exists t, firstRecorded txs id = Some t /\ tx_agentId t = key)
  /\ (forall key id, id ∈ idsAt (byRecipient (replay txs)) key
        <-> exists t, firstRecorded txs id = Some t /\ tx_recipient t = key)
  /\ (forall key id, id ∈ idsAt (byService (replay txs)) key
        <-> exists t, firstRecorded txs id = Some t
                      /\ tx_service t = Some key /\ key <> "").
Proof.
  induction txs as [|t txs IH] using rev_ind.
  - cbn. split; [constructor|]. split; [|split; [|split]].
    + intros id. split; [intros H; inversion H | intros [x Hx]; discriminate].
    + intros key id. unfold idsAt. rewrite lookup_empty. cbn.
      split; [intros H; exfalso; exact (not_elem_of_empty _ H)
             | intros (x & Hx & _); discriminate].
    + intros key id. unfold idsAt. rewrite lookup_empty. cbn.
      split; [intros H; exfalso; exact (not_elem_of_empty _ H)
             | intros (x & Hx & _); discriminate].
    + intros key id. unfold idsAt. rewrite lookup_empty. cbn.
      split; [intros H; exfalso; exact (not_elem_of_empty _ H)
             | intros (x & Hx & _); discriminate].
  - destruct IH as (Hnd & Hch & Hag & Hrc & Hsv).
    rewrite replay_snoc.
    destruct (firstRecorded txs (tx_id t)) as [t0|] eqn:Hfirst.
    + (* an update: nothing but the primary entry changes *)
      assert (Hseen : is_Some (transactions (replay txs) !! tx_id t)).
      { rewrite replay_transactions, <- firstRecorded_is_Some, Hfirst.
        eexists; reflexivity. }
      rewrite (record_update _ _ Hseen). cbn [chronological byAgent byService byRecipient].
      assert (Hsame : forall id, firstRecorded (txs ++ [t]) id = firstRecorded txs id).
      { intros id. rewrite firstRecorded_snoc.
        destruct (firstRecorded txs id) eqn:E; [reflexivity|].
        destruct (String.eqb_spec (tx_id t) id) as [<-|]; [congruence|reflexivity]. }
      split; [exact Hnd|]. split; [|split; [|split]]; intros;
        rewrite ?Hsame; auto.
      all: setoid_rewrite Hsame; auto.
    + (* a first insert *)
      assert (Hnew : transactions (replay txs) !! tx_id t = None).
      { rewrite replay_transactions.
        destruct (lastRecorded txs (tx_id t)) eqn:E; [|reflexivity].
        assert (Hs : is_Some (firstRecorded txs (tx_id t)))
          by (apply firstRecorded_is_Some; rewrite E; eexists; reflexivity).
        rewrite Hfirst in Hs. destruct Hs; discriminate. }
      rewrite (record_new _ _ Hnew). cbn [chronological byAgent byService byRecipient].
      assert (Hfr : forall id, firstRecorded (txs ++ [t]) id
                 = if String.eqb (tx_id t) id then Some t else firstRecorded txs id).
      { intros id. rewrite firstRecorded_snoc.
        destruct (String.eqb_spec (tx_id t) id) as [<-|Hne].
        - rewrite Hfirst. reflexivity.
        - destruct (firstRecorded txs id); reflexivity. }
      split; [|split; [|split; [|split]]].
      * apply NoDup_app. split; [exact Hnd|]. split; [|apply NoDup_singleton].
        intros x Hx Hx'. apply list_elem_of_singleton in Hx'. subst x.
        apply Hch in Hx. rewrite Hfirst in Hx. destruct Hx; discriminate.
      * intros id. rewrite elem_of_app, list_elem_of_singleton, Hch, Hfr.
        destruct (String.eqb_spec (tx_id t) id) as [<-|Hne].
        -- split; [intros _; eexists; reflexivity | right; reflexivity].
        -- split; [intros [H|H]; [exact H | congruence] | left; assumption].
      * intros key id. rewrite idsAt_addToIndex, Hag, Hfr.
        destruct (String.eqb_spec (tx_id t) id) as [<-|Hne].
        -- split.
           ++ intros [(x & Hx & _)|[Hk _]]; [congruence|].
              exists t. split; [reflexivity | exact Hk].
           ++ intros (x & [= <-] & Hk). right. split; [exact Hk | reflexivity].
        -- split; [intros [H|[_ H]]; [exact H | congruence] | left; assumption].
      * intros key id. rewrite idsAt_addToIndex, Hrc, Hfr.
        destruct (String.eqb_spec (tx_id t) id) as [<-|Hne].
        -- split.
           ++ intros [(x & Hx & _)|[Hk _]]; [congruence|].
              exists t. split; [reflexivity | exact Hk].
           ++ intros (x & [= <-] & Hk). right. split; [exact Hk | reflexivity].
        -- split; [intros [H|[_ H]]; [exact H | congruence] | left; assumption].
      * intros key id. rewrite Hfr.
        assert (Hidx : id ∈ idsAt
                  (match tx_service t with
                   | Some s => if truthy_str s
                               then addToIndex (byService (replay txs)) s (tx_id t)
                               else byService (replay txs)
                   | None => byService (replay txs)
                   end) key
                <-> id ∈ idsAt (byService (replay txs)) key
                    \/ (tx_service t = Some key /\ key <> "" /\ id = tx_id t)).
        { destruct (tx_service t) as [s|].
          - destruct s as [|c s]; cbn [truthy_str].
            + split; [left; assumption|].
              intros [H|(E & Hne & _)]; [exact H|]. congruence.
            + rewrite idsAt_addToIndex. split.
              * intros [H|[<- ->]]; [left; exact H|right].
                repeat split. discriminate.
              * intros [H|([= <-] & _ & ->)]; [left; exact H|right].
                split; reflexivity.
          - split; [left; assumption|].
            intros [H|(E & _)]; [exact H | discriminate]. }
        rewrite Hidx, Hsv.
        destruct (String.eqb_spec (tx_id t) id) as [<-|Hne].
        -- split.
           ++ intros [(x & Hx & _)|(Hk & Hne & _)]; [congruence|].
              exists t. repeat split; assumption.
           ++ intros (x & [= <-] & Hk & Hne). right. repeat split; assumption.
        -- split; [intros [H|(_ & _ & H)]; [exact H | congruence] | left; assumption].
Qed.

(** C4, as the code has it.  After any sequence of [record] calls every
    id stands at most once in the chronological list, the primary map
    holds the transaction of the last call for each id, and each index
    holds under a key exactly the ids whose first recorded transaction
    had that agent, recipient or (non-empty) service: [record] indexes
    on the first insert only.  Hence, when re-recordings keep these
    fields, an index holds exactly the stored ids with that field. *)
Theorem record_indexes_first_insert (txs : list AgentTransaction) :
  let st := replay txs in
  NoDup (chronological st)
  /\ (forall id, id ∈ chronological st <-> is_Some (get st id))
  /\ (forall id, get st id = lastRecorded txs id)
  /\ (forall key id, id ∈ idsAt (byAgent st) key
        <-> exists t, firstRecorded txs id = Some t /\ tx_agentId t = key)
  /\ (forall key id, id ∈ idsAt (byRecipient st) key
        <-> exists t, firstRecorded txs id = Some t /\ tx_recipient t = key)
  /\ (forall key id, id ∈ idsAt (byService st) key
        <-> exists t, firstRecorded txs id = Some t
                      /\ tx_service t = Some key /\ key <> "")
  /\ (fieldsStable txs ->
      forall key id,
        (id ∈ idsAt (byAgent st) key
         <-> exists t, get st id = Some t /\ tx_agentId t = key)
        /\ (id ∈ idsAt (byRecipient st) key
            <-> exists t, get st id = Some t /\ tx_recipient t = key)
        /\ (id ∈ idsAt (byService st) key
            <-> exists t, get st id = Some t
                          /\ tx_service t = Some key /\ key <> "")).
Proof.
  cbv zeta. unfold get.
  destruct (replay_invariant txs) as (Hnd & Hch & Hag & Hrc & Hsv).
  split; [exact Hnd|]. split; [|split; [|split; [|split; [|split]]]]; auto.
  - intros id. rewrite Hch, replay_transactions. apply firstRecorded_is_Some.
  - apply replay_transactions.
  - intros Hstable key id.
    assert (Hfl : forall (P : AgentTransaction -> Prop),
              (forall t t', In t txs -> In t' txs -> tx_id t = tx_id t' ->
                            P t -> P t') ->
              (exists t, firstRecorded txs id = Some t /\ P t)
              <-> (exists t, transactions (replay txs) !! id = Some t /\ P t)).
    { intros P HP. rewrite replay_transactions. split.
      - intros (t & Ht & HPt).
        assert (Hs : is_Some (lastRecorded txs id))
          by (apply (proj1 (firstRecorded_is_Some txs id));
              rewrite Ht; eexists; reflexivity).
        destruct Hs as [t' Ht']. exists t'. split; [exact Ht'|].
        apply firstRecorded_id in Ht as [E1 I1].
        apply lastRecorded_id in Ht' as [E2 I2].
        apply (HP t t'); auto. congruence.
      - intros (t & Ht & HPt).
        assert (Hs : is_Some (firstRecorded txs id))
          by (apply (proj2 (firstRecorded_is_Some txs id));
              rewrite Ht; eexists; reflexivity).
        destruct Hs as [t' Ht']. exists t'. split; [exact Ht'|].
        apply firstRecorded_id in Ht' as [E1 I1].
        apply lastRecorded_id in Ht as [E2 I2].
        apply (HP t t'); auto. congruence. }
    rewrite Hag, Hrc, Hsv. split; [|split].
    + apply (Hfl (fun t => tx_agentId t = key)).
      intros t t' I I' E H. destruct (Hstable t t' I I' E) as (Ha & _ & _). congruence.
    + apply (Hfl (fun t => tx_recipient t = key)).
      intros t t' I I' E H. destruct (Hstable t t' I I' E) as (_ & Hr & _). congruence.
    + apply (Hfl (fun t => tx_service t = Some key /\ key <> "")).
      intros t t' I I' E [H Hne]. destruct (Hstable t t' I I' E) as (_ & _ & Hs).
      split; [congruence | exact Hne].
Qed.

(** C4, as stated, fails: re-recording an id under another agent leaves
    the id in the first agent's index and out of the second's, although
    the stored transaction now carries the second agent. *)
Lemma record_update_leaves_index_stale :
  ~ (forall (txs : list AgentTransaction) (key id : string),
       id ∈ idsAt (byAgent (replay txs)) key
       <-> exists t, get (replay txs) id = Some t /\ tx_agentId t = key).
Proof.
  intros H.
  destruct (H [Samples.tx "t1" "agent-a" 5 0; Samples.tx "t1" "agent-b" 5 0]
              "agent-b" "t1") as [_ Hback].
  assert (Hin : "t1" ∈ idsAt (byAgent (replay
                  [Samples.tx "t1" "agent-a" 5 0; Samples.tx "t1" "agent-b" 5 0]))
                  "agent-b").
  { apply Hback. eexists. split; [vm_compute; reflexivity | reflexivity]. }
  destruct (replay_invariant
              [Samples.tx "t1" "agent-a" 5 0; Samples.tx "t1" "agent-b" 5 0])
    as (_ & _ & Hag & _).
  apply Hag in Hin as (t & Ht & Ha).
  vm_compute in Ht. injection Ht as <-. discriminate Ha.
Qed.

End TrackerFacts.

(* ===================================================================== *)
(** * Properties of the dispute manager                                   *)
(* ===================================================================== *)
Section DisputeFacts.
Import DisputeManager.

Lemma mapGet_mapSet_eq {V : Type} (k : string) (v : V) (m : list (string * V)) :
  mapGet k (mapSet k v m) = Some v.
Proof.
  induction m as [|[k' v'] m IH]; cbn [mapSet mapGet].
  - rewrite String.eqb_refl. reflexivity.
  - destruct (String.eqb k' k) eqn:E; cbn [mapGet].
    + rewrite String.eqb_refl. reflexivity.
    + rewrite E. exact IH.
Qed.

Lemma mapGet_mapSet_ne {V : Type} (k k' : string) (v : V) (m : list (string * V)) :
  k <> k' -> mapGet k' (mapSet k v m) = mapGet k' m.
Proof.
  intros Hne. induction m as [|[k0 v0] m IH]; cbn [mapSet mapGet].
  - destruct (String.eqb_spec k k'); [contradiction|reflexivity].
  - destruct (String.eqb_spec k0 k) as [->|Hk]; cbn [mapGet].
    + destruct (String.eqb_spec k k'); [contradiction|reflexivity].
    + destruct (String.eqb k0 k'); [reflexivity | exact IH].
Qed.


Lemma insertCmp_In {A : Type} (cmp : A -> A -> Z) (x y : A) (l : list A) :
  In y (insertCmp cmp x l) <-> y = x \/ In y l.
Proof.
  induction l as [|z l IH]; cbn [insertCmp In].
  - intuition congruence.
  - destruct (cmp x z <=? 0); cbn [In]; [intuition congruence|].
    rewrite IH. intuition congruence.
Qed.

Lemma sortCmp_In {A : Type} (cmp : A -> A -> Z) (y : A) (l : list A) :
  In y (sortCmp cmp l) <-> In y l.
Proof.
  induction l as [|x l IH]; cbn [sortCmp In]; [reflexivity|].
  rewrite insertCmp_In, IH. intuition congruence.
Qed.

Lemma get_setDisputes (st : State) (ds : list (string * DisputeCase)) (id : string) :
  get (setDisputes st ds) id = mapGet id ds.
Proof. reflexivity. Qed.

Lemma get_notifyListeners (st : State) (d : DisputeCase) (s : DisputeStatus)
  (id : string) :
  get (notifyListeners st d s) id = get st id.
Proof. reflexivity. Qed.

(** C2, as the code has it.  On a dispute in a closed status
    [addEvidence] throws and leaves the whole manager as it was.  A
    status change is not refused: [updateStatus] and [resolve] succeed
    on any existing dispute, closed or not, and store the status they
    are given. *)
Theorem closed_dispute_operations (now : string) (id : string) (st : State)
  (d : DisputeCase) (evidence : DisputeEvidence) :
  get st id = Some d ->
  isClosed (dsp_status d) = true ->
  addEvidence now id evidence st
  = (Throw (concat_str ["Cannot add evidence to closed dispute "; id]), st)
  /\ (forall newStatus, exists st',
        updateStatus now id newStatus st = (Return tt, st')
        /\ option_map dsp_status (get st' id) = Some newStatus
        /\ option_map dsp_evidence (get st' id) = Some (dsp_evidence d))
  /\ (forall status liability resolvedAmount, exists d' st',
        resolve now id status liability resolvedAmount st = (Return d', st')
        /\ get st' id = Some d'
        /\ dsp_status d' = status
        /\ dsp_evidence d' = dsp_evidence d).
Proof.
  intros Hget Hclosed. split; [|split].
  - unfold addEvidence. rewrite Hget, Hclosed. reflexivity.
  - intros newStatus. unfold updateStatus. rewrite Hget.
    eexists. split; [reflexivity|].
    rewrite get_notifyListeners, get_setDisputes, mapGet_mapSet_eq.
    split; reflexivity.
  - intros status liability resolvedAmount. unfold resolve. rewrite Hget.
    eexists. eexists. split; [reflexivity|].
    rewrite get_notifyListeners, get_setDisputes, mapGet_mapSet_eq.
    repeat split.
Qed.

Lemma closed_dispute_operations_witness :
  option_map dsp_status (get Samples.resolvedOnce "dsp_1") = Some resolved_denied
  /\ addEvidence "2026-01-03T00:00:00.000Z" "dsp_1" Samples.statement
       Samples.resolvedOnce
     = (Throw "Cannot add evidence to closed dispute dsp_1", Samples.resolvedOnce).
Proof.
  split; [reflexivity|].
  refine (proj1 (closed_dispute_operations "2026-01-03T00:00:00.000Z" "dsp_1"
                   Samples.resolvedOnce _ Samples.statement eq_refl eq_refl)).
Defined.

(** C2, as stated, fails: a dispute resolved as denied is put back to
    [open] by [updateStatus]. *)
Lemma closed_dispute_status_changes :
  ~ (forall (now id : string) (newStatus : DisputeStatus) (st st' : State)
            (d : DisputeCase),
       get st id = Some d ->
       isClosed (dsp_status d) = true ->
       updateStatus now id newStatus st = (Return tt, st') ->
       option_map dsp_status (get st' id) = Some (dsp_status d)).
Proof.
  intros H.
  specialize (H "2026-01-03T00:00:00.000Z" "dsp_1" open Samples.resolvedOnce
                _ _ eq_refl eq_refl eq_refl).
  vm_compute in H. discriminate H.
Qed.

(** ** Filing again after a closed dispute *)






End DisputeFacts.

(* ===================================================================== *)
(** * Properties of the recovery engine                                   *)
(* ===================================================================== *)
Section RecoveryFacts.
Import RecoveryEngine.

Variable World : Type.
Variable executor : RecoveryAction -> World -> ExecutorOutcome * World.
Variable clock : World -> string.
Variable sleep : Z -> World -> World.









Lemma keyedById_insert (st : State) (actionId : string) (a : RecoveryAction)
  (q : list string) :
  keyedById st -> rcv_id a = actionId ->
  keyedById (mkState (<[actionId := a]> (actions st)) (byDispute st) q
               (maxRetries st) (retryDelayMs st)).
Proof.
  intros Hwf Hid k x. cbn [actions].
  destruct (decide (actionId = k)) as [->|Hne].
  - rewrite lookup_insert_eq. intros [= <-]. exact Hid.
  - rewrite lookup_insert_ne by exact Hne. apply Hwf.
Qed.




End RecoveryFacts.

Lemma queuedEngine_keyedById : RecoveryEngine.keyedById Samples.queuedEngine.
Proof.
  intros k a. unfold Samples.queuedEngine. cbn [RecoveryEngine.actions].
  destruct (decide ("rcv_1" = k)) as [<-|H1].
  - rewrite lookup_insert_eq. intros [= <-]. reflexivity.
  - rewrite lookup_insert_ne by exact H1.
    destruct (decide ("rcv_2" = k)) as [<-|H2].
    + rewrite lookup_insert_eq. intros [= <-]. reflexivity.
    + rewrite lookup_insert_ne by exact H2. rewrite lookup_empty. discriminate.
Defined.


(** The run of the samples: two failures with waits of 5000 and 10000
    ms, then success; the dead executor is given up after three calls. *)
Example processQueue_flaky_trace :
  RecoveryEngine.qr_trace _
    (RecoveryEngine.processQueue _ Samples.flakyExecutor Samples.sampleClock
       Samples.sampleSleep Samples.queuedEngine O)
  = [RecoveryEngine.EvExecute "rcv_1" 1 false; RecoveryEngine.EvSleep "rcv_1" 5000;
     RecoveryEngine.EvExecute "rcv_1" 2 false; RecoveryEngine.EvSleep "rcv_1" 10000;
     RecoveryEngine.EvExecute "rcv_1" 3 true;
     RecoveryEngine.EvExecute "rcv_2" 1 true].
Proof. vm_compute. reflexivity. Qed.

Example processQueue_dead_status :
  map RecoveryEngine.rcv_status
    (RecoveryEngine.qr_processed _
       (RecoveryEngine.processQueue _ Samples.deadExecutor Samples.sampleClock
          Samples.sampleSleep Samples.queuedEngine O))
  = [RecoveryEngine.failed; RecoveryEngine.failed].
Proof. vm_compute. reflexivity. Qed.

(* ===================================================================== *)
(** * Further properties of the policy engine                             *)
(* ===================================================================== *)
Section PolicyMore.
Import PolicyEngine.

(** ** The sort puts least keys first *)

Lemma insertCmp_Forall {A : Type} (cmp : A -> A -> Z) (P : A -> Prop)
  (x : A) (l : list A) :
  P x -> Forall P l -> Forall P (insertCmp cmp x l).
Proof.
  intros Hx Hl. induction Hl as [|y l Hy Hl IH]; cbn [insertCmp].
  - constructor; [exact Hx | constructor].
  - destruct (cmp x y <=? 0).
    + constructor; [exact Hx|]. constructor; assumption.
    + constructor; assumption.
Qed.

Lemma insertCmp_sorted {A : Type} (key : A -> Z) (x : A) (l : list A) :
  StronglySorted (keyLe key) l ->
  StronglySorted (keyLe key) (insertCmp (fun a b => key a - key b) x l).
Proof.
  intros Hs. induction Hs as [|y l Hs IH Hy]; cbn [insertCmp].
  - constructor; constructor.
  - destruct (Z.leb_spec (key x - key y) 0) as [Hle|Hgt].
    + constructor; [constructor; assumption|].
      constructor; [unfold keyLe; lia|].
      eapply List.Forall_impl; [|exact Hy]. unfold keyLe. intros z Hz. lia.
    + constructor; [exact IH|].
      apply insertCmp_Forall; [unfold keyLe; lia | exact Hy].
Qed.

Lemma sortCmp_sorted {A : Type} (key : A -> Z) (l : list A) :
  StronglySorted (keyLe key) (sortCmp (fun a b => key a - key b) l).
Proof.
  induction l as [|x l IH]; cbn [sortCmp]; [constructor|].
  apply insertCmp_sorted, IH.
Qed.

Lemma find_In_sorted {A : Type} (key : A -> Z) (p : A -> bool) (y m : A)
  (l : list A) :
  StronglySorted (keyLe key) (y :: l) -> find p (y :: l) = Some m ->
  key y <= key m.
Proof.
  intros Hs Hf. apply StronglySorted_inv in Hs as [_ Hy].
  cbn [find] in Hf. destruct (p y); [injection Hf as <-; lia|].
  apply find_some in Hf as [Hin _].
  rewrite List.Forall_forall in Hy. exact (Hy m Hin).
Qed.

Lemma find_insertCmp {A : Type} (key : A -> Z) (p : A -> bool) (x : A)
  (l : list A) :
  StronglySorted (keyLe key) l ->
  find p (insertCmp (fun a b => key a - key b) x l)
  = if p x
    then match find p l with
         | Some m => if key x <=? key m then Some x else Some m
         | None => Some x
         end
    else find p l.
Proof.
  intros Hs. induction l as [|y l IH]; cbn [insertCmp].
  - cbn [find]. destruct (p x); reflexivity.
  - destruct (Z.leb_spec (key x - key y) 0) as [Hle|Hgt].
    + cbn [find]. destruct (p x) eqn:Hpx; [|reflexivity].
      destruct (p y) eqn:Hpy.
      * destruct (Z.leb_spec (key x) (key y)); [reflexivity|lia].
      * destruct (find p l) as [m|] eqn:Hf; [|reflexivity].
        assert (key y <= key m).
        { apply (find_In_sorted key p y m l Hs). cbn [find]. rewrite Hpy. exact Hf. }
        destruct (Z.leb_spec (key x) (key m)); [reflexivity|lia].
    + cbn [find]. destruct (p y) eqn:Hpy.
      * destruct (p x); [|reflexivity].
        destruct (Z.leb_spec (key x) (key y)); [lia|reflexivity].
      * apply IH. apply StronglySorted_inv in Hs as [Hs _]. exact Hs.
Qed.

(** Searching the sorted array finds the first least matching element
    of the unsorted one. *)
Lemma find_sortCmp {A : Type} (key : A -> Z) (p : A -> bool) (l : list A) :
  find p (sortCmp (fun a b => key a - key b) l)
  = match List.filter p l with
    | [] => None
    | x :: rest => Some (firstLeast key x rest)
    end.
Proof.
  induction l as [|x l IH]; [reflexivity|].
  cbn [sortCmp List.filter].
  rewrite find_insertCmp by apply sortCmp_sorted. rewrite IH.
  destruct (p x); [|reflexivity].
  destruct (List.filter p l) as [|y rest]; [reflexivity|].
  cbn [firstLeast]. destruct (key x <=? key (firstLeast key y rest)); reflexivity.
Qed.

Lemma filter_filter_and {A : Type} (p q : A -> bool) (l : list A) :
  List.filter q (List.filter p l) = List.filter (fun a => p a && q a) l.
Proof.
  induction l as [|x l IH]; [reflexivity|]. cbn [List.filter].
  destruct (p x); cbn [List.filter andb]; [|exact IH].
  destruct (q x); rewrite IH; reflexivity.
Qed.

Lemma evaluateRules_firstMatch (tx : AgentTransaction) (policy : SpendPolicy) :
  evaluateRules tx policy
  = match firstMatch tx (pol_rules policy) with
    | Some rule => ruleMatched policy rule
    | None => noRuleMatched policy
    end.
Proof.
  unfold evaluateRules, firstMatch.
  rewrite (find_sortCmp rule_priority), filter_filter_and. reflexivity.
Qed.

(** X4.  The rule scan of a policy fires the enabled rule with
    matching conditions that has the least priority number, the
    earliest listed among equals (disabled and non-matching rules are
    passed over); its decision carries that rule and its action, with
    [allowed] true exactly for allow and flag.  When no enabled rule
    matches, the decision is allow. *)
Theorem evaluateRules_priority_order (tx : AgentTransaction) (policy : SpendPolicy) :
  let candidates :=
    List.filter (fun r => rule_enabled r && matchesConditions tx r)
      (pol_rules policy) in
  (candidates = []
   /\ evaluateRules tx policy = noRuleMatched policy
   /\ ev_action (evaluateRules tx policy) = allow
   /\ ev_allowed (evaluateRules tx policy) = true)
  \/ (exists before rule after,
        candidates = (before ++ rule :: after)%list
        /\ (forall r, In r before -> rule_priority rule < rule_priority r)
        /\ (forall r, In r after -> rule_priority rule <= rule_priority r)
        /\ evaluateRules tx policy = ruleMatched policy rule
        /\ ev_triggeredRule (evaluateRules tx policy) = Some rule
        /\ ev_action (evaluateRules tx policy) = rule_action rule
        /\ (ev_allowed (evaluateRules tx policy) = true
            <-> rule_action rule = allow \/ rule_action rule = flag)).
Proof.
  cbv zeta. rewrite evaluateRules_firstMatch. unfold firstMatch.
  destruct (List.filter (fun r => rule_enabled r && matchesConditions tx r)
              (pol_rules policy)) as [|r rest].
  - left. repeat split.
  - right. destruct (firstLeast_split rule_priority r rest)
      as (before & after & E & Hb & Ha).
    exists before, (firstLeast rule_priority r rest), after.
    split; [exact E|]. split; [exact Hb|]. split; [exact Ha|].
    split; [reflexivity|]. split; [reflexivity|]. split; [reflexivity|].
    cbn [ev_allowed ruleMatched].
    destruct (rule_action (firstLeast rule_priority r rest));
      split; intros H; try reflexivity; try discriminate;
      try (left; reflexivity); try (right; reflexivity);
      destruct H; discriminate.
Qed.

Lemma evaluate_In (tz now : Z) (st : State) (tx : AgentTransaction) :
  evaluate tz now st tx = noPolicies
  \/ exists policy, In policy (getPolicies st) /\ pol_enabled policy = true
                    /\ evaluate tz now st tx = policyDecision tz now st tx policy.
Proof.
  unfold evaluate.
  destruct (collectResults tz now st tx (getPolicies st)) as [|r rs] eqn:E;
    [left; reflexivity|right].
  rewrite getMostRestrictive_firstLeast.
  destruct (firstLeast_split (fun e => actionSeverity (ev_action e)) r rs)
    as (pre & post & Hsplit & _).
  assert (Hin : In (firstLeast (fun e => actionSeverity (ev_action e)) r rs)
                   (collectResults tz now st tx (getPolicies st))).
  { rewrite E, Hsplit. apply in_or_app. right. left. reflexivity. }
  rewrite collectResults_decisions in Hin. apply in_map_iff in Hin
    as (policy & Hp & Hin). apply filter_In in Hin as [Hin Hen].
  exists policy. split; [exact Hin|]. split; [exact Hen|]. symmetry. exact Hp.
Qed.

(** X5.  In every decision [evaluate] returns, the [allowed] flag and
    the action agree: allowed is true exactly when the action is allow
    or flag, and a deny or require_approval is never allowed. *)
Theorem evaluate_allowed_agrees (tz now : Z) (st : State) (tx : AgentTransaction) :
  ev_allowed (evaluate tz now st tx) = true
  <-> ev_action (evaluate tz now st tx) = allow
      \/ ev_action (evaluate tz now st tx) = flag.
Proof.
  destruct (evaluate_In tz now st tx) as [->|(policy & _ & _ & ->)].
  - cbn. split; [left; reflexivity | reflexivity].
  - unfold policyDecision.
    pose proof (evaluateBudgetsFrom_spec tz st tx policy (pol_budgets policy)) as Hb.
    fold (evaluateBudgets tz st tx policy) in Hb.
    destruct (evaluateBudgets tz st tx policy) as [d|].
    { destruct Hb as (_ & b & _ & _ & _ & _ & _ & ->). cbn.
      split; [discriminate | intros [H|H]; discriminate]. }
    unfold evaluateCooldown.
    assert (Hrules : ev_allowed (evaluateRules tx policy) = true
                     <-> ev_action (evaluateRules tx policy) = allow
                         \/ ev_action (evaluateRules tx policy) = flag).
    { rewrite evaluateRules_firstMatch.
      destruct (firstMatch tx (pol_rules policy)) as [rule|]; cbn.
      - destruct (rule_action rule); split; intros H; try reflexivity;
          try discriminate; try (left; reflexivity); try (right; reflexivity);
          destruct H; discriminate.
      - split; [left; reflexivity | reflexivity]. }
    destruct (pol_cooldownMs policy) as [c|]; [|exact Hrules].
    destruct (c =? 0); [exact Hrules|].
    destruct (lastTransactionTime st !! tx_agentId tx) as [lastTime|]; [|exact Hrules].
    destruct (now - lastTime <? c); [|exact Hrules].
    cbn. split; [discriminate | intros [H|H]; discriminate].
Qed.

(** ** What [recordTransaction] writes *)

Lemma countOf_insert (buckets : gmap string SpendBucket) (k k' : string)
  (b : SpendBucket) :
  countOf (<[k := b]> buckets) k'
  = if String.eqb k k' then bucket_count b else countOf buckets k'.
Proof.
  unfold countOf. destruct (String.eqb_spec k k') as [->|Hne].
  - rewrite lookup_insert_eq. reflexivity.
  - rewrite lookup_insert_ne by exact Hne. reflexivity.
Qed.

Lemma recordBudgets_count (tz : Z) (policyId : string) (tx : AgentTransaction)
  (budgets : list BudgetLimit) (buckets : gmap string SpendBucket) (key : string) :
  countOf (recordBudgets tz policyId tx budgets buckets) key
  = countOf buckets key + Z.of_nat (budgetHits tz policyId tx budgets key).
Proof.
  revert buckets. induction budgets as [|b budgets IH]; intros buckets.
  - cbn. ring.
  - cbn [recordBudgets]. unfold budgetHits in *. cbn [List.filter].
    destruct (budgetSkipped b tx); cbn [negb andb]; [apply IH|].
    rewrite IH, countOf_insert.
    destruct (String.eqb (getBudgetBucketKey tz policyId b tx) key) eqn:E.
    + apply String.eqb_eq in E. subst key. cbn [length bucket_count].
      rewrite Nat2Z.inj_succ. unfold countOf.
      match goal with |- context [Z.of_nat ?n] => generalize (Z.of_nat n) end.
      intros n. clear IH.
      destruct (buckets !! getBudgetBucketKey tz policyId b tx) as [b0|];
        cbn [bucket_count]; unfold Z.succ; ring.
    + reflexivity.
Qed.

Lemma recordPolicies_state (tz now : Z) (tx : AgentTransaction)
  (ps : list SpendPolicy) (st : State) :
  policies (recordPolicies tz now tx ps st) = policies st
  /\ (forall key,
        countOf (spendBuckets (recordPolicies tz now tx ps st)) key
        = countOf (spendBuckets st) key + Z.of_nat (bucketHits tz tx ps key))
  /\ lastTransactionTime (recordPolicies tz now tx ps st)
     = if existsb (fun p => pol_enabled p) ps
       then <[tx_agentId tx := now]> (lastTransactionTime st)
       else lastTransactionTime st.
Proof.
  revert st. induction ps as [|p ps IH]; intros st.
  - cbn. repeat split. intros key. ring.
  - cbn [recordPolicies bucketHits existsb].
    destruct (pol_enabled p); cbn [negb orb].
    + destruct (IH (mkState (policies st)
                      (recordBudgets tz (pol_id p) tx (pol_budgets p) (spendBuckets st))
                      (<[tx_agentId tx := now]> (lastTransactionTime st))))
        as (Hp & Hc & Hl).
      split; [exact Hp|]. split.
      * intros key. rewrite Hc. cbn [spendBuckets]. rewrite recordBudgets_count.
        rewrite Nat2Z.inj_add. ring.
      * rewrite Hl. cbn [lastTransactionTime].
        destruct (existsb (fun p0 => pol_enabled p0) ps); [|reflexivity].
        apply insert_insert_eq.
    + destruct (IH st) as (Hp & Hc & Hl).
      split; [exact Hp|]. split; [|exact Hl].
      intros key. rewrite Hc. reflexivity.
Qed.

(** X6.  [recordTransaction] leaves the loaded policies as they are,
    raises the count of every bucket by one for each matching budget
    of an enabled policy that addresses it, and stamps the agent's
    last-transaction time with the current clock reading when at least
    one enabled policy is loaded; with no enabled policy nothing at
    all changes, and other agents' times are never touched. *)
Theorem recordTransaction_effects (tz now : Z) (st : State)
  (tx : AgentTransaction) :
  policies (recordTransaction tz now st tx) = policies st
  /\ (forall key,
        countOf (spendBuckets (recordTransaction tz now st tx)) key
        = countOf (spendBuckets st) key
          + Z.of_nat (bucketHits tz tx (getPolicies st) key))
  /\ (existsb (fun p => pol_enabled p) (getPolicies st) = true ->
      lastTransactionTime (recordTransaction tz now st tx) !! tx_agentId tx
      = Some now)
  /\ (existsb (fun p => pol_enabled p) (getPolicies st) = false ->
      lastTransactionTime (recordTransaction tz now st tx)
      = lastTransactionTime st)
  /\ (forall agent, agent <> tx_agentId tx ->
      lastTransactionTime (recordTransaction tz now st tx) !! agent
      = lastTransactionTime st !! agent).
Proof.
  unfold recordTransaction.
  destruct (recordPolicies_state tz now tx (getPolicies st) st) as (Hp & Hc & Hl).
  split; [exact Hp|]. split; [exact Hc|]. rewrite Hl.
  destruct (existsb (fun p => pol_enabled p) (getPolicies st)).
  - split; [intros _; apply lookup_insert_eq|]. split; [discriminate|].
    intros agent Hne. apply lookup_insert_ne. congruence.
  - split; [discriminate|]. split; [reflexivity|]. reflexivity.
Qed.




(** ** The map of loaded policies *)

Lemma mapSet_keys {V : Type} (k : string) (v : V) (m : list (string * V)) :
  map fst (mapSet k v m)
  = if mapHas k m then map fst m else (map fst m ++ [k])%list.
Proof.
  unfold mapHas. induction m as [|[k' v'] m IH]; [reflexivity|].
  cbn [mapSet existsb fst]. destruct (String.eqb_spec k' k) as [->|Hne].
  - reflexivity.
  - cbn [map fst orb]. rewrite IH.
    destruct (existsb (fun kv => String.eqb (fst kv) k) m); reflexivity.
Qed.

Lemma mapHas_In {V : Type} (k : string) (m : list (string * V)) :
  mapHas k m = true <-> In k (map fst m).
Proof.
  unfold mapHas. rewrite existsb_exists, in_map_iff. split.
  - intros ([k' v] & Hin & E). apply String.eqb_eq in E. exists (k', v).
    split; [exact E | exact Hin].
  - intros ([k' v] & E & Hin). exists (k', v). split; [exact Hin|].
    apply String.eqb_eq. exact E.
Qed.

Lemma mapSet_In {V : Type} (k : string) (v : V) (m : list (string * V))
  (k' : string) (v' : V) :
  NoDup (map fst m) ->
  (In (k', v') (mapSet k v m)
   <-> (k' = k /\ v' = v) \/ (k' <> k /\ In (k', v') m)).
Proof.
  induction m as [|[k0 v0] m IH]; cbn [mapSet map fst]; intros Hnd.
  - cbn [In]. split.
    + intros [[= <- <-]|[]]. left. split; reflexivity.
    + intros [[-> ->]|[_ []]]. left. reflexivity.
  - apply NoDup_cons in Hnd as [Hnotin Hnd].
    destruct (String.eqb_spec k0 k) as [->|Hne]; cbn [In].
    + split.
      * intros [[= <- <-]|Hin]; [left; split; reflexivity|].
        destruct (String.eqb_spec k' k) as [->|Hk].
        -- exfalso. apply Hnotin. apply list_elem_of_In, in_map_iff.
           exists (k, v'). split; [reflexivity | exact Hin].
        -- right. split; [exact Hk | right; exact Hin].
      * intros [[-> ->]|[Hk [[= E _]|Hin]]];
          [left; reflexivity | congruence | right; exact Hin].
    + rewrite (IH Hnd). split.
      * intros [[= <- <-]|[H|[H1 H2]]].
        -- right. split; [exact Hne | left; reflexivity].
        -- left. exact H.
        -- right. split; [exact H1 | right; exact H2].
      * intros [H|[H1 [H2|H2]]].
        -- right. left. exact H.
        -- left. exact H2.
        -- right. right. split; assumption.
Qed.

Lemma mapSet_In_new {V : Type} (k : string) (v : V) (m : list (string * V)) :
  In (k, v) (mapSet k v m).
Proof.
  induction m as [|[k0 v0] m IH]; cbn [mapSet]; [left; reflexivity|].
  destruct (String.eqb k0 k); [left; reflexivity | right; exact IH].
Qed.

Lemma mapSet_In_old {V : Type} (k : string) (v : V) (m : list (string * V))
  (k' : string) (v' : V) :
  k' <> k -> In (k', v') m -> In (k', v') (mapSet k v m).
Proof.
  intros Hne. induction m as [|[k0 v0] m IH]; cbn [mapSet]; [intros []|].
  destruct (String.eqb_spec k0 k) as [->|Hk].
  - intros [[= <- <-]|Hin]; [contradiction | right; exact Hin].
  - intros [E|Hin]; [left; exact E | right; exact (IH Hin)].
Qed.

Lemma mapDelete_In {V : Type} (k : string) (m : list (string * V))
  (k' : string) (v' : V) :
  In (k', v') (mapDelete k m) <-> In (k', v') m /\ k' <> k.
Proof.
  unfold mapDelete. rewrite filter_In. cbn [fst].
  destruct (String.eqb_spec k' k); cbn [negb]; intuition congruence.
Qed.

Lemma performCall_keyed (st : State) (c : PolicyCall) :
  policiesKeyed st -> policiesKeyed (performCall st c).
Proof.
  intros [Hnd Hk]. destruct c as [policy|policyId]; cbn [performCall].
  - unfold loadPolicy. split; cbn [policies].
    + rewrite mapSet_keys. destruct (mapHas (pol_id policy) (policies st)) eqn:E;
        [exact Hnd|].
      apply NoDup_app. split; [exact Hnd|]. split; [|apply NoDup_singleton].
      intros x Hx Hx'. apply list_elem_of_singleton in Hx'. subst x.
      apply list_elem_of_In in Hx. apply mapHas_In in Hx. congruence.
    + intros k p Hin. apply (mapSet_In _ _ _ _ _ Hnd) in Hin as [[-> ->]|[_ H]];
        [reflexivity | exact (Hk _ _ H)].
  - unfold removePolicy. cbn [snd]. split; cbn [policies].
    + unfold mapDelete. clear Hk. induction (policies st) as [|[k v] m IH];
        [constructor|].
      cbn [map fst] in Hnd. apply NoDup_cons in Hnd as [Hnotin Hnd].
      cbn [List.filter fst]. destruct (negb (String.eqb k policyId));
        [|exact (IH Hnd)].
      cbn [map fst]. apply NoDup_cons. split; [|exact (IH Hnd)].
      intros Hin. apply Hnotin. apply list_elem_of_In in Hin.
      apply in_map_iff in Hin as ([k' v'] & E & Hin). cbn [fst] in E. subst k'.
      apply filter_In in Hin as [Hin _]. apply list_elem_of_In.
      apply in_map_iff. exists (k, v'). split; [reflexivity | exact Hin].
    + intros k p Hin. apply mapDelete_In in Hin as [Hin _]. exact (Hk _ _ Hin).
Qed.

Lemma calls_keyed (calls : list PolicyCall) :
  policiesKeyed (fold_left performCall calls init).
Proof.
  induction calls as [|c calls IH] using rev_ind.
  - split; [constructor | intros k p []].
  - rewrite fold_left_app. cbn [fold_left]. apply performCall_keyed, IH.
Qed.

(** X8.  After any sequence of [loadPolicy] and [removePolicy] calls
    on a new engine no two loaded policies share an id.  Loading a
    policy makes it one of the loaded policies, replacing the one with
    the same id if there was one and keeping all others;
    [removePolicy] answers true exactly when a policy with that id was
    loaded and leaves exactly the policies with other ids. *)
Theorem loadPolicy_removePolicy_spec (calls : list PolicyCall)
  (policy : SpendPolicy) (policyId : string) :
  let st := fold_left performCall calls init in
  NoDup (map pol_id (getPolicies st))
  /\ (forall q, In q (getPolicies (loadPolicy st policy))
        <-> q = policy \/ (In q (getPolicies st) /\ pol_id q <> pol_id policy))
  /\ (fst (removePolicy st policyId) = true
      <-> exists q, In q (getPolicies st) /\ pol_id q = policyId)
  /\ (forall q, In q (getPolicies (snd (removePolicy st policyId)))
        <-> In q (getPolicies st) /\ pol_id q <> policyId).
Proof.
  cbv zeta. pose proof (calls_keyed calls) as [Hnd Hk].
  set (st := fold_left performCall calls init) in *.
  assert (Hget : forall s q, In q (getPolicies s) <-> exists k, In (k, q) (policies s)).
  { intros s q. unfold getPolicies. rewrite in_map_iff. split.
    - intros ([k q'] & E & Hin). cbn [snd] in E. subst q'. exists k. exact Hin.
    - intros (k & Hin). exists (k, q). split; [reflexivity | exact Hin]. }
  split; [|split; [|split]].
  - assert (E : map pol_id (getPolicies st) = map fst (policies st)).
    { unfold getPolicies. rewrite map_map. apply map_ext_in.
      intros [k p] Hin. cbn [fst snd]. symmetry. exact (Hk k p Hin). }
    rewrite E. exact Hnd.
  - intros q. rewrite !Hget. unfold loadPolicy. cbn [policies]. split.
    + intros (k & Hin).
      apply (mapSet_In _ _ _ _ _ Hnd) in Hin as [[_ ->]|[Hne H]].
      * left. reflexivity.
      * right. split; [exists k; exact H|]. rewrite <- (Hk k q H). exact Hne.
    + intros [->|[(k & Hin) Hne]].
      * exists (pol_id policy). apply mapSet_In_new.
      * exists k. apply mapSet_In_old; [|exact Hin].
        rewrite (Hk k q Hin). exact Hne.
  - unfold removePolicy. cbn [fst]. rewrite mapHas_In. split.
    + intros Hin. apply in_map_iff in Hin as ([k q] & E & Hin).
      cbn [fst] in E. subst k. exists q. split.
      * apply Hget. exists policyId. exact Hin.
      * symmetry. exact (Hk _ _ Hin).
    + intros (q & Hin & E). apply Hget in Hin as (k & Hin).
      apply in_map_iff. exists (k, q). split; [|exact Hin].
      cbn [fst]. rewrite (Hk k q Hin). exact E.
  - intros q. rewrite !Hget. unfold removePolicy. cbn [snd policies]. split.
    + intros (k & Hin). apply mapDelete_In in Hin as [Hin Hne].
      split; [exists k; exact Hin|]. rewrite <- (Hk k q Hin). exact Hne.
    + intros [(k & Hin) Hne]. exists k. apply mapDelete_In.
      split; [exact Hin|]. rewrite (Hk k q Hin). exact Hne.
Qed.


End PolicyMore.

(* ===================================================================== *)
(** * Further properties of the spend tracker                             *)
(* ===================================================================== *)
Section TrackerMore.
Import SpendTracker.

(** X9.  [record] followed by [get]: the recorded transaction is what
    [get] returns for its id, every other id reads as before, and
    recording the same transaction a second time changes nothing at
    all, indices and chronological list included. *)
Theorem record_get_idempotent (st : State) (tx : AgentTransaction) :
  get (record st tx) (tx_id tx) = Some tx
  /\ (forall id, id <> tx_id tx -> get (record st tx) id = get st id)
  /\ record (record st tx) tx = record st tx.
Proof.
  assert (E : transactions (record st tx) = <[tx_id tx := tx]> (transactions st)).
  { unfold record. destruct (negb _); reflexivity. }
  unfold get. rewrite E. split; [apply lookup_insert_eq|].
  split; [intros id Hne; apply lookup_insert_ne; congruence|].
  assert (Hseen : is_Some (transactions (record st tx) !! tx_id tx)).
  { rewrite E, lookup_insert_eq. eexists; reflexivity. }
  rewrite (record_update _ _ Hseen), E, insert_insert_eq.
  unfold record. destruct (negb _); reflexivity.
Qed.

Lemma record_size (st : State) (tx : AgentTransaction) :
  size (record st tx)
  = if bool_decide (is_Some (transactions st !! tx_id tx))
    then size st else S (size st).
Proof.
  unfold size. destruct (transactions st !! tx_id tx) as [old|] eqn:E.
  - rewrite bool_decide_eq_true_2 by (eexists; reflexivity).
    rewrite record_update by (rewrite E; eexists; reflexivity).
    cbn [transactions]. apply map_size_insert_Some. rewrite E. eexists; reflexivity.
  - rewrite bool_decide_eq_false_2 by (intros [x Hx]; discriminate).
    rewrite record_new by exact E. cbn [transactions].
    apply map_size_insert_None. exact E.
Qed.

(** X10.  The tracker's [size] counts distinct ids: a first recording
    of an id raises it by one, a re-recording leaves it, and after any
    sequence of [record] calls it is the length of the chronological
    list. *)
Theorem size_counts_ids (txs : list AgentTransaction) (tx : AgentTransaction) :
  let st := replay txs in
  size st = length (chronological st)
  /\ (get st (tx_id tx) = None -> size (record st tx) = S (size st))
  /\ (is_Some (get st (tx_id tx)) -> size (record st tx) = size st).
Proof.
  cbv zeta. split; [|split].
  - induction txs as [|t txs IH] using rev_ind; [reflexivity|].
    rewrite replay_snoc, record_size.
    destruct (transactions (replay txs) !! tx_id t) as [old|] eqn:E.
    + rewrite bool_decide_eq_true_2 by (eexists; reflexivity).
      rewrite record_update by (rewrite E; eexists; reflexivity).
      cbn [chronological]. exact IH.
    + rewrite bool_decide_eq_false_2 by (intros [x Hx]; discriminate).
      rewrite record_new by exact E. cbn [chronological].
      rewrite length_app, IH. cbn [length]. lia.
  - unfold get. intros E. rewrite record_size.
    rewrite bool_decide_eq_false_2; [reflexivity|].
    rewrite E. intros [x Hx]. discriminate.
  - unfold get. intros E. rewrite record_size.
    rewrite bool_decide_eq_true_2 by exact E. reflexivity.
Qed.

End TrackerMore.

(* ===================================================================== *)
(** * Further properties of the dispute manager and the provenance log    *)
(* ===================================================================== *)
Section DisputeMore.
Import DisputeManager.

(** X11.  While the dispute the per-transaction index names is not
    closed, [file] for that transaction throws, naming the active
    dispute and the transaction, and changes nothing. *)
Theorem file_rejects_active (newId now : string) (input : FileDisputeInput)
  (st : State) (existing : string) (d : DisputeCase) :
  byTransaction st !! in_transactionId input = Some existing ->
  existing <> "" ->
  get st existing = Some d ->
  isClosed (dsp_status d) = false ->
  file newId now input st
  = (Throw (concat_str ["Active dispute "; existing;
                        " already exists for transaction ";
                        in_transactionId input]), st).
Proof.
  intros Hidx Hne Hget Hopen. unfold file. rewrite Hidx, Hget, Hopen.
  destruct existing; [congruence|]. reflexivity.
Qed.

Lemma file_rejects_active_witness :
  file "dsp_2" "2026-01-04T00:00:00.000Z" Samples.disputeInput Samples.filedOnce
  = (Throw "Active dispute dsp_1 already exists for transaction tx-1",
     Samples.filedOnce).
Proof.
  refine (file_rejects_active "dsp_2" "2026-01-04T00:00:00.000Z"
            Samples.disputeInput Samples.filedOnce "dsp_1" _ eq_refl _ eq_refl eq_refl).
  discriminate.
Defined.

(** X12.  [addEvidence], [updateStatus] and [resolve] on an id that
    names no dispute throw "Dispute <id> not found" and change
    nothing; [get] of that id is absent. *)
Theorem unknown_dispute_throws (now id : string) (st : State)
  (evidence : DisputeEvidence) (status : DisputeStatus)
  (liability : LiabilityAttribution) (resolvedAmount : option Z) :
  get st id = None ->
  addEvidence now id evidence st
  = (Throw (concat_str ["Dispute "; id; " not found"]), st)
  /\ updateStatus now id status st
     = (Throw (concat_str ["Dispute "; id; " not found"]), st)
  /\ resolve now id status liability resolvedAmount st
     = (Throw (concat_str ["Dispute "; id; " not found"]), st).
Proof.
  intros H. unfold addEvidence, updateStatus, resolve. rewrite H.
  repeat split.
Qed.

Lemma unknown_dispute_throws_witness :
  addEvidence "2026-01-03T00:00:00.000Z" "dsp_9" Samples.statement
    Samples.filedOnce
  = (Throw "Dispute dsp_9 not found", Samples.filedOnce).
Proof.
  refine (proj1 (unknown_dispute_throws "2026-01-03T00:00:00.000Z" "dsp_9"
                   Samples.filedOnce Samples.statement open agent None eq_refl)).
Defined.

(** X13.  On a dispute that is not closed [addEvidence] succeeds: the
    new evidence goes to the end of the dispute's evidence list, the
    update time is stamped, every other field and every other dispute
    stay as they were, no listener is called and the indices are
    untouched. *)
Theorem addEvidence_appends (now id : string) (st : State) (d : DisputeCase)
  (evidence : DisputeEvidence) :
  get st id = Some d ->
  isClosed (dsp_status d) = false ->
  exists d' st',
    addEvidence now id evidence st = (Return tt, st')
    /\ get st' id = Some d'
    /\ dsp_evidence d' = (dsp_evidence d ++ [evidence])%list
    /\ dsp_updatedAt d' = now
    /\ dsp_status d' = dsp_status d /\ dsp_id d' = dsp_id d
    /\ dsp_transactionId d' = dsp_transactionId d
    /\ dsp_createdAt d' = dsp_createdAt d
    /\ (forall other, other <> id -> get st' other = get st other)
    /\ notified st' = notified st
    /\ byTransaction st' = byTransaction st /\ byAgent st' = byAgent st.
Proof.
  intros Hget Hopen. unfold addEvidence. rewrite Hget, Hopen.
  eexists. eexists. split; [reflexivity|].
  rewrite get_setDisputes, mapGet_mapSet_eq. split; [reflexivity|].
  repeat split.
  intros other Hne. rewrite get_setDisputes. apply mapGet_mapSet_ne. congruence.
Qed.

Lemma addEvidence_appends_witness :
  exists st',
    addEvidence "2026-01-03T00:00:00.000Z" "dsp_1" Samples.statement
      Samples.filedOnce = (Return tt, st')
    /\ option_map dsp_evidence (get st' "dsp_1") = Some [Samples.statement].
Proof.
  destruct (addEvidence_appends "2026-01-03T00:00:00.000Z" "dsp_1"
              Samples.filedOnce _ Samples.statement eq_refl eq_refl)
    as (d' & st' & Hadd & Hget & Hev & _).
  exists st'. split; [exact Hadd|]. rewrite Hget. cbn [option_map].
  rewrite Hev. reflexivity.
Defined.

(** X14.  [resolve] and [updateStatus] on an existing dispute:
    [resolve] stores the given status, liability and resolved amount
    and stamps both the resolution and the update time; either call
    then calls every registered listener exactly once, in
    registration order, with the updated dispute and the status it
    had before; other disputes are not touched. *)
Theorem status_change_notifies (now id : string) (st : State) (d : DisputeCase)
  (status : DisputeStatus) (liability : LiabilityAttribution)
  (resolvedAmount : option Z) :
  get st id = Some d ->
  (exists d' st',
     resolve now id status liability resolvedAmount st = (Return d', st')
     /\ get st' id = Some d'
     /\ dsp_status d' = status /\ dsp_liability d' = liability
     /\ dsp_resolvedAmount d' = resolvedAmount
     /\ dsp_resolvedAt d' = Some now /\ dsp_updatedAt d' = now
     /\ notified st'
        = (notified st
           ++ map (fun l => mkNote l d' (dsp_status d)) (listeners st))%list
     /\ (forall other, other <> id -> get st' other = get st other))
  /\ (exists d' st',
        updateStatus now id status st = (Return tt, st')
        /\ get st' id = Some d'
        /\ dsp_status d' = status /\ dsp_liability d' = dsp_liability d
        /\ dsp_resolvedAt d' = dsp_resolvedAt d /\ dsp_updatedAt d' = now
        /\ notified st'
           = (notified st
              ++ map (fun l => mkNote l d' (dsp_status d)) (listeners st))%list
        /\ (forall other, other <> id -> get st' other = get st other)).
Proof.
  intros Hget. split.
  - unfold resolve. rewrite Hget. eexists. eexists. split; [reflexivity|].
    rewrite get_notifyListeners, get_setDisputes, mapGet_mapSet_eq.
    split; [reflexivity|]. repeat split.
    intros other Hne. rewrite get_notifyListeners, get_setDisputes.
    apply mapGet_mapSet_ne. congruence.
  - unfold updateStatus. rewrite Hget. eexists. eexists. split; [reflexivity|].
    rewrite get_notifyListeners, get_setDisputes, mapGet_mapSet_eq.
    split; [reflexivity|]. repeat split.
    intros other Hne. rewrite get_notifyListeners, get_setDisputes.
    apply mapGet_mapSet_ne. congruence.
Qed.

Lemma status_change_notifies_witness :
  exists d' st',
    resolve "2026-01-02T00:00:00.000Z" "dsp_1" resolved_refunded
      service_provider (Some 25) Samples.filedOnce = (Return d', st')
    /\ dsp_resolvedAt d' = Some "2026-01-02T00:00:00.000Z".
Proof.
  destruct (status_change_notifies "2026-01-02T00:00:00.000Z" "dsp_1"
              Samples.filedOnce _ resolved_refunded service_provider (Some 25)
              eq_refl)
    as [(d' & st' & Hres & _ & _ & _ & _ & Hat & _) _].
  exists d', st'. split; [exact Hres | exact Hat].
Defined.

Lemma getChain_addRecord (st : TransactionProvenance.State) (txId txId' : string)
  (r : TransactionProvenance.ProvenanceRecord) :
  TransactionProvenance.getChain
    (snd (TransactionProvenance.addRecord st txId r)) txId'
  = if String.eqb txId txId'
    then (TransactionProvenance.getChain st txId ++ [r])%list
    else TransactionProvenance.getChain st txId'.
Proof.
  unfold TransactionProvenance.addRecord, TransactionProvenance.getChain.
  cbn [snd TransactionProvenance.chains].
  destruct (String.eqb_spec txId txId') as [->|Hne].
  - rewrite lookup_insert_eq. reflexivity.
  - rewrite lookup_insert_ne by exact Hne. reflexivity.
Qed.

(** X15.  [file] for a transaction the index does not know: it
    succeeds with an open dispute of undetermined liability stamped
    with the current time, stored under the generated id, entered in
    the per-transaction index and in the agent's set.  Without a
    provenance log the evidence is the caller's; with one, the
    transaction's chain gains exactly one pending [dispute] record
    carrying the dispute id, other chains are untouched, and the
    evidence is the caller's preceded, when the chain was not empty,
    by one [transaction_log] item referring to that chain. *)
Theorem file_new_transaction (newId now : string) (input : FileDisputeInput)
  (st : State) :
  byTransaction st !! in_transactionId input = None ->
  exists new st',
    file newId now input st = (Return new, st')
    /\ dsp_id new = newId /\ dsp_status new = open
    /\ dsp_liability new = undetermined
    /\ dsp_transactionId new = in_transactionId input
    /\ dsp_agentId new = in_agentId input
    /\ dsp_requestedAmount new = in_requestedAmount input
    /\ dsp_createdAt new = now /\ dsp_updatedAt new = now
    /\ dsp_resolvedAt new = None
    /\ get st' newId = Some new
    /\ byTransaction st' !! in_transactionId input = Some newId
    /\ (exists ids, byAgent st' !! in_agentId input = Some ids /\ In newId ids)
    /\ notified st' = notified st
    /\ (provenance st = None ->
        provenance st' = None
        /\ dsp_evidence new = default [] (in_evidence input))
    /\ (forall prov, provenance st = Some prov ->
        exists prov' r,
          provenance st' = Some prov'
          /\ TransactionProvenance.getChain prov' (in_transactionId input)
             = (TransactionProvenance.getChain prov (in_transactionId input)
                ++ [r])%list
          /\ TransactionProvenance.pr_stage r = TransactionProvenance.dispute
          /\ TransactionProvenance.pr_outcome r = TransactionProvenance.pending
          /\ TransactionProvenance.pr_timestamp r = now
          /\ jsGet (TransactionProvenance.pr_details r) "disputeId" = JStr newId
          /\ (forall other, other <> in_transactionId input ->
                TransactionProvenance.getChain prov' other
                = TransactionProvenance.getChain prov other)
          /\ dsp_evidence new
             = ((match TransactionProvenance.getChain prov (in_transactionId input) with
                 | [] => []
                 | chain =>
                     [mkEvidence transaction_log
                        (concat_str ["Transaction provenance chain (";
                                     showZ (Z.of_nat (length chain)); " records)"])
                        (ChainOf (in_transactionId input)) now]
                 end) ++ default [] (in_evidence input))%list).
Proof.
  intros Hidx. unfold file. rewrite Hidx.
  eexists. eexists. split; [reflexivity|].
  cbn [dsp_id dsp_status dsp_liability dsp_transactionId dsp_agentId
       dsp_requestedAmount dsp_createdAt dsp_updatedAt dsp_resolvedAt
       dsp_evidence byTransaction byAgent notified provenance].
  do 9 (split; [reflexivity|]).
  split; [unfold get; cbn [disputes]; apply mapGet_mapSet_eq|].
  split; [apply lookup_insert_eq|].
  split.
  { eexists. split; [apply lookup_insert_eq|]. unfold setAdd.
    destruct (includes (default [] (byAgent st !! in_agentId input)) newId) eqn:E.
    - unfold includes in E. apply existsb_exists in E as (x & Hx & Ex).
      apply String.eqb_eq in Ex. subst x. exact Hx.
    - apply in_or_app. right. left. reflexivity. }
  split; [reflexivity|]. split.
  - intros Hnone. rewrite Hnone. split; [reflexivity|].
    cbn [app]. destruct (in_evidence input); reflexivity.
  - intros prov Hprov. rewrite Hprov. eexists. eexists.
    split; [reflexivity|].
    unfold TransactionProvenance.recordDispute.
    split; [rewrite getChain_addRecord, String.eqb_refl; reflexivity|].
    do 4 (split; [reflexivity|]). split.
    + intros other Hne. rewrite getChain_addRecord.
      destruct (String.eqb_spec (in_transactionId input) other); [congruence|].
      reflexivity.
    + destruct (in_evidence input);
        destruct (TransactionProvenance.getChain prov (in_transactionId input))
          as [|r0 chain]; reflexivity.
Qed.

Lemma file_new_transaction_witness :
  exists new st',
    file "dsp_1" "2026-01-01T00:00:00.000Z" Samples.disputeInput (init None)
    = (Return new, st')
    /\ getByTransaction st' "tx-1" = Some new.
Proof.
  destruct (file_new_transaction "dsp_1" "2026-01-01T00:00:00.000Z"
              Samples.disputeInput (init None) eq_refl)
    as (new & st' & Hfile & _ & _ & _ & _ & _ & _ & _ & _ & _ & Hget & Hby & _).
  exists new, st'. split; [exact Hfile|].
  unfold getByTransaction. cbn [in_transactionId Samples.disputeInput] in Hby.
  rewrite Hby. exact Hget.
Defined.

(** ** Statistics and queries *)



Lemma sliceTo_In {A : Type} (n : Z) (l : list A) (x : A) :
  In x (sliceTo n l) -> In x l.
Proof.
  unfold sliceTo. destruct (0 <=? n); intros H.
  - rewrite <- (firstn_skipn (Z.to_nat n) l). apply in_or_app. left. exact H.
  - rewrite <- (firstn_skipn (length l - Z.to_nat (- n)) l).
    apply in_or_app. left. exact H.
Qed.

Lemma sortCmp_length {A : Type} (cmp : A -> A -> Z) (l : list A) :
  length (sortCmp cmp l) = length l.
Proof.
  induction l as [|x l IH]; [reflexivity|]. cbn [sortCmp length]. rewrite <- IH.
  generalize (sortCmp cmp l). intros s. induction s as [|y s IHs]; [reflexivity|].
  cbn [insertCmp]. destruct (cmp x y <=? 0); cbn [length]; [reflexivity|].
  rewrite IHs. reflexivity.
Qed.

(** X17.  Every dispute [query] returns is a stored dispute that
    passes each filter set (status, agent, transaction, liability;
    an empty-string agent or transaction filter does not filter), and
    with a positive limit it returns at most that many disputes. *)
Theorem query_sound (st : State) (filter : DisputeFilter) :
  (forall d, In d (query st filter) ->
     In d (map snd (disputes st)) /\ passesFilter filter d)
  /\ (forall n, f_limit filter = Some n -> 0 < n ->
        Z.of_nat (length (query st filter)) <= n).
Proof.
  unfold query.
  set (r1 := match f_status filter with
             | Some s => List.filter (fun d => DisputeStatus_eqb (dsp_status d) s)
                           (map snd (disputes st))
             | None => map snd (disputes st)
             end).
  set (r2 := match f_agentId filter with
             | Some a => if truthy_str a
                         then List.filter (fun d => String.eqb (dsp_agentId d) a) r1
                         else r1
             | None => r1
             end).
  set (r3 := match f_transactionId filter with
             | Some t => if truthy_str t
                         then List.filter (fun d => String.eqb (dsp_transactionId d) t) r2
                         else r2
             | None => r2
             end).
  set (r4 := match f_liability filter with
             | Some l => List.filter (fun d => Liability_eqb (dsp_liability d) l) r3
             | None => r3
             end).
  set (sorted := sortCmp (fun a b => localeCompare (dsp_createdAt b) (dsp_createdAt a)) r4).
  assert (H1 : forall d, In d r1 -> In d (map snd (disputes st))
               /\ forall s, f_status filter = Some s -> dsp_status d = s).
  { subst r1. intros d. destruct (f_status filter) as [s|].
    - rewrite filter_In. intros [Hin E]. split; [exact Hin|].
      intros s' [= <-]. destruct (dsp_status d), s; (reflexivity || discriminate).
    - intros Hin. split; [exact Hin | discriminate]. }
  assert (H2 : forall d, In d r2 -> In d r1
               /\ forall a, f_agentId filter = Some a -> a <> "" -> dsp_agentId d = a).
  { subst r2. intros d. destruct (f_agentId filter) as [a|].
    - destruct a as [|c a]; cbn [truthy_str].
      + intros Hin. split; [exact Hin|]. intros a' [= <-] Hne. congruence.
      + rewrite filter_In. intros [Hin E]. split; [exact Hin|].
        intros a' [= <-] _. apply String.eqb_eq. exact E.
    - intros Hin. split; [exact Hin | discriminate]. }
  assert (H3 : forall d, In d r3 -> In d r2
               /\ forall t, f_transactionId filter = Some t -> t <> ""
                            -> dsp_transactionId d = t).
  { subst r3. intros d. destruct (f_transactionId filter) as [t|].
    - destruct t as [|c t]; cbn [truthy_str].
      + intros Hin. split; [exact Hin|]. intros t' [= <-] Hne. congruence.
      + rewrite filter_In. intros [Hin E]. split; [exact Hin|].
        intros t' [= <-] _. apply String.eqb_eq. exact E.
    - intros Hin. split; [exact Hin | discriminate]. }
  assert (H4 : forall d, In d r4 -> In d r3
               /\ forall l, f_liability filter = Some l -> dsp_liability d = l).
  { subst r4. intros d. destruct (f_liability filter) as [l|].
    - rewrite filter_In. intros [Hin E]. split; [exact Hin|].
      intros l' [= <-]. destruct (dsp_liability d), l; (reflexivity || discriminate).
    - intros Hin. split; [exact Hin | discriminate]. }
  assert (Hs : forall d, In d sorted -> In d r4)
    by (intros d; subst sorted; apply sortCmp_In).
  split.
  - intros d Hin.
    assert (Hd : In d sorted).
    { destruct (f_limit filter) as [n|]; [|exact Hin].
      destruct (n =? 0); [exact Hin | exact (sliceTo_In _ _ _ Hin)]. }
    apply Hs in Hd. destruct (H4 d Hd) as [Hd3 F4]. destruct (H3 d Hd3) as [Hd2 F3].
    destruct (H2 d Hd2) as [Hd1 F2]. destruct (H1 d Hd1) as [Hd0 F1].
    split; [exact Hd0|]. unfold passesFilter. repeat split; assumption.
  - intros n Hn Hpos. rewrite Hn.
    destruct (Z.eqb_spec n 0); [lia|]. unfold sliceTo.
    destruct (Z.leb_spec 0 n); [|lia].
    rewrite length_firstn. lia.
Qed.

(** ** The provenance log *)

Lemma call_returned (st : TransactionProvenance.State)
  (c : TransactionProvenance.Call) :
  TransactionProvenance.call st c
  = TransactionProvenance.addRecord st (TransactionProvenance.callTx c)
      (TransactionProvenance.returned c).
Proof. destruct c; reflexivity. Qed.

Lemma returned_fields (c : TransactionProvenance.Call) :
  TransactionProvenance.pr_transactionId (TransactionProvenance.returned c)
  = TransactionProvenance.callTx c
  /\ TransactionProvenance.pr_stage (TransactionProvenance.returned c)
     = TransactionProvenance.callStage c.
Proof. destruct c; split; reflexivity. Qed.

Lemma perform_chain (st : TransactionProvenance.State)
  (c : TransactionProvenance.Call) (txId : string) :
  TransactionProvenance.getChain (TransactionProvenance.perform st c) txId
  = if String.eqb (TransactionProvenance.callTx c) txId
    then (TransactionProvenance.getChain st txId
          ++ [TransactionProvenance.returned c])%list
    else TransactionProvenance.getChain st txId.
Proof.
  unfold TransactionProvenance.perform. rewrite call_returned, getChain_addRecord.
  destruct (String.eqb_spec (TransactionProvenance.callTx c) txId) as [->|];
    reflexivity.
Qed.

Lemma perform_all_chain (calls : list TransactionProvenance.Call)
  (st : TransactionProvenance.State) (txId : string) :
  TransactionProvenance.getChain (fold_left TransactionProvenance.perform calls st)
    txId
  = (TransactionProvenance.getChain st txId
     ++ map TransactionProvenance.returned
          (List.filter (fun c => String.eqb (TransactionProvenance.callTx c) txId)
             calls))%list.
Proof.
  revert st. induction calls as [|c calls IH]; intros st.
  - cbn. rewrite app_nil_r. reflexivity.
  - cbn [fold_left List.filter]. rewrite IH, perform_chain.
    destruct (String.eqb (TransactionProvenance.callTx c) txId); [|reflexivity].
    cbn [map]. rewrite <- app_assoc. reflexivity.
Qed.

(** X18.  The provenance log only grows, at the end: after any
    sequence of recording calls the chain of a transaction is its
    earlier chain followed by the records those calls returned for
    that transaction, in call order; each call returns the record it
    appended, filed under the call's transaction with the call's
    stage, and [getLastStage] after a call is that record. *)
Theorem provenance_append_only (calls : list TransactionProvenance.Call)
  (st : TransactionProvenance.State) (txId : string)
  (c : TransactionProvenance.Call) :
  TransactionProvenance.getChain (fold_left TransactionProvenance.perform calls st)
    txId
  = (TransactionProvenance.getChain st txId
     ++ map TransactionProvenance.returned
          (List.filter (fun c => String.eqb (TransactionProvenance.callTx c) txId)
             calls))%list
  /\ fst (TransactionProvenance.call st c) = TransactionProvenance.returned c
  /\ TransactionProvenance.pr_transactionId (TransactionProvenance.returned c)
     = TransactionProvenance.callTx c
  /\ TransactionProvenance.pr_stage (TransactionProvenance.returned c)
     = TransactionProvenance.callStage c
  /\ TransactionProvenance.getLastStage (TransactionProvenance.perform st c)
       (TransactionProvenance.callTx c)
     = Some (TransactionProvenance.returned c).
Proof.
  split; [apply perform_all_chain|]. split; [rewrite call_returned; reflexivity|].
  split; [apply returned_fields|]. split; [apply returned_fields|].
  unfold TransactionProvenance.getLastStage, TransactionProvenance.perform.
  rewrite call_returned. unfold TransactionProvenance.addRecord.
  cbn [snd TransactionProvenance.chains]. rewrite lookup_insert_eq.
  apply last_snoc.
Qed.

Lemma hasStage_map (calls : list TransactionProvenance.Call)
  (s : TransactionProvenance.Stage) :
  TransactionProvenance.hasStage (map TransactionProvenance.returned calls) s = true
  <-> exists c, In c calls /\ TransactionProvenance.callStage c = s.
Proof.
  unfold TransactionProvenance.hasStage. rewrite existsb_exists. split.
  - intros (r & Hin & E). apply in_map_iff in Hin as (c & <- & Hin).
    exists c. split; [exact Hin|]. rewrite (proj2 (returned_fields c)) in E.
    destruct (TransactionProvenance.callStage c), s;
      (reflexivity || discriminate).
  - intros (c & Hin & <-). exists (TransactionProvenance.returned c).
    split; [apply in_map; exact Hin|]. rewrite (proj2 (returned_fields c)).
    destruct (TransactionProvenance.callStage c); reflexivity.
Qed.

(** X19.  On a log built from nothing, [isComplete] of a transaction
    is true exactly when the calls made for it include a
    [recordIntent] and a [recordSettlement] or [recordDispute]; for a
    transaction with no call it is false and [getLastStage] is
    absent. *)
Theorem isComplete_spec (calls : list TransactionProvenance.Call) (txId : string) :
  let log := fold_left TransactionProvenance.perform calls
               TransactionProvenance.empty in
  let mine := List.filter
                (fun c => String.eqb (TransactionProvenance.callTx c) txId) calls in
  (TransactionProvenance.isComplete log txId = true
   <-> (exists c, In c mine
                  /\ TransactionProvenance.callStage c = TransactionProvenance.intent)
       /\ (exists c, In c mine
                     /\ (TransactionProvenance.callStage c
                         = TransactionProvenance.settlement
                         \/ TransactionProvenance.callStage c
                            = TransactionProvenance.dispute)))
  /\ (mine = [] ->
      TransactionProvenance.isComplete log txId = false
      /\ TransactionProvenance.getLastStage log txId = None).
Proof.
  cbv zeta.
  pose proof (perform_all_chain calls TransactionProvenance.empty txId) as Hchain.
  set (log := fold_left TransactionProvenance.perform calls
                TransactionProvenance.empty) in *.
  set (mine := List.filter
                 (fun c => String.eqb (TransactionProvenance.callTx c) txId) calls)
    in *.
  change (TransactionProvenance.getChain TransactionProvenance.empty txId)
    with (default [] ((∅ : gmap string (list TransactionProvenance.ProvenanceRecord))
                        !! txId)) in Hchain.
  rewrite lookup_empty in Hchain.
  change (TransactionProvenance.getChain log txId
          = map TransactionProvenance.returned mine) in Hchain.
  unfold TransactionProvenance.getChain in Hchain.
  assert (Hc : TransactionProvenance.isComplete log txId
               = TransactionProvenance.hasStage
                   (map TransactionProvenance.returned mine)
                   TransactionProvenance.intent
                 && (TransactionProvenance.hasStage
                       (map TransactionProvenance.returned mine)
                       TransactionProvenance.settlement
                     || TransactionProvenance.hasStage
                          (map TransactionProvenance.returned mine)
                          TransactionProvenance.dispute)).
  { unfold TransactionProvenance.isComplete.
    destruct (TransactionProvenance.chains log !! txId) as [chain|];
      change (default [] (Some chain)) with chain in Hchain
      || change (default [] (@None (list TransactionProvenance.ProvenanceRecord)))
           with (@nil TransactionProvenance.ProvenanceRecord) in Hchain;
      rewrite <- Hchain.
    - destruct chain; reflexivity.
    - reflexivity. }
  split.
  - rewrite Hc, andb_true_iff, orb_true_iff, !hasStage_map. split.
    + intros [H1 [(c & Hin & E)|(c & Hin & E)]]; (split; [exact H1|]);
        exists c; (split; [exact Hin|]); [left|right]; exact E.
    + intros [H1 (c & Hin & [E|E])]; (split; [exact H1|]);
        [left|right]; exists c; split; assumption.
  - intros Hnil. rewrite Hc, Hnil. split; [reflexivity|].
    unfold TransactionProvenance.getLastStage.
    destruct (TransactionProvenance.chains log !! txId) as [chain|];
      [|reflexivity].
    change (default [] (Some chain)) with chain in Hchain.
    rewrite Hchain, Hnil. reflexivity.
Qed.

End DisputeMore.

(* ===================================================================== *)
(** * Further properties of the recovery engine                           *)
(* ===================================================================== *)
Section RecoveryMore.
Import RecoveryEngine.

(** X20.  [initiate] refuses, leaving the engine as it was: an
    unknown dispute; a dispute whose status is neither
    resolved_refunded nor resolved_partial; and a dispute that already
    has a recovery which is neither failed nor cancelled. *)
Theorem initiate_rejects (newId now : string) (dm : DisputeManager.State)
  (disputeId : string) (st : State) :
  (DisputeManager.get dm disputeId = None ->
   initiate newId now dm disputeId st
   = (Throw (concat_str ["Dispute "; disputeId; " not found"]), st))
  /\ (forall d, DisputeManager.get dm disputeId = Some d ->
        DisputeManager.dsp_status d <> DisputeManager.resolved_refunded ->
        DisputeManager.dsp_status d <> DisputeManager.resolved_partial ->
        exists message, initiate newId now dm disputeId st = (Throw message, st))
  /\ (forall d existingId existing,
        DisputeManager.get dm disputeId = Some d ->
        byDispute st !! disputeId = Some existingId -> existingId <> "" ->
        actions st !! existingId = Some existing ->
        rcv_status existing <> failed -> rcv_status existing <> cancelled ->
        exists message, initiate newId now dm disputeId st = (Throw message, st)).
Proof.
  split; [|split].
  - intros H. unfold initiate. rewrite H. reflexivity.
  - intros d H H1 H2. unfold initiate. rewrite H.
    destruct (DisputeManager.dsp_status d); try congruence;
      eexists; reflexivity.
  - intros d existingId existing H Hby Hne Hact Hf Hc. unfold initiate.
    rewrite H, Hby, Hact.
    destruct existingId; [congruence|]. cbn [truthy_str].
    destruct (DisputeManager.dsp_status d); try (eexists; reflexivity);
      destruct (rcv_status existing); try congruence; eexists; reflexivity.
Qed.

Lemma wellFormed_init (a b : option Z) : wellFormed (init a b).
Proof.
  split; [|split].
  - intros k x. cbn. rewrite lookup_empty. discriminate.
  - constructor.
  - intros id [].
Qed.

(** X21.  [initiate] for a dispute resolved with a refund that has no
    recovery yet, with a fresh generated id: it returns a pending
    action for the resolved amount (the requested amount when none was
    set), a partial refund for resolved_partial and a full refund
    otherwise, stores it under its id, points the dispute at it and
    puts its id last in the queue; the engine stays well formed
    (actions stored under their own ids, queued ids distinct and
    stored). *)
Theorem initiate_enqueues (newId now : string) (dm : DisputeManager.State)
  (disputeId : string) (st : State) (d : DisputeManager.DisputeCase) :
  DisputeManager.get dm disputeId = Some d ->
  (DisputeManager.dsp_status d = DisputeManager.resolved_refunded
   \/ DisputeManager.dsp_status d = DisputeManager.resolved_partial) ->
  byDispute st !! disputeId = None ->
  actions st !! newId = None ->
  wellFormed st ->
  exists action st',
    initiate newId now dm disputeId st = (Return action, st')
    /\ rcv_id action = newId /\ rcv_disputeId action = disputeId
    /\ rcv_status action = pending
    /\ rcv_amount action
       = default (DisputeManager.dsp_requestedAmount d)
                 (DisputeManager.dsp_resolvedAmount d)
    /\ rcv_type action
       = (if DisputeManager.DisputeStatus_eqb (DisputeManager.dsp_status d)
                DisputeManager.resolved_partial
          then partial_refund else full_refund)
    /\ get st' newId = Some action
    /\ byDispute st' !! disputeId = Some newId
    /\ queue st' = (queue st ++ [newId])%list
    /\ (forall other, other <> newId -> get st' other = get st other)
    /\ maxRetries st' = maxRetries st /\ retryDelayMs st' = retryDelayMs st
    /\ wellFormed st'.
Proof.
  intros Hd Hstatus Hby Hfresh (Hkey & Hnd & Hq).
  unfold initiate. rewrite Hd, Hby.
  assert (Hwf : forall action, rcv_id action = newId ->
            wellFormed (mkState (<[newId := action]> (actions st))
                          (<[disputeId := newId]> (byDispute st))
                          (queue st ++ [newId]) (maxRetries st) (retryDelayMs st))).
  { intros action Hid. split; [|split].
    - intros k x. cbn [actions]. destruct (decide (newId = k)) as [<-|Hne].
      + rewrite lookup_insert_eq. intros [= <-]. exact Hid.
      + rewrite lookup_insert_ne by exact Hne. apply Hkey.
    - cbn [queue]. apply NoDup_app. split; [exact Hnd|].
      split; [|apply NoDup_singleton].
      intros x Hx Hx'. apply list_elem_of_singleton in Hx'. subst x.
      apply list_elem_of_In in Hx. destruct (Hq _ Hx) as [y Hy]. congruence.
    - intros id. cbn [queue actions]. intros Hin.
      apply in_app_or in Hin as [Hin|[<-|[]]].
      + destruct (decide (newId = id)) as [<-|Hne].
        * rewrite lookup_insert_eq. eexists; reflexivity.
        * rewrite lookup_insert_ne by exact Hne. exact (Hq _ Hin).
      + rewrite lookup_insert_eq. eexists; reflexivity. }
  destruct Hstatus as [E|E]; rewrite E; cbn [DisputeManager.DisputeStatus_eqb].
  - eexists. eexists. split; [reflexivity|].
    cbn [rcv_id rcv_disputeId rcv_status rcv_amount rcv_type get actions
         byDispute queue maxRetries retryDelayMs].
    do 5 (split; [reflexivity|]).
    split; [apply lookup_insert_eq|]. split; [apply lookup_insert_eq|].
    split; [reflexivity|].
    split; [intros other Hne; apply lookup_insert_ne; congruence|].
    split; [reflexivity|]. split; [reflexivity|]. apply Hwf. reflexivity.
  - eexists. eexists. split; [reflexivity|].
    cbn [rcv_id rcv_disputeId rcv_status rcv_amount rcv_type get actions
         byDispute queue maxRetries retryDelayMs].
    do 5 (split; [reflexivity|]).
    split; [apply lookup_insert_eq|]. split; [apply lookup_insert_eq|].
    split; [reflexivity|].
    split; [intros other Hne; apply lookup_insert_ne; congruence|].
    split; [reflexivity|]. split; [reflexivity|]. apply Hwf. reflexivity.
Qed.

Lemma initiate_enqueues_witness :
  exists action st',
    initiate "rcv_1" "2026-01-05T00:00:00.000Z" Samples.refundedOnce "dsp_1"
      (init None None) = (Return action, st')
    /\ rcv_amount action = 25
    /\ queue st' = ["rcv_1"].
Proof.
  destruct (initiate_enqueues "rcv_1" "2026-01-05T00:00:00.000Z"
              Samples.refundedOnce "dsp_1" (init None None) _
              eq_refl (or_introl eq_refl) eq_refl eq_refl
              (wellFormed_init None None))
    as (action & st' & Hinit & _ & _ & _ & Hamount & _ & _ & _ & Hq & _).
  exists action, st'. split; [exact Hinit|]. split; [exact Hamount | exact Hq].
Defined.

(** X22.  [cancel] turns a pending action into a cancelled one,
    stamping its update time, and touches nothing else (the queue
    keeps the id and the engine stays well formed); on an action that
    is not pending, or an unknown id, it throws and changes
    nothing. *)
Theorem cancel_pending_only (now recoveryId : string) (st : State) :
  (actions st !! recoveryId = None ->
   cancel now recoveryId st
   = (Throw (concat_str ["Recovery action "; recoveryId; " not found"]), st))
  /\ (forall a, actions st !! recoveryId = Some a -> rcv_status a <> pending ->
        cancel now recoveryId st
        = (Throw (concat_str ["Cannot cancel recovery "; recoveryId;
                              " with status "; dquote;
                              showStatus (rcv_status a); dquote]), st))
  /\ (forall a, actions st !! recoveryId = Some a -> rcv_status a = pending ->
        exists a' st',
          cancel now recoveryId st = (Return a', st')
          /\ get st' recoveryId = Some a'
          /\ rcv_status a' = cancelled /\ rcv_updatedAt a' = now
          /\ rcv_id a' = rcv_id a /\ rcv_amount a' = rcv_amount a
          /\ (forall other, other <> recoveryId -> get st' other = get st other)
          /\ queue st' = queue st /\ byDispute st' = byDispute st
          /\ (wellFormed st -> wellFormed st')).
Proof.
  split; [|split].
  - intros H. unfold cancel. rewrite H. reflexivity.
  - intros a H Hs. unfold cancel. rewrite H.
    destruct (rcv_status a); (congruence || reflexivity).
  - intros a H Hs. unfold cancel. rewrite H, Hs.
    eexists. eexists. split; [reflexivity|].
    cbn [get actions queue byDispute].
    split; [apply lookup_insert_eq|]. do 4 (split; [reflexivity|]).
    split; [intros other Hne; apply lookup_insert_ne; congruence|].
    split; [reflexivity|]. split; [reflexivity|].
    intros (Hkey & Hnd & Hq). split; [|split].
    + intros k x. cbn [actions]. destruct (decide (recoveryId = k)) as [<-|Hne].
      * rewrite lookup_insert_eq. intros [= <-]. exact (Hkey _ _ H).
      * rewrite lookup_insert_ne by exact Hne. apply Hkey.
    + exact Hnd.
    + intros id Hin. cbn [actions]. destruct (decide (recoveryId = id)) as [<-|Hne].
      * rewrite lookup_insert_eq. eexists; reflexivity.
      * rewrite lookup_insert_ne by exact Hne. exact (Hq _ Hin).
Qed.

Variable World : Type.
Variable executor : RecoveryAction -> World -> ExecutorOutcome * World.
Variable clock : World -> string.
Variable sleep : Z -> World -> World.

Lemma retryLoop_id (maxR delay : Z) (remaining : nat) :
  forall (attempt : Z) (action : RecoveryAction) (w : World),
    rcv_id (run_action _ (fst (retryLoop _ executor clock sleep maxR delay
                                 remaining attempt action w)))
    = rcv_id action.
Proof.
  induction remaining as [|remaining IH]; intros attempt action w; [reflexivity|].
  cbn [retryLoop]. destruct (executor action w) as [outcome w1].
  destruct outcome as [[|] refundTxId error|message].
  - reflexivity.
  - specialize (IH (attempt + 1)
                  (setError action (default "Refund execution returned failure" error))
                  (if attempt <? maxR then sleep (delay * attempt) w1 else w1)).
    destruct (retryLoop _ executor clock sleep maxR delay remaining _ _ _)
      as [r returned]. exact IH.
  - specialize (IH (attempt + 1) (setError action message)
                  (if attempt <? maxR then sleep (delay * attempt) w1 else w1)).
    destruct (retryLoop _ executor clock sleep maxR delay remaining _ _ _)
      as [r returned]. exact IH.
Qed.

Lemma executeWithRetry_id (st : State) (action : RecoveryAction) (w : World) :
  rcv_id (run_action _ (executeWithRetry _ executor clock sleep st action w))
  = rcv_id action.
Proof.
  unfold executeWithRetry.
  pose proof (retryLoop_id (maxRetries st) (retryDelayMs st)
                (Z.to_nat (maxRetries st)) 1
                (setStatus action processing (clock w)) w) as H.
  destruct (retryLoop _ executor clock sleep _ _ _ _ _ _) as [r returned].
  destruct returned; exact H.
Qed.

Lemma eventsOf_avoid (id : string) (tr : list Event) :
  (forall e, In e tr -> eventId e <> id) -> eventsOf id tr = [].
Proof.
  intros H. unfold eventsOf. induction tr as [|e tr IH]; [reflexivity|].
  cbn [List.filter]. destruct (String.eqb_spec (eventId e) id) as [E|E].
  - exfalso. exact (H e (or_introl eq_refl) E).
  - apply IH. intros e' He'. apply H. right. exact He'.
Qed.

(** What a run of the queue loop does, entry by entry. *)
Lemma drain_shape (q : list string) :
  forall (st : State) (w : World),
    keyedById st -> NoDup q ->
    queue (qr_state _ (drain _ executor clock sleep q st w)) = []
    /\ maxRetries (qr_state _ (drain _ executor clock sleep q st w)) = maxRetries st
    /\ retryDelayMs (qr_state _ (drain _ executor clock sleep q st w))
       = retryDelayMs st
    /\ byDispute (qr_state _ (drain _ executor clock sleep q st w)) = byDispute st
    /\ map rcv_id (qr_processed _ (drain _ executor clock sleep q st w))
       = List.filter (processable st) q
    /\ keyedById (qr_state _ (drain _ executor clock sleep q st w))
    /\ (forall id, ~ In id (List.filter (processable st) q) ->
          actions (qr_state _ (drain _ executor clock sleep q st w)) !! id
          = actions st !! id
          /\ forall e, In e (qr_trace _ (drain _ executor clock sleep q st w)) ->
                       eventId e <> id)
    /\ (forall id, is_Some (actions st !! id) ->
          is_Some (actions (qr_state _ (drain _ executor clock sleep q st w)) !! id)).
Proof.
  induction q as [|actionId rest IH]; intros st w Hkey Hnd.
  - cbn. repeat split; auto.
  - apply NoDup_cons in Hnd as [Hnotin Hnd]. rewrite list_elem_of_In in Hnotin.
    cbn [drain List.filter].
    destruct (actions st !! actionId) as [action|] eqn:Hact.
    2: { assert (Hp : processable st actionId = false)
           by (unfold processable; rewrite Hact; reflexivity).
         rewrite Hp. exact (IH st w Hkey Hnd). }
    destruct (RecoveryStatus_eqb (rcv_status action) cancelled) eqn:Hc.
    { assert (Hp : processable st actionId = false)
        by (unfold processable; rewrite Hact, Hc; reflexivity).
      rewrite Hp. exact (IH st w Hkey Hnd). }
    assert (Hp : processable st actionId = true)
      by (unfold processable; rewrite Hact, Hc; reflexivity).
    rewrite Hp.
    pose proof (Hkey _ _ Hact) as Hid.
    pose proof (executeWithRetry_id st action w) as Hrid.
    set (r := executeWithRetry _ executor clock sleep st action w) in *.
    set (st' := mkState (<[actionId := run_action _ r]> (actions st))
                  (byDispute st) rest (maxRetries st) (retryDelayMs st)).
    assert (Hkey' : keyedById st')
      by (apply keyedById_insert; [exact Hkey | congruence]).
    destruct (IH st' (run_world _ r) Hkey' Hnd)
      as (Hq & Hm & Hdl & Hbd & Hproc & Hk & Hother & Hsome).
    assert (Hsame : List.filter (processable st') rest
                    = List.filter (processable st) rest).
    { apply filter_ext_in. intros x Hx. unfold processable, st'. cbn [actions].
      rewrite lookup_insert_ne; [reflexivity|]. intros ->. contradiction. }
    cbn [qr_state qr_processed qr_trace map].
    split; [exact Hq|]. split; [exact Hm|]. split; [exact Hdl|].
    split; [exact Hbd|]. split.
    { rewrite Hproc, Hsame, Hrid, Hid. reflexivity. }
    split; [exact Hk|]. split.
    + intros id Hnot.
      assert (Hne : actionId <> id) by (intros ->; apply Hnot; left; reflexivity).
      assert (Hnot' : ~ In id (List.filter (processable st') rest))
        by (rewrite Hsame; intros H; apply Hnot; right; exact H).
      destruct (Hother id Hnot') as [Ha Htr]. split.
      * rewrite Ha. unfold st'. cbn [actions]. apply lookup_insert_ne. exact Hne.
      * intros e He. apply in_app_or in He as [He|He]; [|exact (Htr e He)].
        assert (Hev : eventId e = rcv_id action).
        { clear -He. subst r. unfold executeWithRetry in He.
          assert (H : forall remaining attempt a w0 e,
                    In e (run_trace _ (fst (retryLoop _ executor clock sleep
                            (maxRetries st) (retryDelayMs st) remaining attempt a w0)))
                    -> eventId e = rcv_id a).
          { induction remaining as [|remaining IHr]; intros attempt a w0 e0;
              [intros []|].
            cbn [retryLoop]. destruct (executor a w0) as [outcome w1].
            destruct outcome as [[|] refundTxId error|message].
            - intros [<-|[]]. reflexivity.
            - specialize (IHr (attempt + 1)
                (setError a (default "Refund execution returned failure" error))
                (if attempt <? maxRetries st
                 then sleep (retryDelayMs st * attempt) w1 else w1) e0).
              destruct (retryLoop _ executor clock sleep _ _ remaining _ _ _)
                as [r0 returned]. cbn [fst run_trace] in *.
              intros [<-|H0]; [reflexivity|].
              apply in_app_or in H0 as [H0|H0]; [|exact (IHr H0)].
              destruct (attempt <? maxRetries st); [|destruct H0].
              destruct H0 as [<-|[]]. reflexivity.
            - specialize (IHr (attempt + 1) (setError a message)
                (if attempt <? maxRetries st
                 then sleep (retryDelayMs st * attempt) w1 else w1) e0).
              destruct (retryLoop _ executor clock sleep _ _ remaining _ _ _)
                as [r0 returned]. cbn [fst run_trace] in *.
              intros [<-|H0]; [reflexivity|].
              apply in_app_or in H0 as [H0|H0]; [|exact (IHr H0)].
              destruct (attempt <? maxRetries st); [|destruct H0].
              destruct H0 as [<-|[]]. reflexivity. }
          specialize (H (Z.to_nat (maxRetries st)) 1
                        (setStatus action processing (clock w)) w e).
          destruct (retryLoop _ executor clock sleep _ _ _ _ _ _) as [r0 returned].
          destruct returned; exact (H He). }
        congruence.
    + intros id Hs. apply Hsome. unfold st'. cbn [actions].
      destruct (decide (actionId = id)) as [<-|Hne].
      * rewrite lookup_insert_eq. eexists; reflexivity.
      * rewrite lookup_insert_ne by exact Hne. exact Hs.
Qed.

(** X23.  One [processQueue] run empties the queue and keeps the
    settings and the dispute index.  It processes, in queue order,
    exactly the queued ids that name a stored action which is not
    cancelled; a cancelled action keeps its stored record, is not
    among the processed ones and causes no executor call and no wait.
    The engine stays well formed, and a second run right after does
    nothing. *)
Theorem processQueue_drains (st : State) (w : World) :
  wellFormed st ->
  let run := processQueue _ executor clock sleep st w in
  queue (qr_state _ run) = []
  /\ maxRetries (qr_state _ run) = maxRetries st
  /\ retryDelayMs (qr_state _ run) = retryDelayMs st
  /\ byDispute (qr_state _ run) = byDispute st
  /\ map rcv_id (qr_processed _ run) = List.filter (processable st) (queue st)
  /\ (forall id a, actions st !! id = Some a -> rcv_status a = cancelled ->
        actions (qr_state _ run) !! id = Some a
        /\ eventsOf id (qr_trace _ run) = []
        /\ ~ In id (map rcv_id (qr_processed _ run)))
  /\ wellFormed (qr_state _ run)
  /\ (forall w',
        qr_processed _ (processQueue _ executor clock sleep (qr_state _ run) w') = []
        /\ qr_trace _ (processQueue _ executor clock sleep (qr_state _ run) w') = []).
Proof.
  intros (Hkey & Hnd & Hq) run. subst run. unfold processQueue.
  destruct (drain_shape (queue st) st w Hkey Hnd)
    as (Hqueue & Hm & Hd & Hbd & Hproc & Hk & Hother & Hsome).
  split; [exact Hqueue|]. split; [exact Hm|]. split; [exact Hd|].
  split; [exact Hbd|]. split; [exact Hproc|]. split; [|split].
  - intros id a Ha Hc.
    assert (Hnot : ~ In id (List.filter (processable st) (queue st))).
    { intros Hin. apply filter_In in Hin as [_ Hp]. unfold processable in Hp.
      rewrite Ha, Hc in Hp. discriminate. }
    destruct (Hother id Hnot) as [Hact Htr].
    split; [rewrite Hact; exact Ha|]. split; [|rewrite Hproc; exact Hnot].
    exact (eventsOf_avoid id _ Htr).
  - split; [exact Hk|]. rewrite Hqueue. split; [constructor | intros id []].
  - intros w'. rewrite Hqueue. split; reflexivity.
Qed.

Lemma executeWithRetry_no_retries (st : State) (action : RecoveryAction)
  (w : World) :
  maxRetries st <= 0 ->
  executeWithRetry _ executor clock sleep st action w
  = mkRun _ (setStatus (setStatus action processing (clock w)) failed (clock w))
      w [].
Proof.
  intros Hmax. unfold executeWithRetry.
  assert (E : Z.to_nat (maxRetries st) = O) by lia.
  rewrite E. reflexivity.
Qed.

Lemma drain_no_retries (q : list string) :
  forall (st : State) (w : World),
    maxRetries st <= 0 ->
    qr_trace _ (drain _ executor clock sleep q st w) = []
    /\ qr_world _ (drain _ executor clock sleep q st w) = w
    /\ forall a, In a (qr_processed _ (drain _ executor clock sleep q st w)) ->
                 rcv_status a = failed /\ rcv_updatedAt a = clock w.
Proof.
  induction q as [|actionId rest IH]; intros st w Hmax.
  - cbn. split; [reflexivity|]. split; [reflexivity|]. intros a [].
  - cbn [drain]. destruct (actions st !! actionId) as [action|];
      [|exact (IH st w Hmax)].
    destruct (RecoveryStatus_eqb (rcv_status action) cancelled);
      [exact (IH st w Hmax)|].
    rewrite (executeWithRetry_no_retries st action w Hmax).
    cbn [run_action run_world run_trace qr_trace qr_world qr_processed].
    match goal with
    | |- context [drain _ _ _ _ rest ?s w] =>
        destruct (IH s w Hmax) as (Htr & Hw & Hproc)
    end.
    split; [exact Htr|]. split; [exact Hw|].
    intros a [<-|Ha]; [split; reflexivity | exact (Hproc a Ha)].
Qed.

(** X24.  With [maxRetries] zero or negative the retry loop body never
    runs: one [processQueue] run calls the executor for no action and
    waits for none, and hands back every action it processed with
    status [failed]. *)
Theorem processQueue_no_retries (st : State) (w : World) :
  maxRetries st <= 0 ->
  let run := processQueue _ executor clock sleep st w in
  qr_trace _ run = []
  /\ forall a, In a (qr_processed _ run) -> rcv_status a = failed.
Proof.
  intros Hmax run. subst run. unfold processQueue.
  destruct (drain_no_retries (queue st) st w Hmax) as (Htr & _ & Hproc).
  split; [exact Htr|]. intros a Ha. exact (proj1 (Hproc a Ha)).
Qed.

End RecoveryMore.

Lemma processQueue_drains_witness :
  map RecoveryEngine.rcv_id
    (RecoveryEngine.qr_processed _
       (RecoveryEngine.processQueue _ Samples.flakyExecutor Samples.sampleClock
          Samples.sampleSleep Samples.queuedEngine O))
  = ["rcv_1"; "rcv_2"].
Proof.
  assert (Hwf : RecoveryEngine.wellFormed Samples.queuedEngine).
  { split; [exact queuedEngine_keyedById|]. split.
    - repeat constructor; cbn; intros H; inversion H; subst;
        try discriminate; match goal with H : _ ∈ [] |- _ => inversion H end.
    - intros id [<-|[<-|[]]]; eexists; vm_compute; reflexivity. }
  destruct (processQueue_drains nat Samples.flakyExecutor Samples.sampleClock
              Samples.sampleSleep Samples.queuedEngine O Hwf)
    as (_ & _ & _ & _ & Hproc & _).
  rewrite Hproc. vm_compute. reflexivity.
Defined.

Lemma processQueue_no_retries_witness :
  RecoveryEngine.qr_trace _
    (RecoveryEngine.processQueue _ Samples.flakyExecutor Samples.sampleClock
       Samples.sampleSleep Samples.noRetryEngine O)
  = [].
Proof.
  destruct (processQueue_no_retries nat Samples.flakyExecutor Samples.sampleClock
              Samples.sampleSleep Samples.noRetryEngine O) as (Htr & _).
  - cbn. lia.
  - exact Htr.
Defined.
(* ===================================================================== *)
(** * Further properties of [matchesGlob]                                 *)
(* ===================================================================== *)
Section GlobMore.
Import Glob.

(** X1.  [matchesGlob] never accepts more than the documented glob
    relation: when it answers [true], the whole value is matched by the
    pattern with [*] read as any run of characters, [?] as one
    character and every other character, the regular-expression
    specials included, as itself. *)
Theorem matchesGlob_sound (value pattern : string) :
  matchesGlob value pattern = true -> globMatches value pattern.
Proof.
  intros H. apply matchesGlob_spec in H as [->|[->|H]].
  - apply globMatches_refl.
  - apply globMatches_star.
  - apply regexGlob_globMatches, H.
Qed.

Lemma matchesGlob_sound_witness :
  globMatches "api.openai.com" "*.openai.com".
Proof.
  apply (matchesGlob_sound "api.openai.com" "*.openai.com"). reflexivity.
Defined.



Lemma regexGlob_literal (value pattern : string) :
  Forall (fun c => c <> "*"%char /\ c <> "?"%char) (list_ascii_of_string pattern) ->
  regexGlob value pattern -> value = pattern.
Proof.
  intros Hlit H. induction H; cbn [list_ascii_of_string] in Hlit;
    try (apply Forall_cons in Hlit as [[Hs Hq] Hlit]).
  - reflexivity.
  - congruence.
  - congruence.
  - congruence.
  - f_equal. apply IHregexGlob, Hlit.
Qed.

(** X3.  A pattern without [*] and [?] matches its own text and nothing
    else, whatever regular-expression specials it holds: the escaping
    leaves no character of the pattern with a meaning of its own. *)
Theorem matchesGlob_literal (value pattern : string) :
  Forall (fun c => c <> "*"%char /\ c <> "?"%char) (list_ascii_of_string pattern) ->
  (matchesGlob value pattern = true <-> value = pattern).
Proof.
  intros Hlit. split.
  - intros H. apply matchesGlob_spec in H as [->|[->|H]].
    + reflexivity.
    + cbn in Hlit. apply Forall_cons in Hlit as [[Hs _] _]. congruence.
    + exact (regexGlob_literal value pattern Hlit H).
  - intros ->. apply matchesGlob_self.
Qed.

Lemma matchesGlob_literal_witness :
  matchesGlob "aXb+(c)" "a.b+(c)" = true <-> "aXb+(c)" = "a.b+(c)".
Proof.
  apply (matchesGlob_literal "aXb+(c)" "a.b+(c)").
  repeat (constructor; [split; discriminate|]). constructor.
Defined.

End GlobMore.
